(** * Session router and extension command engine of the vibium clicker proxy

    A shallow embedding of [clicker/internal/proxy/router.go]: the
    per-client browser session, the browser-to-client correlator, the
    internal command issuer, the event-listener registry and the three
    [vibium:] extension commands, together with the properties of the
    specification that concern them.

    Conventions.
    - Go [int], [int64] and [time.Duration] are [Z]; arithmetic that can
      leave the 64-bit range is wrapped with [wrap64].
    - Go [float64] is Rocq's primitive binary64 [float].
    - A Go [(T, error)] result is [Result T]; an [error] is its message.
    - Channels are allocated from a counter; a channel is its index, and
      the world holds the buffer, capacity and closed flag of each.
    - I/O is recorded in a trace of [Action]s in call order.
    - [encoding/json] is not part of the repository: the decoders the
      router calls are parameters of the development, and values handed
      to [json.Marshal] are kept as structured values.
    - A handler runs as one task in a state monad over the world.  What
      the other tasks and the browser do meanwhile is given by an [Env]:
      whether a send fails, when the reply to a command id reaches its
      channel, when the stop signal is closed, when an event reaches a
      listener.  A [select] wakes on the case that is ready first.
    - The routing task is modelled one received frame at a time; its
      steps can be interleaved with the two halves of
      [sendInternalCommand] ([registerInternal], then the wait).  What
      the other tasks do where the routing task holds no lock (while it
      is blocked in [Receive], and between the copy of the listener list
      and each send of a dispatch) is given by an [Others].  A send on a
      closed channel is a panic.
    - A call that waits for what the connection never delivers does not
      return.  The unsubscribe of [closeSession] is the synchronous
      [SendCommand] of package [bidi]: a teardown is [TornDown] when the
      call has returned and [Unsubscribing] while it waits, and the
      counter of package [bidi] is passed through it. *)

From Stdlib Require Import ZArith Lia String Ascii List Bool.
From Stdlib Require Import Floats.PrimFloat Floats.SpecFloat Floats.FloatOps.
From Stdlib Require Import Numbers.DecimalString.
From stdpp Require Import base option list gmap strings.

Local Open Scope Z_scope.

(* ===================================================================== *)
(** ** Machine integers and floats                                        *)
(* ===================================================================== *)

Definition maxInt64 : Z := 2 ^ 63 - 1.
Definition minInt64 : Z := - 2 ^ 63.

(** Two's-complement wrap-around of a 64-bit signed integer. *)
Definition wrap64 (z : Z) : Z := (z + 2 ^ 63) mod 2 ^ 64 - 2 ^ 63.

Definition inInt64 (z : Z) : Prop := minInt64 <= z <= maxInt64.

(** The numerator and denominator of a finite binary64 value
    [(-1)^s * m * 2^e], as a fraction of integers with a positive
    denominator. *)
Definition floatNum (s : bool) (m : positive) (e : Z) : Z :=
  (if s then - Z.pos m else Z.pos m) * 2 ^ Z.max 0 e.

Definition floatDen (e : Z) : Z := 2 ^ Z.max 0 (- e).

(** Go's conversion [int(f)] / [int64(f)] of a [float64]: the fraction is
    discarded (truncation towards zero).  For NaN, infinities and values
    outside the 64-bit range the language leaves the result to the
    implementation; amd64 produces the minimum integer. *)
Definition goInt (f : float) : Z :=
  match Prim2SF f with
  | S754_zero _ => 0
  | S754_finite s m e =>
      let q := Z.quot (floatNum s m e) (floatDen e) in
      if (minInt64 <=? q) && (q <=? maxInt64) then q else minInt64
  | _ => minInt64
  end.

(** The mathematical floor of a finite binary64 value (0 for NaN and the
    infinities, which have none). *)
Definition floorFloat (f : float) : Z :=
  match Prim2SF f with
  | S754_finite s m e => Z.div (floatNum s m e) (floatDen e)
  | _ => 0
  end.

(** A finite binary64 value whose integer part fits in 64 bits. *)
Definition finiteInRange (f : float) : Prop :=
  match Prim2SF f with
  | S754_zero _ => True
  | S754_finite s m e => inInt64 (Z.quot (floatNum s m e) (floatDen e))
  | _ => False
  end.

(** Sign test on the decoded value: [f >= 0] for a finite [f]. *)
Definition nonNegative (f : float) : Prop :=
  match Prim2SF f with
  | S754_zero _ => True
  | S754_finite s _ _ => s = false
  | _ => False
  end.

(* ===================================================================== *)
(** ** [time.Duration] and its [String] method                            *)
(* ===================================================================== *)

Definition Nanosecond : Z := 1.
Definition Microsecond : Z := 1000 * Nanosecond.
Definition Millisecond : Z := 1000 * Microsecond.
Definition Second : Z := 1000 * Millisecond.

(** Default timeout for actionability checks. *)
Definition defaultTimeout : Z := 30 * Second.

Definition digitChar (d : Z) : ascii := ascii_of_nat (48 + Z.to_nat d).

(** [fmtInt]: decimal digits of a non-negative integer. *)
Definition fmtInt (v : Z) : string := NilZero.string_of_uint (N.to_uint (Z.to_N v)).

(** [fmtFrac]: the fraction of [v / 10^prec] without trailing zeros (and
    without the point when the fraction is zero), and [v / 10^prec]. *)
Fixpoint fmtFracLoop (prec : nat) (v : Z) (print : bool) (acc : string)
  : string * Z * bool :=
  match prec with
  | O => (acc, v, print)
  | S p =>
      let digit := v mod 10 in
      let print' := print || negb (digit =? 0) in
      fmtFracLoop p (v / 10) print'
        (if print' then String (digitChar digit) acc else acc)
  end.

Definition fmtFrac (v : Z) (prec : nat) : string * Z :=
  let '(acc, v', print) := fmtFracLoop prec v false EmptyString in
  (if print then String "."%char acc else acc, v').

(** The micro sign U+00B5 in UTF-8. *)
Definition microSign : string :=
  String (ascii_of_nat 194) (String (ascii_of_nat 181) EmptyString).

(** Go's [Duration.String]: ["300ms"], ["1.5s"], ["1h2m0.5s"], ["0s"].
    This is what [%s] prints for the [timeout] of the error messages. *)
Definition durationString (d : Z) : string :=
  let neg := d <? 0 in
  let u := if neg then (- d) mod 2 ^ 64 else d in
  let body :=
    if u <? Second then
      if u =? 0 then "0s"
      else if u <? Microsecond then fmtInt u +:+ "ns"
      else if u <? Millisecond then
        let '(frac, w) := fmtFrac u 3 in fmtInt w +:+ frac +:+ microSign +:+ "s"
      else
        let '(frac, w) := fmtFrac u 6 in fmtInt w +:+ frac +:+ "ms"
    else
      let '(frac, secs) := fmtFrac u 9 in
      let s := fmtInt (secs mod 60) +:+ frac +:+ "s" in
      let mins := secs / 60 in
      if 0 <? mins then
        let ms := fmtInt (mins mod 60) +:+ "m" +:+ s in
        let hours := mins / 60 in
        if 0 <? hours then fmtInt hours +:+ "h" +:+ ms else ms
      else s in
  if neg then "-" +:+ body else body.

(* ===================================================================== *)
(** ** Wire data                                                          *)
(* ===================================================================== *)

(** Values handed to or produced by [encoding/json]: what Go holds in an
    [interface{}] ([map[string]interface{}], slices, strings, numbers). *)
#[warning="-register-all"]
Inductive json : Type :=
| JNull
| JBool (b : bool)
| JInt (z : Z)
| JNum (f : float)
| JStr (s : string)
| JArr (items : list json)
| JObj (fields : list (string * json)).

(** [json.RawMessage] and the text frames of both WebSockets. *)
Abbreviation RawMessage := string.

(** BiDi command structure for parsing incoming messages. *)
Record bidiCommand := {
  cmdID : Z;
  cmdMethod : string;
  cmdParams : gmap string json;
}.

Record bidiError := {
  errError : string;
  errMessage : string;
}.

(** BiDi response structure for sending responses; [respType] is
    ["success"] or ["error"]. *)
Record bidiResponse := {
  respID : Z;
  respType : string;
  respResult : option json;
  respError : option bidiError;
}.

Record boxInfo := {
  boxX : float;
  boxY : float;
  boxWidth : float;
  boxHeight : float;
}.

(** [elementInfo] holds parsed element information. *)
Record elementInfo := {
  infoTag : string;
  infoText : string;
  infoBox : boxInfo;
}.

(** The anonymous struct [routeBrowserToClient] decodes each browser
    frame into: an optional id and a method. *)
Record parsedFrame := {
  frameID : option Z;
  frameMethod : string;
}.

(** A Go [(T, error)] pair. *)
Inductive Result (A : Type) : Type :=
| Ok (a : A)
| Err (msg : string).
Arguments Ok {A} a.
Arguments Err {A} msg.

(** [cmd.Params[key].(string)] and [cmd.Params[key].(float64)] with the
    result of a failed assertion discarded: the zero value. *)
Definition paramString (params : gmap string json) (key : string) : string :=
  match params !! key with
  | Some (JStr s) => s
  | _ => ""
  end.

Definition paramFloat (params : gmap string json) (key : string) : float :=
  match params !! key with
  | Some (JNum f) => f
  | _ => 0%float
  end.

(* ===================================================================== *)
(** ** Sessions, the world around them, and observable actions            *)
(* ===================================================================== *)

(** A channel is identified by its allocation index. *)
Abbreviation Chan := nat.

(** [BrowserSession] represents a browser session connected to a client.
    The three handles are modelled by whether they are non-nil. *)
Record BrowserSession := {
  LaunchResult : bool;
  BidiConn : bool;
  BidiClient : bool;
  closed : bool;
  stopChan : bool;                          (* true once closed *)
  internalCmds : gmap Z Chan;               (* id -> response channel *)
  nextInternalID : Z;
  navigationSubscriptionID : string;
  eventListeners : gmap string (list Chan); (* event method -> listener channels *)
}.

(** Everything a call can write to one of its three peers. *)
Inductive Action : Type :=
| ClientSend (msg : RawMessage)                          (* session.Client.Send(msg) *)
| ClientSendResponse (resp : bidiResponse)               (* Client.Send(json.Marshal(resp)) *)
| ClientClose                                            (* session.Client.Close() *)
| BidiSend (msg : RawMessage)                            (* session.BidiConn.Send(msg) *)
| BidiSendCommand (id : Z) (method : string) (params : json)
                                                         (* BidiConn.Send(json.Marshal(cmd)) *)
| CloseStopChan                                          (* close(session.stopChan) *)
| BidiConnClose                                          (* session.BidiConn.Close() *)
| LaunchResultClose.                                     (* session.LaunchResult.Close() *)

(** The session together with the channel heap, the wall clock in
    nanoseconds and the trace of actions performed so far. *)
Record World := {
  session : BrowserSession;
  chanBuf : gmap Chan (list RawMessage);  (* buffered messages of each channel *)
  chanCap : gmap Chan nat;                (* capacity given to [make] *)
  chanClosed : gset Chan;
  nextChan : Chan;
  now : Z;
  trace : list Action;
}.

(** What the browser, the network and the scheduler do while a handler
    runs.  Times are absolute; delays are relative to the send. *)
Record Env := {
  sendFails : Z -> option string;          (* error of BidiConn.Send for this command id *)
  replyOf : Z -> option (Z * RawMessage);  (* delay and frame of the reply to this id *)
  stopAt : option Z;                       (* when another task closes the stop signal *)
  eventAt : string -> option (Z * RawMessage);
                                           (* when the first event of a method reaches a
                                              listener, and its frame *)
  pick : Z -> nat;                         (* choice among cases ready together *)
}.

Definition setSession (s : BrowserSession) (w : World) : World :=
  {| session := s; chanBuf := chanBuf w; chanCap := chanCap w;
     chanClosed := chanClosed w; nextChan := nextChan w; now := now w;
     trace := trace w |}.

Definition setNow (t : Z) (w : World) : World :=
  {| session := session w; chanBuf := chanBuf w; chanCap := chanCap w;
     chanClosed := chanClosed w; nextChan := nextChan w; now := t;
     trace := trace w |}.

Definition emit (a : Action) (w : World) : World :=
  {| session := session w; chanBuf := chanBuf w; chanCap := chanCap w;
     chanClosed := chanClosed w; nextChan := nextChan w; now := now w;
     trace := trace w ++ [a] |}.

Definition setTrace (tr : list Action) (w : World) : World :=
  {| session := session w; chanBuf := chanBuf w; chanCap := chanCap w;
     chanClosed := chanClosed w; nextChan := nextChan w; now := now w;
     trace := tr |}.

(** [make(chan json.RawMessage, cap)]. *)
Definition makeChan (cap : nat) (w : World) : Chan * World :=
  (nextChan w,
   {| session := session w; chanBuf := <[nextChan w := []]> (chanBuf w);
      chanCap := <[nextChan w := cap]> (chanCap w);
      chanClosed := chanClosed w; nextChan := S (nextChan w); now := now w;
      trace := trace w |}).

(** [close(ch)]. *)
Definition closeChan (ch : Chan) (w : World) : World :=
  {| session := session w; chanBuf := chanBuf w; chanCap := chanCap w;
     chanClosed := {[ch]} ∪ chanClosed w; nextChan := nextChan w; now := now w;
     trace := trace w |}.

Definition setBuf (ch : Chan) (buf : list RawMessage) (w : World) : World :=
  {| session := session w; chanBuf := <[ch := buf]> (chanBuf w);
     chanCap := chanCap w; chanClosed := chanClosed w; nextChan := nextChan w;
     now := now w; trace := trace w |}.

Definition bufOf (ch : Chan) (w : World) : list RawMessage :=
  default [] (chanBuf w !! ch).

Definition capOf (ch : Chan) (w : World) : nat :=
  default 0%nat (chanCap w !! ch).

(** Room left in the buffer: a send completes without a receiver. *)
Definition hasRoom (ch : Chan) (w : World) : bool :=
  (length (bufOf ch w) <? capOf ch w)%nat.

Definition setInternal (cmds : gmap Z Chan) (next : Z) (s : BrowserSession)
  : BrowserSession :=
  {| LaunchResult := LaunchResult s; BidiConn := BidiConn s;
     BidiClient := BidiClient s; closed := closed s; stopChan := stopChan s;
     internalCmds := cmds; nextInternalID := next;
     navigationSubscriptionID := navigationSubscriptionID s;
     eventListeners := eventListeners s |}.

Definition setListeners (ls : gmap string (list Chan)) (s : BrowserSession)
  : BrowserSession :=
  {| LaunchResult := LaunchResult s; BidiConn := BidiConn s;
     BidiClient := BidiClient s; closed := closed s; stopChan := stopChan s;
     internalCmds := internalCmds s; nextInternalID := nextInternalID s;
     navigationSubscriptionID := navigationSubscriptionID s;
     eventListeners := ls |}.

Definition setClosed (s : BrowserSession) : BrowserSession :=
  {| LaunchResult := LaunchResult s; BidiConn := BidiConn s;
     BidiClient := BidiClient s; closed := true; stopChan := stopChan s;
     internalCmds := internalCmds s; nextInternalID := nextInternalID s;
     navigationSubscriptionID := navigationSubscriptionID s;
     eventListeners := eventListeners s |}.

Definition setStopped (s : BrowserSession) : BrowserSession :=
  {| LaunchResult := LaunchResult s; BidiConn := BidiConn s;
     BidiClient := BidiClient s; closed := closed s; stopChan := true;
     internalCmds := internalCmds s; nextInternalID := nextInternalID s;
     navigationSubscriptionID := navigationSubscriptionID s;
     eventListeners := eventListeners s |}.

(** The listeners registered for a method ([session.eventListeners[method]],
    nil when the key is absent). *)
Definition listenersOf (method : string) (w : World) : list Chan :=
  default [] (eventListeners (session w) !! method).

(** The session [OnClientConnect] builds once the browser is launched and
    the BiDi connection is up; [subscription] is the handle returned by
    [session.subscribe], empty when subscribing failed. *)
Definition newSession (subscription : string) : BrowserSession :=
  {| LaunchResult := true; BidiConn := true; BidiClient := true;
     closed := false; stopChan := false;
     internalCmds := ∅;
     nextInternalID := 1000000; (* Start at high number to avoid collision with client IDs *)
     navigationSubscriptionID := subscription;
     eventListeners := ∅ |}.

Definition newWorld (subscription : string) (start : Z) : World :=
  {| session := newSession subscription; chanBuf := ∅; chanCap := ∅;
     chanClosed := ∅; nextChan := 0%nat; now := start; trace := [] |}.

(* ===================================================================== *)
(** ** The monad of handlers                                              *)
(* ===================================================================== *)

(** A handler reads and updates the world. *)
Definition M (A : Type) : Type := World -> A * World.

#[global] Instance M_ret : MRet M := fun A a w => (a, w).
#[global] Instance M_bind : MBind M :=
  fun A B f m w => let '(a, w') := m w in f a w'.

Definition get : M World := fun w => (w, w).
Definition modify (f : World -> World) : M unit := fun w => (tt, f w).
Definition act (a : Action) : M unit := modify (emit a).

(** [time.Now()] and [time.Sleep(d)]. *)
Definition timeNow : M Z := fun w => (now w, w).
Definition timeSleep (d : Z) : M unit := modify (fun w => setNow (now w + Z.max 0 d) w).

(* ===================================================================== *)
(** ** Blocking receives                                                  *)
(* ===================================================================== *)

(** A [select] wakes on the case that becomes ready first.  [dflt] is the
    timer case, which is always present; when several cases are ready at
    the same instant Go chooses among them at random, here by [choice]. *)
Definition earliest {A} (dflt : Z * A) (cases : list (Z * A)) : Z :=
  foldr (fun c acc => Z.min c.1 acc) dflt.1 cases.

Definition selectCase {A} (dflt : Z * A) (cases : list (Z * A)) (choice : nat)
  : Z * A :=
  let tmin := earliest dflt cases in
  let ready := filter (fun c => c.1 = tmin) (dflt :: cases) in
  nth (choice mod length ready) ready dflt.

(** When a receive from [ch] becomes ready: at once if a message is
    buffered, otherwise when [arrival] says the correlator delivers one
    (never for a nil channel or when nothing arrives). *)
Definition recvReady (ch : Chan) (arrival : option (Z * RawMessage)) (w : World)
  : option (Z * RawMessage) :=
  match bufOf ch w with
  | raw :: _ => Some (now w, raw)
  | [] => (fun a => (Z.max (now w) a.1, a.2)) <$> arrival
  end.

(** Completing the receive takes the message out of the buffer. *)
Definition takeFrom (ch : Chan) (w : World) : World :=
  match bufOf ch w with
  | _ :: rest => setBuf ch rest w
  | [] => w
  end.

(** UTF-8 decoding of [for _, char := range text] followed by
    [string(char)]: the encoded runes of [text] in order, an invalid byte
    giving U+FFFD. *)
Definition runeError : string :=
  String (ascii_of_nat 239) (String (ascii_of_nat 191) (String (ascii_of_nat 189) EmptyString)).

Definition byteIn (lo hi : nat) (c : ascii) : bool :=
  (lo <=? nat_of_ascii c)%nat && (nat_of_ascii c <=? hi)%nat.

Definition isCont : ascii -> bool := byteIn 128 191.

Fixpoint runesFuel (fuel : nat) (text : string) : list string :=
  match fuel with
  | O => []
  | S fuel' =>
      match text with
      | EmptyString => []
      | String b0 rest =>
          if byteIn 0 127 b0 then String b0 EmptyString :: runesFuel fuel' rest
          else
            match rest with
            | String b1 (String b2 (String b3 rest3)) =>
                if byteIn 240 244 b0
                   && byteIn (if byteIn 240 240 b0 then 144 else 128)
                             (if byteIn 244 244 b0 then 143 else 191) b1
                   && isCont b2 && isCont b3
                then String b0 (String b1 (String b2 (String b3 EmptyString)))
                       :: runesFuel fuel' rest3
                else if byteIn 224 239 b0
                   && byteIn (if byteIn 224 224 b0 then 160 else 128)
                             (if byteIn 237 237 b0 then 159 else 191) b1
                   && isCont b2
                then String b0 (String b1 (String b2 EmptyString))
                       :: runesFuel fuel' (String b3 rest3)
                else if byteIn 194 223 b0 && isCont b1
                then String b0 (String b1 EmptyString)
                       :: runesFuel fuel' (String b2 (String b3 rest3))
                else runeError :: runesFuel fuel' rest
            | String b1 (String b2 rest2) =>
                if byteIn 224 239 b0
                   && byteIn (if byteIn 224 224 b0 then 160 else 128)
                             (if byteIn 237 237 b0 then 159 else 191) b1
                   && isCont b2
                then String b0 (String b1 (String b2 EmptyString))
                       :: runesFuel fuel' rest2
                else if byteIn 194 223 b0 && isCont b1
                then String b0 (String b1 EmptyString)
                       :: runesFuel fuel' (String b2 rest2)
                else runeError :: runesFuel fuel' rest
            | String b1 rest1 =>
                if byteIn 194 223 b0 && isCont b1
                then String b0 (String b1 EmptyString) :: runesFuel fuel' rest1
                else runeError :: runesFuel fuel' rest
            | EmptyString => [runeError]
            end
      end
  end.

Definition runes (text : string) : list string :=
  runesFuel (String.length text) text.

(** The polling script of [waitForElement], evaluated in the page. *)
Definition findScript : string := "
		(selector) => {
			const el = document.querySelector(selector);
			if (!el) return null;
			const rect = el.getBoundingClientRect();
			return JSON.stringify({
				tag: el.tagName.toLowerCase(),
				text: (el.textContent || '').trim().substring(0, 100),
				box: {
					x: rect.x,
					y: rect.y,
					width: rect.width,
					height: rect.height
				}
			});
		}
	".


(* ===================================================================== *)
(** ** The BiDi client ([clicker/internal/bidi])                          *)
(* ===================================================================== *)

Module Bidi.

(** [Message] is a generic BiDi message that can be either a response or
    an event; an absent raw field is the empty text. *)
Record Message := {
  msgID : option Z;
  msgResult : RawMessage;
  msgError : RawMessage;
  msgMethod : string;
  msgParams : RawMessage;
}.

(** [ErrorData] represents an error in a BiDi response. *)
Record ErrorData := {
  edError : string;
  edMessage : string;
}.

(** [Event] represents a BiDi event from the browser. *)
Record Event := {
  evMethod : string;
  evParams : RawMessage;
}.

(** [IsResponse] returns true if the message is a response (has an ID). *)
Definition IsResponse (m : Message) : bool :=
  match msgID m with Some _ => true | None => false end.

(** [IsEvent] returns true if the message is an event (has a method but
    no ID). *)
Definition IsEvent (m : Message) : bool :=
  negb (msgMethod m =? "")%string && negb (IsResponse m).

(** [IsError] returns true if the message is an error response. *)
Definition IsError (m : Message) : bool :=
  (0 <? String.length (msgError m))%nat.

(** [NextID] returns the next unique command ID: the counter after the
    atomic increment. *)
Definition NextID (commandID : Z) : Z := wrap64 (commandID + 1).

(** What the client and its connection hold: the package counter, the
    frames [conn.Receive] will yield in turn, and what was sent. *)
Record Wire := {
  commandID : Z;
  inbox : list (Result RawMessage);
  outbox : list Action;
}.

(** The state of a [Client] with its event loop: the buffered events
    (capacity 100), whether the events channel is closed, the ids
    registered in [pendingCommands] and the content of the one-slot
    response channel of each command. *)
Record Client := {
  events : list Event;
  eventsClosed : bool;
  pendingCommands : gset Z;
  responses : gmap Z Message;
  eventLoopRunning : bool;
}.

(** [NewClient] creates a new BiDi client from a WebSocket connection. *)
Definition NewClient : Client :=
  {| events := []; eventsClosed := false; pendingCommands := ∅; responses := ∅;
     eventLoopRunning := false |}.

Inductive LoopResult : Type :=
| LoopContinue (c : Client)
| LoopEnded (c : Client)
| LoopPanic (reason : string).

(** The parameters of [session.subscribe]: contexts and userContexts are
    left out when empty (a nil [events], which the router never passes,
    would be marshalled as null). *)
Definition subscribeParams (events contexts userContexts : list string) : json :=
  JObj ([("events", JArr (JStr <$> events))]
        ++ (if (0 <? length contexts)%nat
            then [("contexts", JArr (JStr <$> contexts))] else [])
        ++ (if (0 <? length userContexts)%nat
            then [("userContexts", JArr (JStr <$> userContexts))] else [])).

Definition unsubscribeByIDParams (subscriptions : list string) : json :=
  JObj [("subscriptions", JArr (JStr <$> subscriptions))].

Section Client.

(** The [json.Unmarshal] calls of the package, one per target type. *)
Variable unmarshalMessage : RawMessage -> Result Message.
Variable unmarshalErrorData : RawMessage -> Result ErrorData.
Variable unmarshalString : RawMessage -> Result string.
Variable unmarshalSubscription : RawMessage -> Result string.

(** [GetError] parses the error field and returns an [ErrorData]: the
    object if the field is one, else the plain string as both kind and
    message. *)
Definition GetError (m : Message) : Result (option ErrorData) :=
  if (String.length (msgError m) =? 0)%nat then Ok None
  else
    match unmarshalErrorData (msgError m) with
    | Ok errData => Ok (Some errData)
    | Err _ =>
        match unmarshalString (msgError m) with
        | Ok errStr => Ok (Some {| edError := errStr; edMessage := errStr |})
        | Err e => Err e
        end
    end.

(** The end of [SendCommand] once the response is there: an error
    response becomes a Go error. *)
Definition checkResponse (msg : Message) : Result Message :=
  if IsError msg then
    match GetError msg with
    | Ok (Some errData) =>
        Err ("BiDi error: " +:+ edError errData +:+ " - " +:+ edMessage errData)
    | _ => Err ("BiDi error: " +:+ msgError msg)
    end
  else Ok msg.

(** Wait for response with matching ID (event loop not running): read
    frames until one carries the id; [None] when [Receive] has nothing
    more to give and the call stays blocked. *)
Fixpoint awaitResponse (id : Z) (frames : list (Result RawMessage))
  : option (Result Message) * list (Result RawMessage) :=
  match frames with
  | [] => (None, [])
  | Err e :: rest => (Some (Err ("failed to receive response: " +:+ e)), rest)
  | Ok resp :: rest =>
      match unmarshalMessage resp with
      | Err e => (Some (Err ("failed to parse response: " +:+ e)), rest)
      | Ok msg =>
          if bool_decide (msgID msg = Some id) then (Some (checkResponse msg), rest)
          else awaitResponse id rest (* an event or another response: skipped *)
      end
  end.

(** [SendCommand] sends a BiDi command and waits for the response, in
    the synchronous mode the router uses (it never starts the event
    loop); [sendErr] is the error of [conn.Send], if any. *)
Definition SendCommand (method : string) (params : json) (sendErr : option string)
    (w : Wire) : option (Result Message) * Wire :=
  let id := NextID (commandID w) in
  let sent := outbox w ++ [BidiSendCommand id method params] in
  match sendErr with
  | Some e =>
      (Some (Err ("failed to send command: " +:+ e)),
       {| commandID := id; inbox := inbox w; outbox := sent |})
  | None =>
      let r := awaitResponse id (inbox w) in
      (r.1, {| commandID := id; inbox := r.2; outbox := sent |})
  end.

(** [SessionSubscribe] sends a [session.subscribe] command to enable
    event subscriptions and returns the subscription. *)
Definition SessionSubscribe (events contexts userContexts : list string)
    (sendErr : option string) (w : Wire) : option (Result string) * Wire :=
  let r := SendCommand "session.subscribe" (subscribeParams events contexts userContexts)
                       sendErr w in
  (match r.1 with
   | None => None
   | Some (Err e) => Some (Err e)
   | Some (Ok msg) =>
       Some (match unmarshalSubscription (msgResult msg) with
             | Ok subscription => Ok subscription
             | Err e => Err ("failed to parse session.subscribe result: " +:+ e)
             end)
   end, r.2).

(** [SessionUnsubscribeByID] sends a [session.unsubscribe] command to
    remove subscriptions by their IDs. *)
Definition SessionUnsubscribeByID (subscriptions : list string)
    (sendErr : option string) (w : Wire) : option (Result unit) * Wire :=
  let r := SendCommand "session.unsubscribe" (unsubscribeByIDParams subscriptions)
                       sendErr w in
  (match r.1 with
   | None => None
   | Some (Err e) => Some (Err e)
   | Some (Ok _) => Some (Ok tt)
   end, r.2).

(** [StartEventLoop]: nothing when the loop is running, else the flag is
    set and a loop is started ([true]). *)
Definition StartEventLoop (c : Client) : bool * Client :=
  if eventLoopRunning c then (false, c)
  else (true, {| events := events c; eventsClosed := eventsClosed c;
                 pendingCommands := pendingCommands c; responses := responses c;
                 eventLoopRunning := true |}).

(** One iteration of [eventLoop] for what [Receive] returned. *)
Definition eventLoopStep (received : Result RawMessage) (c : Client) : LoopResult :=
  match received with
  | Err _ =>
      (* Connection closed or error *)
      if eventsClosed c then LoopPanic "close of closed channel"
      else LoopEnded {| events := events c; eventsClosed := true;
                        pendingCommands := pendingCommands c; responses := responses c;
                        eventLoopRunning := false |}
  | Ok resp =>
      match unmarshalMessage resp with
      | Err _ => LoopContinue c
      | Ok msg =>
          match msgID msg with
          | Some id =>
              (* Dispatch command responses *)
              if bool_decide (id ∈ pendingCommands c)
              then LoopContinue
                     {| events := events c; eventsClosed := eventsClosed c;
                        pendingCommands := pendingCommands c ∖ {[id]};
                        responses := <[id := msg]> (responses c);
                        eventLoopRunning := eventLoopRunning c |}
              else LoopContinue c
          | None =>
              (* Dispatch events *)
              if IsEvent msg then
                if eventsClosed c then LoopPanic "send on closed channel"
                else if (length (events c) <? 100)%nat
                then LoopContinue
                       {| events := events c
                                      ++ [{| evMethod := msgMethod msg;
                                             evParams := msgParams msg |}];
                          eventsClosed := eventsClosed c;
                          pendingCommands := pendingCommands c; responses := responses c;
                          eventLoopRunning := eventLoopRunning c |}
                else LoopContinue c (* events channel full, dropping event *)
              else LoopContinue c
          end
      end
  end.

(** [eventLoop] over the frames [Receive] yields in turn. *)
Fixpoint eventLoop (received : list (Result RawMessage)) (c : Client) : LoopResult :=
  match received with
  | [] => LoopContinue c
  | r :: rest =>
      match eventLoopStep r c with
      | LoopContinue c' => eventLoop rest c'
      | stopped => stopped
      end
  end.

(** The first half of [SendCommand] when the event loop is running:
    register a channel for the response, then send; a failed send takes
    the registration back. *)
Definition registerCommand (id : Z) (sendErr : option string) (c : Client)
  : Result unit * Client :=
  match sendErr with
  | Some e => (Err ("failed to send command: " +:+ e),
               {| events := events c; eventsClosed := eventsClosed c;
                  pendingCommands := ({[id]} ∪ pendingCommands c) ∖ {[id]};
                  responses := delete id (responses c);
                  eventLoopRunning := eventLoopRunning c |})
  | None => (Ok tt,
             {| events := events c; eventsClosed := eventsClosed c;
                pendingCommands := {[id]} ∪ pendingCommands c;
                responses := delete id (responses c);
                eventLoopRunning := eventLoopRunning c |})
  end.

(** The second half: [msg := <-responseCh]; [None] while the channel is
    empty. *)
Definition takeResponse (id : Z) (c : Client) : option (Result Message) :=
  checkResponse <$> responses c !! id.

End Client.
End Bidi.

(** Notions for the BiDi client. *)
Module BidiSpec.
Import Bidi.

(** A frame the synchronous wait for the response to [id] reads and
    drops: it parses, and is an event or carries another id. *)
Definition skipped (unmarshalMessage : RawMessage -> Result Message) (id : Z)
    (frame : RawMessage) : Prop :=
  exists m, unmarshalMessage frame = Ok m /\ msgID m <> Some id.

(** A frame that is not a response to [id] for the event loop: it does
    not parse, or is an event or carries another id. *)
Definition notFor (unmarshalMessage : RawMessage -> Result Message) (id : Z)
    (frame : RawMessage) : Prop :=
  forall m, unmarshalMessage frame = Ok m -> msgID m <> Some id.

(** The client the loop leaves, unless it panicked. *)
Definition loopClient (r : LoopResult) : option Client :=
  match r with
  | LoopContinue c | LoopEnded c => Some c
  | LoopPanic _ => None
  end.

Definition loopEnded (r : LoopResult) : bool :=
  match r with LoopEnded _ => true | _ => false end.

End BidiSpec.
(* ===================================================================== *)
(** ** The router                                                         *)
(* ===================================================================== *)

Section Router.

(** The [json.Unmarshal] calls of the router, one per target type. *)
Variable parseFrame : RawMessage -> option parsedFrame.
Variable parseCommand : RawMessage -> option bidiCommand.
Variable parseGetTree : RawMessage -> Result (list string).
Variable parseCallResult : RawMessage -> option (string * string).
Variable parseElementInfo : string -> option elementInfo.

Variable env : Env.

(** The [json.Unmarshal] calls of the BiDi client the session holds. *)
Variable unmarshalMessage : RawMessage -> Result Bidi.Message.
Variable unmarshalErrorData : RawMessage -> Result Bidi.ErrorData.
Variable unmarshalString : RawMessage -> Result string.

(** *** Event listener registry *)

(** [addEventListener] registers a channel to receive events of the
    specified method and returns it. *)
Definition addEventListener (method : string) : M Chan :=
  fun w =>
    let '(ch, w1) := makeChan 10 w in
    (ch, setSession
           (setListeners (<[method := listenersOf method w ++ [ch]]>
                            (eventListeners (session w))) (session w)) w1).

(** The scan of [removeEventListener]: the list without the first
    occurrence of [ch], if there is one. *)
Fixpoint removeFirst (ch : Chan) (listeners : list Chan) : option (list Chan) :=
  match listeners with
  | [] => None
  | listener :: rest =>
      if decide (listener = ch) then Some rest
      else (fun l => listener :: l) <$> removeFirst ch rest
  end.

(** [removeEventListener] removes a previously registered event listener
    channel and closes it. *)
Definition removeEventListener (method : string) (ch : Chan) : M unit :=
  fun w =>
    match removeFirst ch (listenersOf method w) with
    | Some rest =>
        (tt, closeChan ch
               (setSession (setListeners (<[method := rest]>
                                            (eventListeners (session w)))
                                         (session w)) w))
    | None => (tt, w)
    end.

(** *** Internal command issuer *)

(** The first critical section of [sendInternalCommand]: take the next
    id, make the reply channel, record it as pending. *)
Definition registerInternal : M (Z * Chan) :=
  fun w =>
    let s := session w in
    let id := nextInternalID s in
    let '(ch, w1) := makeChan 1 w in
    ((id, ch),
     setSession (setInternal (<[id := ch]> (internalCmds s)) (wrap64 (id + 1)) s) w1).

(** The deferred [delete(session.internalCmds, id)]. *)
Definition unregisterInternal (id : Z) : M unit :=
  modify (fun w =>
            setSession (setInternal (delete id (internalCmds (session w)))
                                    (nextInternalID (session w)) (session w)) w).

Inductive InternalCase : Type :=
| CaseReply (resp : RawMessage)
| CaseHardCap
| CaseStop.

(** When the receive from [session.stopChan] becomes ready. *)
Definition stopReady (w : World) : option Z :=
  if stopChan (session w) then Some (now w) else Z.max (now w) <$> stopAt env.

Definition internalCases (id : Z) (ch : Chan) (w : World) : list (Z * InternalCase) :=
  option_list ((fun a => (a.1, CaseReply a.2))
                 <$> recvReady ch ((fun r => (now w + Z.max 0 r.1, r.2)) <$> replyOf env id) w)
  ++ option_list ((fun t => (t, CaseStop)) <$> stopReady w).

(** The [select] of [sendInternalCommand]: reply, 60 s, or stop. *)
Definition awaitInternal (id : Z) (ch : Chan) (method : string) : M (Result RawMessage) :=
  fun w =>
    let c := selectCase (now w + 60 * Second, CaseHardCap)
                        (internalCases id ch w) (pick env (now w)) in
    match c.2 with
    | CaseReply resp => (Ok resp, setNow c.1 (takeFrom ch w))
    | CaseHardCap => (Err ("timeout waiting for response to " +:+ method), setNow c.1 w)
    | CaseStop => (Err "session closed", setNow c.1 w)
    end.

(** [sendInternalCommand] sends a BiDi command and waits for the
    response. *)
Definition sendInternalCommand (method : string) (params : json)
  : M (Result RawMessage) :=
  '(id, ch) ← registerInternal;
  r ← (act (BidiSendCommand id method params);;
       match sendFails env id with
       | Some e => mret (Err e)
       | None => awaitInternal id ch method
       end);
  unregisterInternal id;;
  mret r.

(** *** Replies to the client *)

(** [sendSuccess] sends a successful response to the client. *)
Definition sendSuccess (id : Z) (result : json) : M unit :=
  act (ClientSendResponse
         {| respID := id; respType := "success";
            respResult := Some result; respError := None |}).

(** [sendError] sends an error response to the client. *)
Definition sendError (id : Z) (err : string) : M unit :=
  act (ClientSendResponse
         {| respID := id; respType := "error"; respResult := None;
            respError := Some {| errError := "timeout"; errMessage := err |} |}).

(** *** The common prologue *)

(** [getContext] retrieves the first browsing context. *)
Definition getContext : M (Result string) :=
  r ← sendInternalCommand "browsingContext.getTree" (JObj []);
  mret (match r with
        | Err e => Err e
        | Ok resp =>
            match parseGetTree resp with
            | Err e => Err ("failed to parse getTree response: " +:+ e)
            | Ok [] => Err "no browsing contexts available"
            | Ok (context :: _) => Ok context
            end
        end).

Definition findParams (context selector : string) : json :=
  JObj [("functionDeclaration", JStr findScript);
        ("target", JObj [("context", JStr context)]);
        ("arguments", JArr [JObj [("type", JStr "string"); ("value", JStr selector)]]);
        ("awaitPromise", JBool false);
        ("resultOwnership", JStr "root")].

(** What one poll makes of the outcome of [script.callFunction]: the
    element, or nothing yet. *)
Definition pollResult (r : Result RawMessage) : option elementInfo :=
  match r with
  | Err _ => None
  | Ok resp =>
      match parseCallResult resp with
      | Some (type, value) =>
          if (type =? "string")%string && negb (value =? "")%string
          then parseElementInfo value
          else None
      | None => None
      end
  end.

Definition interval : Z := 100 * Millisecond.

Definition elementTimeout (timeout : Z) (selector : string) : string :=
  "timeout after " +:+ durationString timeout +:+ " waiting for '" +:+ selector
    +:+ "': element not found".

(** The loop of [waitForElement]; [None] when [fuel] iterations were
    not enough. *)
Fixpoint waitForElementLoop (fuel : nat) (context selector : string)
    (timeout deadline : Z) : M (option (Result elementInfo)) :=
  match fuel with
  | O => mret None
  | S fuel' =>
      r ← sendInternalCommand "script.callFunction" (findParams context selector);
      match pollResult r with
      | Some info => mret (Some (Ok info))
      | None =>
          t ← timeNow;
          if deadline <? t
          then mret (Some (Err (elementTimeout timeout selector)))
          else timeSleep interval;; waitForElementLoop fuel' context selector timeout deadline
      end
  end.

(** Iterations that always suffice: the clock advances by [interval]
    in each of them. *)
Definition pollFuel (timeout : Z) : nat := Z.to_nat (timeout / interval) + 2.

(** [waitForElement] polls until an element is found or timeout. *)
Definition waitForElement (context selector : string) (timeout : Z)
  : M (Result elementInfo) :=
  t ← timeNow;
  r ← waitForElementLoop (pollFuel timeout) context selector timeout (t + timeout);
  mret (default (Err (elementTimeout timeout selector)) r).

(** [timeout := defaultTimeout; if timeoutMs > 0 { timeout =
    time.Duration(timeoutMs) * time.Millisecond }]. *)
Definition timeoutOf (timeoutMs : float) : Z :=
  if (0 <? timeoutMs)%float then wrap64 (goInt timeoutMs * Millisecond)
  else defaultTimeout.

(** [remainingTime()]: the time until the deadline, not below zero. *)
Definition remainingTime (deadline : Z) : M Z :=
  fun w => (Z.max 0 (deadline - now w), w).

(** [if context == "" { ... getContext ... }]. *)
Definition resolveContext (context : string) : M (Result string) :=
  if (context =? "")%string then getContext else mret (Ok context).

(** *** Pointer and keyboard actions *)

(** The element centre [click] and [type] aim at:
    [int(info.Box.X + info.Box.Width/2)] and likewise for y. *)
Definition centerX (info : elementInfo) : float :=
  (boxX (infoBox info) + boxWidth (infoBox info) / 2)%float.

Definition centerY (info : elementInfo) : float :=
  (boxY (infoBox info) + boxHeight (infoBox info) / 2)%float.

Definition clickParams (context : string) (info : elementInfo) : json :=
  let x := goInt (centerX info) in
  let y := goInt (centerY info) in
  JObj [("context", JStr context);
        ("actions",
         JArr [JObj [("type", JStr "pointer");
                     ("id", JStr "mouse");
                     ("parameters", JObj [("pointerType", JStr "mouse")]);
                     ("actions",
                      JArr [JObj [("type", JStr "pointerMove"); ("x", JInt x);
                                  ("y", JInt y); ("duration", JInt 0)];
                            JObj [("type", JStr "pointerDown"); ("button", JInt 0)];
                            JObj [("type", JStr "pointerUp"); ("button", JInt 0)]])]])].

Definition keyActions (text : string) : list json :=
  flat_map (fun char => [JObj [("type", JStr "keyDown"); ("value", JStr char)];
                         JObj [("type", JStr "keyUp"); ("value", JStr char)]])
           (runes text).

Definition typeParams (context text : string) : json :=
  JObj [("context", JStr context);
        ("actions",
         JArr [JObj [("type", JStr "key");
                     ("id", JStr "keyboard");
                     ("actions", JArr (keyActions text))]])].

(** *** Navigation waits *)

Definition navigationStarted : string := "browsingContext.navigationStarted".
Definition domContentLoaded : string := "browsingContext.domContentLoaded".
Definition load : string := "browsingContext.load".

(** [if cond { ch = r.addEventListener(session, method) }]; a channel
    variable left nil is [None]. *)
Definition listenIf (cond : bool) (method : string) : M (option Chan) :=
  if cond then (ch ← addEventListener method; mret (Some ch)) else mret None.

(** Set up event listeners based on [waitBehavior]. *)
Definition registerListeners (waitBehavior : string)
  : M (option Chan * option Chan * option Chan) :=
  navStartedCh ← listenIf (negb (waitBehavior =? "none")%string) navigationStarted;
  domContentLoadedCh ← listenIf (waitBehavior =? "waitForDomContentLoaded")%string
                                domContentLoaded;
  loadCh ← listenIf (waitBehavior =? "waitForLoad")%string load;
  mret (navStartedCh, domContentLoadedCh, loadCh).

Definition removeIf (method : string) (ch : option Chan) : M unit :=
  match ch with
  | Some c => removeEventListener method c
  | None => mret tt
  end.

(** Helper to clean up all listeners. *)
Definition cleanupListeners (chs : option Chan * option Chan * option Chan) : M unit :=
  removeIf navigationStarted chs.1.1;;
  removeIf domContentLoaded chs.1.2;;
  removeIf load chs.2.

(** [select { case <-ch: ...; case <-time.After(remainingTime()): ... }]:
    [true] when the event was received, [false] when the timer fired. *)
Definition awaitEvent (method : string) (ch : option Chan) (deadline : Z) : M bool :=
  fun w =>
    let ready :=
      match ch with
      | Some c => option_list ((fun a => (a.1, true)) <$> recvReady c (eventAt env method) w)
      | None => []
      end in
    let c := selectCase (now w + Z.max 0 (deadline - now w), false) ready
                        (pick env (now w)) in
    (c.2, setNow c.1 (if c.2 then from_option (fun c => takeFrom c w) w ch else w)).

Definition stageTimeout (timeout : Z) (stage : string) : string :=
  "timeout after " +:+ durationString timeout +:+ " waiting for " +:+ stage.

(** Wait for navigation events based on [waitBehavior], using the
    remaining time from the deadline.  The block is the same in
    [handleVibiumClick] and [handleVibiumType]; an error is the message
    the caller passes to [sendError] after cleaning up. *)
Definition waitNavigation (waitBehavior : string) (timeout deadline : Z)
    (chs : option Chan * option Chan * option Chan) : M (Result unit) :=
  if negb (waitBehavior =? "none")%string then
    started ← awaitEvent navigationStarted chs.1.1 deadline;
    if negb started then mret (Err (stageTimeout timeout "navigation to start"))
    else if (waitBehavior =? "waitForDomContentLoaded")%string then
      loaded ← awaitEvent domContentLoaded chs.1.2 deadline;
      mret (if loaded : bool then Ok tt else Err (stageTimeout timeout "DOMContentLoaded"))
    else if (waitBehavior =? "waitForLoad")%string then
      loaded ← awaitEvent load chs.2 deadline;
      mret (if loaded : bool then Ok tt else Err (stageTimeout timeout "page load"))
    else mret (Ok tt)
  else mret (Ok tt).

(** The tail shared by both handlers once the listeners exist: perform
    the action, wait, remove the listeners, answer. *)
Definition performAndWait (id : Z) (waitBehavior : string) (timeout deadline : Z)
    (params result : json) (chs : option Chan * option Chan * option Chan) : M unit :=
  r ← sendInternalCommand "input.performActions" params;
  match r with
  | Err e => cleanupListeners chs;; sendError id e
  | Ok _ =>
      waited ← waitNavigation waitBehavior timeout deadline chs;
      match waited with
      | Err e => cleanupListeners chs;; sendError id e
      | Ok _ => cleanupListeners chs;; sendSuccess id result
      end
  end.

(** *** Extension commands *)

Definition orDefault (s dflt : string) : string :=
  if (s =? "")%string then dflt else s.

(** [handleVibiumClick] handles the [vibium:click] command with
    actionability checks. *)
Definition handleVibiumClick (cmd : bidiCommand) : M unit :=
  let selector := paramString (cmdParams cmd) "selector" in
  let context := paramString (cmdParams cmd) "context" in
  let timeoutMs := paramFloat (cmdParams cmd) "timeout" in
  let waitBehavior := orDefault (paramString (cmdParams cmd) "waitBehavior") "waitForLoad" in
  let timeout := timeoutOf timeoutMs in
  t ← timeNow;
  let deadline := t + timeout in
  ctx ← resolveContext context;
  match ctx with
  | Err e => sendError (cmdID cmd) e
  | Ok context =>
      remaining ← remainingTime deadline;
      found ← waitForElement context selector remaining;
      match found with
      | Err e => sendError (cmdID cmd) e
      | Ok info =>
          chs ← registerListeners waitBehavior;
          performAndWait (cmdID cmd) waitBehavior timeout deadline
                         (clickParams context info)
                         (JObj [("clicked", JBool true)]) chs
      end
  end.

(** [handleVibiumType] handles the [vibium:type] command with
    actionability checks. *)
Definition handleVibiumType (cmd : bidiCommand) : M unit :=
  let selector := paramString (cmdParams cmd) "selector" in
  let context := paramString (cmdParams cmd) "context" in
  let text := paramString (cmdParams cmd) "text" in
  let timeoutMs := paramFloat (cmdParams cmd) "timeout" in
  let waitBehavior := orDefault (paramString (cmdParams cmd) "waitBehavior") "none" in
  let timeout := timeoutOf timeoutMs in
  t ← timeNow;
  let deadline := t + timeout in
  ctx ← resolveContext context;
  match ctx with
  | Err e => sendError (cmdID cmd) e
  | Ok context =>
      remaining ← remainingTime deadline;
      found ← waitForElement context selector remaining;
      match found with
      | Err e => sendError (cmdID cmd) e
      | Ok info =>
          (* Click to focus first *)
          focused ← sendInternalCommand "input.performActions" (clickParams context info);
          match focused with
          | Err e => sendError (cmdID cmd) e
          | Ok _ =>
              chs ← registerListeners waitBehavior;
              performAndWait (cmdID cmd) waitBehavior timeout deadline
                             (typeParams context text)
                             (JObj [("typed", JBool true)]) chs
          end
      end
  end.

(** *** The wait on navigationStarted alone, in the specification's words

    What the specification says of a command that waits for the start of a
    navigation: one listener, for [browsingContext.navigationStarted], is
    registered before the action is performed; after the action the
    command waits for that one event until the deadline; the listener is
    removed, and the command answers with success if the event came and
    with the timeout error if it did not.  These programs are written from
    that description with the primitives alone, to be compared with the
    handlers above. *)
Definition awaitNavigationStartedOnly (id timeout deadline : Z) (params result : json)
  : M unit :=
  ch ← addEventListener navigationStarted;
  r ← sendInternalCommand "input.performActions" params;
  match r with
  | Err e => removeEventListener navigationStarted ch;; sendError id e
  | Ok _ =>
      started ← awaitEvent navigationStarted (Some ch) deadline;
      removeEventListener navigationStarted ch;;
      if started : bool then sendSuccess id result
      else sendError id (stageTimeout timeout "navigation to start")
  end.

Definition clickAwaitingNavigationStarted (cmd : bidiCommand) : M unit :=
  let timeout := timeoutOf (paramFloat (cmdParams cmd) "timeout") in
  t ← timeNow;
  ctx ← resolveContext (paramString (cmdParams cmd) "context");
  match ctx with
  | Err e => sendError (cmdID cmd) e
  | Ok context =>
      remaining ← remainingTime (t + timeout);
      found ← waitForElement context (paramString (cmdParams cmd) "selector") remaining;
      match found with
      | Err e => sendError (cmdID cmd) e
      | Ok info =>
          awaitNavigationStartedOnly (cmdID cmd) timeout (t + timeout)
            (clickParams context info) (JObj [("clicked", JBool true)])
      end
  end.

Definition typeAwaitingNavigationStarted (cmd : bidiCommand) : M unit :=
  let timeout := timeoutOf (paramFloat (cmdParams cmd) "timeout") in
  t ← timeNow;
  ctx ← resolveContext (paramString (cmdParams cmd) "context");
  match ctx with
  | Err e => sendError (cmdID cmd) e
  | Ok context =>
      remaining ← remainingTime (t + timeout);
      found ← waitForElement context (paramString (cmdParams cmd) "selector") remaining;
      match found with
      | Err e => sendError (cmdID cmd) e
      | Ok info =>
          focused ← sendInternalCommand "input.performActions" (clickParams context info);
          match focused with
          | Err e => sendError (cmdID cmd) e
          | Ok _ =>
              awaitNavigationStartedOnly (cmdID cmd) timeout (t + timeout)
                (typeParams context (paramString (cmdParams cmd) "text"))
                (JObj [("typed", JBool true)])
          end
      end
  end.

(** [handleVibiumFind] handles the [vibium:find] command with
    wait-for-selector. *)
Definition handleVibiumFind (cmd : bidiCommand) : M unit :=
  let selector := paramString (cmdParams cmd) "selector" in
  let context := paramString (cmdParams cmd) "context" in
  let timeoutMs := paramFloat (cmdParams cmd) "timeout" in
  let timeout := timeoutOf timeoutMs in
  ctx ← resolveContext context;
  match ctx with
  | Err e => sendError (cmdID cmd) e
  | Ok context =>
      found ← waitForElement context selector timeout;
      match found with
      | Err e => sendError (cmdID cmd) e
      | Ok info =>
          sendSuccess (cmdID cmd)
            (JObj [("tag", JStr (infoTag info));
                   ("text", JStr (infoText info));
                   ("box", JObj [("x", JNum (boxX (infoBox info)));
                                 ("y", JNum (boxY (infoBox info)));
                                 ("width", JNum (boxWidth (infoBox info)));
                                 ("height", JNum (boxHeight (infoBox info)))])])
      end
  end.

(** [OnClientMessage] is called when a message is received from a
    client (whose session exists): it handles the custom [vibium:]
    extension commands or forwards to the browser. *)
Definition OnClientMessage (msg : RawMessage) : M unit :=
  fun w =>
    if closed (session w) then (tt, w)
    else
      match parseCommand msg with
      | None => act (BidiSend msg) w (* Can't parse, forward as-is *)
      | Some cmd =>
          if (cmdMethod cmd =? "vibium:click")%string then handleVibiumClick cmd w
          else if (cmdMethod cmd =? "vibium:type")%string then handleVibiumType cmd w
          else if (cmdMethod cmd =? "vibium:find")%string then handleVibiumFind cmd w
          else act (BidiSend msg) w
      end.

(** *** Routing browser frames *)

(** What the other tasks of the session (the handlers of client
    messages, the teardown) do where the routing task holds no lock:
    while it is blocked in [Receive], and before each send of a dispatch,
    which works on a copy of the listener list. *)
Record Others := {
  whileReceiving : World -> World;
  beforeSend : Chan -> World -> World;
}.

(** No other task acts. *)
Definition nobody : Others :=
  {| whileReceiving := fun w => w; beforeSend := fun _ w => w |}.

Inductive RouteResult : Type :=
| Continue (w : World)                 (* next iteration *)
| Blocked (ch : Chan) (w : World)      (* [ch <- msg] waits for room in [ch] *)
| Return (w : World)                   (* the routing task ends *)
| Panic (reason : string) (w : World). (* the routing task panics *)

Inductive Dispatch : Type :=
| Dispatched (w : World)
| SendOnClosed (ch : Chan) (w : World).

(** [select { case ch <- msg: default: }]: the send panics on a closed
    channel; a full channel is skipped. *)
Definition trySend (msg : RawMessage) (ch : Chan) (w : World) : option World :=
  if bool_decide (ch ∈ chanClosed w) then None
  else Some (if hasRoom ch w then setBuf ch (bufOf ch w ++ [msg]) w else w).

(** Dispatch to all listeners (non-blocking), over [listenersCopy], the
    copy of the list made under the lock. *)
Fixpoint dispatchListeners (msg : RawMessage) (listenersCopy : list Chan)
    (others : Others) (w : World) : Dispatch :=
  match listenersCopy with
  | [] => Dispatched w
  | ch :: rest =>
      let w1 := beforeSend others ch w in
      match trySend msg ch w1 with
      | Some w2 => dispatchListeners msg rest others w2
      | None => SendOnClosed ch w1
      end
  end.

(** Forward message to client. *)
Definition forwardToClient (msg : RawMessage) (sendFailed : bool) (w : World)
  : RouteResult :=
  if sendFailed then Return (emit (ClientSend msg) w)
  else Continue (emit (ClientSend msg) w).

(** The pending channel a frame is a response for:
    [parsed.ID != nil && *parsed.ID > 0] and the id is in
    [session.internalCmds]. *)
Definition internalChannel (parsed : parsedFrame) (w : World) : option Chan :=
  match frameID parsed with
  | Some id => if 0 <? id then internalCmds (session w) !! id else None
  | None => None
  end.

(** The body of the loop of [routeBrowserToClient] for one received
    frame; [sendFailed] tells whether [Client.Send] returns an error. *)
Definition routeMessage (msg : RawMessage) (sendFailed : bool) (others : Others)
    (w : World) : RouteResult :=
  match parseFrame msg with
  | Some parsed =>
      match internalChannel parsed w with
      | Some ch =>
          (* Route to internal handler *)
          if hasRoom ch w then Continue (setBuf ch (bufOf ch w ++ [msg]) w)
          else Blocked ch w
      | None =>
          match frameID parsed with
          | None =>
              if (frameMethod parsed =? "")%string then forwardToClient msg sendFailed w
              else
                match dispatchListeners msg (listenersOf (frameMethod parsed) w)
                                        others w with
                | Dispatched w1 => forwardToClient msg sendFailed w1
                | SendOnClosed _ w1 => Panic "send on closed channel" w1
                end
          | Some _ => forwardToClient msg sendFailed w
          end
      end
  | None => forwardToClient msg sendFailed w
  end.

(** One iteration: the stop check, which does not block, then [Receive],
    which does, then the body. *)
Definition routeIteration (received : Result RawMessage) (sendFailed : bool)
    (others : Others) (w : World) : RouteResult :=
  if stopChan (session w) then Return w
  else
    let w1 := whileReceiving others w in
    match received with
    | Err _ =>
        if closed (session w1) then Return w1
        else Return (emit ClientClose w1) (* Browser died, close the client *)
    | Ok msg => routeMessage msg sendFailed others w1
    end.

(** [routeBrowserToClient] reads messages from the browser and forwards
    them to the client, here over the frames [Receive] yields in turn. *)
Fixpoint routeBrowserToClient (received : list (Result RawMessage * bool * Others))
    (w : World) : RouteResult :=
  match received with
  | [] => Continue w
  | (r, sendFailed, others) :: rest =>
      match routeIteration r sendFailed others w with
      | Continue w' => routeBrowserToClient rest w'
      | stopped => stopped
      end
  end.

(** *** Teardown *)

Inductive Teardown : Type :=
| TornDown (w : World)        (* [closeSession] has returned *)
| Unsubscribing (w : World).  (* it waits in [SessionUnsubscribeByID] for the response *)

(** [closeSession] closes a browser session and cleans up resources.
    The unsubscribe is a command of the BiDi client, whose event loop the
    router never starts: [counter] is the command counter of package
    [bidi], [sendErr] what [Send] returns and [received] what [Receive]
    yields in turn to this call, which reads the connection that the
    routing task reads as well.  The counter is returned as the call
    leaves it. *)
Definition closeSession (counter : Z) (sendErr : option string)
    (received : list (Result RawMessage)) (w : World) : Teardown * Z :=
  let s := session w in
  if closed s then (TornDown w, counter)
  else
    let w1 := setSession (setClosed s) w in
    let finish (w2 : World) : World :=
      (* Signal the routing goroutine to stop *)
      let w3 := emit CloseStopChan (setSession (setStopped (session w2)) w2) in
      (* Close BiDi connection *)
      let w4 := if BidiConn s then emit BidiConnClose w3 else w3 in
      (* Close browser *)
      if LaunchResult s then emit LaunchResultClose w4 else w4 in
    (* Unsubscribe from navigation events before closing *)
    if negb (navigationSubscriptionID s =? "")%string && BidiClient s
    then
      let r := Bidi.SessionUnsubscribeByID unmarshalMessage unmarshalErrorData
                 unmarshalString [navigationSubscriptionID s] sendErr
                 {| Bidi.commandID := counter; Bidi.inbox := received;
                    Bidi.outbox := trace w1 |} in
      let w2 := setTrace (Bidi.outbox r.2) w1 in
      match r.1 with
      | Some _ => (TornDown (finish w2), Bidi.commandID r.2) (* an error is only logged *)
      | None => (Unsubscribing w2, Bidi.commandID r.2)
      end
    else (TornDown (finish w1), counter).

End Router.

(* ===================================================================== *)
(** ** Notions used by the statements                                     *)
(* ===================================================================== *)

Section Notions.
Variable parseCallResult : RawMessage -> option (string * string).
Variable parseElementInfo : string -> option elementInfo.
Variable env : Env.

(** The outcome of the [select] as a case, before it is turned into
    Go's [(response, error)]. *)
Definition internalSelect (id : Z) (ch : Chan) (w : World) : Z * InternalCase :=
  selectCase (now w + 60 * Second, CaseHardCap) (internalCases env id ch w)
             (pick env (now w)).

Definition resultOfCase (method : string) (c : InternalCase) : Result RawMessage :=
  match c with
  | CaseReply resp => Ok resp
  | CaseHardCap => Err ("timeout waiting for response to " +:+ method)
  | CaseStop => Err "session closed"
  end.

(** The case selected by a whole call: the reply channel is new, so a
    reply can only be the one the browser sends for this id. *)
Definition callSelect (w : World) : Z * InternalCase :=
  internalSelect (nextInternalID (session w)) (nextChan w)
    (registerInternal w).2.

(** No reply of the browser makes a poll find the element. *)
Definition neverFound : Prop :=
  forall id d resp,
    replyOf env id = Some (d, resp) ->
    pollResult parseCallResult parseElementInfo (Ok resp) = None.

End Notions.

(** Exactly one of three propositions holds. *)
Definition exactlyOne (P Q R : Prop) : Prop :=
  (P /\ ~ Q /\ ~ R) \/ (~ P /\ Q /\ ~ R) \/ (~ P /\ ~ Q /\ R).

Definition isBidiCommand (a : Action) : Prop :=
  match a with
  | BidiSendCommand _ _ _ => True
  | _ => False
  end.

(** [quiet w w']: between [w] and [w'] the router only sent commands of
    its own to the browser; the listener registry and the flags of the
    session are as before, channels were only added and time did not run
    backwards. *)
Record quiet (w w' : World) : Prop := {
  quiet_listeners : eventListeners (session w') = eventListeners (session w);
  quiet_stop : stopChan (session w') = stopChan (session w);
  quiet_closed : closed (session w') = closed (session w);
  quiet_chan : (nextChan w <= nextChan w')%nat;
  quiet_now : now w <= now w';
  quiet_trace : exists l, trace w' = trace w ++ l /\ Forall isBidiCommand l;
}.

(** A handler all of whose runs are related by [R]. *)
Definition preserves {A} (R : relation World) (m : M A) : Prop :=
  forall w, R w (m w).2.

(** The frame [sendError] marshals. *)
Definition errorFrame (id : Z) (message : string) : bidiResponse :=
  {| respID := id; respType := "error"; respResult := None;
     respError := Some {| errError := "timeout"; errMessage := message |} |}.


(** The listener registry as a map, and the effect of the registry
    operations on it. *)
Definition look (E : gmap string (list Chan)) (method : string) : list Chan :=
  default [] (E !! method).

Definition addL (method : string) (ch : Chan) (E : gmap string (list Chan))
  : gmap string (list Chan) :=
  <[method := look E method ++ [ch]]> E.

Definition removeL (method : string) (ch : Chan) (E : gmap string (list Chan))
  : gmap string (list Chan) :=
  match removeFirst ch (look E method) with
  | Some rest => <[method := rest]> E
  | None => E
  end.

Definition removeIfL (method : string) (ch : option Chan) (E : gmap string (list Chan))
  : gmap string (list Chan) :=
  match ch with
  | Some c => removeL method c E
  | None => E
  end.

Definition cleanupL (chs : option Chan * option Chan * option Chan)
    (E : gmap string (list Chan)) : gmap string (list Chan) :=
  removeIfL load chs.2
    (removeIfL domContentLoaded chs.1.2 (removeIfL navigationStarted chs.1.1 E)).

(** Every registered listener is a channel that has been made. *)
Definition registryFresh (w : World) : Prop :=
  forall method ch, ch ∈ listenersOf method w -> (ch < nextChan w)%nat.

(** [restores w w']: if the registry of [w] holds only channels made
    before, the registry of [w'] lists the same channels for every method
    and again holds only channels made before. *)
Definition restores (w w' : World) : Prop :=
  registryFresh w ->
  (forall method, listenersOf method w' = listenersOf method w)
  /\ (nextChan w <= nextChan w')%nat.

(** A frame for the client, if it is an error frame, carries the code
    "timeout". *)
Definition timeoutCoded (a : Action) : Prop :=
  match a with
  | ClientSendResponse resp =>
      respType resp = "error" ->
      exists message, resp = errorFrame (respID resp) message
  | ClientSend _ => False
  | _ => True
  end.

(** [extends P w w']: the trace of [w'] is that of [w] followed by
    actions that satisfy [P]. *)
Definition extends (P : Action -> Prop) (w w' : World) : Prop :=
  exists l, trace w' = trace w ++ l /\ Forall P l.

(** [noListenerLeft w w']: for every method the registry of [w'] lists
    the channels it listed in [w], and no channel made since [w] is
    registered in [w']. *)
Definition noListenerLeft (w w' : World) : Prop :=
  (forall method, listenersOf method w' = listenersOf method w)
  /\ (forall method ch, (nextChan w <= ch)%nat -> ch ∉ listenersOf method w').

(** The command with its [waitBehavior] parameter set to [value]. *)
Definition withWaitBehavior (value : string) (cmd : bidiCommand) : bidiCommand :=
  {| cmdID := cmdID cmd; cmdMethod := cmdMethod cmd;
     cmdParams := <["waitBehavior" := JStr value]> (cmdParams cmd) |}.

(** Reading a command back: a field of an object, the first item of an
    array, and the coordinates of the [pointerMove] that opens the first
    action source of [input.performActions] parameters. *)
Definition field (key : string) (v : json) : option json :=
  match v with
  | JObj fields => snd <$> List.find (fun kv => (kv.1 =? key)%string) fields
  | _ => None
  end.

Definition firstItem (v : json) : option json :=
  match v with
  | JArr (item :: _) => Some item
  | _ => None
  end.

Definition pointerMoveOf (params : json) : option (Z * Z) :=
  sources ← field "actions" params;
  source ← firstItem sources;
  actions ← field "actions" source;
  move ← firstItem actions;
  match field "type" move, field "x" move, field "y" move with
  | Some (JStr "pointerMove"), Some (JInt x), Some (JInt y) => Some (x, y)
  | _, _, _ => None
  end.

(** Truncation towards zero of a finite binary64 value: the floor of its
    magnitude with its sign. *)
Definition truncFloat (f : float) : Z :=
  match Prim2SF f with
  | S754_finite s m e =>
      let a := floatNum false m e / floatDen e in
      if s then - a else a
  | _ => 0
  end.

(** The click point as the specification words it: the centre rounded
    down. *)
Definition clicksAtFloor (context : string) (info : elementInfo) : Prop :=
  pointerMoveOf (clickParams context info)
  = Some (floorFloat (centerX info), floorFloat (centerY info)).

(** A wait that was woken by the stop signal returns the session-closed
    error. *)
Definition wakesAborted {A} (r : Result A) : Prop := r = Err "session closed".

(** No reply of the browser is there at the very instant of the send. *)
Definition noInstantReply (env : Env) : Prop :=
  forall id d resp, replyOf env id = Some (d, resp) -> 0 < d.

(** The world a routing step ends in. *)
Definition routeWorld (r : RouteResult) : World :=
  match r with
  | Continue w => w
  | Blocked _ w => w
  | Return w => w
  | Panic _ w => w
  end.

(** The browser frame [msg] reached the client in the step [r]. *)
Definition returnsToClient (msg : RawMessage) (before : World) (r : RouteResult) : Prop :=
  trace (routeWorld r) = trace before ++ [ClientSend msg].

(** Pending internal ids come from the counter, which starts at
    1,000,000. *)
Definition sessionWf (w : World) : Prop :=
  1000000 <= nextInternalID (session w)
  /\ forall id ch, internalCmds (session w) !! id = Some ch ->
                   1000000 <= id < nextInternalID (session w).

(** A method the router handles itself. *)
Definition isExtension (method : string) : bool :=
  (method =? "vibium:click")%string || (method =? "vibium:type")%string
  || (method =? "vibium:find")%string.

(** Whether [closeSession] unsubscribes: a subscription handle is stored
    and the session has its BiDi client. *)
Definition unsubscribes (s : BrowserSession) : bool :=
  negb (navigationSubscriptionID s =? "")%string && BidiClient s.

(** The unsubscribe command of a teardown, sent with the BiDi id [id]. *)
Definition unsubscribeCommand (id : Z) (s : BrowserSession) : Action :=
  BidiSendCommand id "session.unsubscribe"
    (Bidi.unsubscribeByIDParams [navigationSubscriptionID s]).

(** The actions of one teardown of a session that runs to its end, in
    the order of [closeSession]. *)
Definition teardownActions (id : Z) (s : BrowserSession) : list Action :=
  (if unsubscribes s then [unsubscribeCommand id s] else [])
  ++ [CloseStopChan]
  ++ (if BidiConn s then [BidiConnClose] else [])
  ++ (if LaunchResult s then [LaunchResultClose] else []).

(** The world a call of [closeSession] leaves, and whether the call has
    returned. *)
Definition tornWorld (t : Teardown) : World :=
  match t with
  | TornDown w => w
  | Unsubscribing w => w
  end.

Definition returned (t : Teardown) : bool :=
  match t with
  | TornDown _ => true
  | Unsubscribing _ => false
  end.

Definition isStopSignal (a : Action) : bool :=
  match a with CloseStopChan => true | _ => false end.

Definition isUnsubscribe (a : Action) : bool :=
  match a with
  | BidiSendCommand _ method _ => (method =? "session.unsubscribe")%string
  | _ => false
  end.

Definition isConnClose (a : Action) : bool :=
  match a with BidiConnClose => true | _ => false end.

Definition isBrowserClose (a : Action) : bool :=
  match a with LaunchResultClose => true | _ => false end.

(** Some action satisfying [p] comes before some action satisfying [q]. *)
Fixpoint precedes (p q : Action -> bool) (tr : list Action) : bool :=
  match tr with
  | [] => false
  | a :: rest => (p a && existsb q rest) || precedes p q rest
  end.

(** The teardown order as the specification words it: stop signal, then
    unsubscribe, then connection close, then browser close. *)
Definition stopFirstOrder (tr : list Action) : bool :=
  precedes isStopSignal isUnsubscribe tr
  && precedes isUnsubscribe isConnClose tr
  && precedes isConnClose isBrowserClose tr.

(** The order of the code: unsubscribe, then stop signal, then connection
    close, then browser close. *)
Definition unsubscribeFirstOrder (tr : list Action) : bool :=
  precedes isUnsubscribe isStopSignal tr
  && precedes isStopSignal isConnClose tr
  && precedes isConnClose isBrowserClose tr.

(** Further calls of [closeSession], each with the counter, the send
    error and the frames it meets. *)
Fixpoint closeAgain (unmarshalMessage : RawMessage -> Result Bidi.Message)
    (unmarshalErrorData : RawMessage -> Result Bidi.ErrorData)
    (unmarshalString : RawMessage -> Result string)
    (calls : list (Z * option string * list (Result RawMessage))) (w : World) : World :=
  match calls with
  | [] => w
  | (counter, sendErr, received) :: rest =>
      closeAgain unmarshalMessage unmarshalErrorData unmarshalString rest
        (tornWorld (closeSession unmarshalMessage unmarshalErrorData unmarshalString
                      counter sendErr received w).1)
  end.

(** Another task removes the listener [ch] of [method] after the routing
    task has copied the listener list and before it sends on [ch]. *)
Definition removesBeforeSend (method : string) (ch : Chan) : Others :=
  {| whileReceiving := fun w => w;
     beforeSend := fun c w =>
       if decide (c = ch) then (removeEventListener method ch w).2 else w |}.

(** The teardown runs, to its end or to where it waits for the response,
    while the routing task is blocked in [Receive]. *)
Definition closesWhileReceiving (unmarshalMessage : RawMessage -> Result Bidi.Message)
    (unmarshalErrorData : RawMessage -> Result Bidi.ErrorData)
    (unmarshalString : RawMessage -> Result string)
    (counter : Z) (sendErr : option string) (received : list (Result RawMessage))
  : Others :=
  {| whileReceiving := fun w =>
       tornWorld (closeSession unmarshalMessage unmarshalErrorData unmarshalString
                    counter sendErr received w).1;
     beforeSend := fun _ w => w |}.

(* ===================================================================== *)
(** ** A fixture browser                                                  *)
(* ===================================================================== *)

Module Fixture.

(** Frames are written with ['] where the wire has a double quote. *)
Fixpoint dq (s : string) : string :=
  match s with
  | EmptyString => EmptyString
  | String c rest =>
      String (if Ascii.eqb c "'"%char then ascii_of_nat 34 else c) (dq rest)
  end.

(** A decoder for the flat frames of the fixture: the text after the
    first occurrence of a key, a run of digits, a run up to the closing
    quote. *)
Fixpoint after (key s : string) : option string :=
  if String.prefix key s
  then Some (String.substring (String.length key) (String.length s - String.length key) s)
  else
    match s with
    | EmptyString => None
    | String _ rest => after key rest
    end.

Fixpoint digits (s : string) (acc : Z) (seen : bool) : option Z :=
  match s with
  | String c rest =>
      if byteIn 48 57 c then digits rest (acc * 10 + Z.of_nat (nat_of_ascii c - 48)) true
      else if seen then Some acc else None
  | EmptyString => if seen then Some acc else None
  end.

Fixpoint upToQuote (s : string) : string :=
  match s with
  | EmptyString => EmptyString
  | String c rest =>
      if Ascii.eqb c (ascii_of_nat 34) then EmptyString else String c (upToQuote rest)
  end.

Definition fieldInt (key msg : string) : option Z :=
  rest ← after (dq ("'" +:+ key +:+ "':")) msg; digits rest 0 false.

Definition fieldStr (key msg : string) : option string :=
  upToQuote <$> after (dq ("'" +:+ key +:+ "':'")) msg.

Definition parseFrame (msg : RawMessage) : option parsedFrame :=
  if String.prefix "{" msg
  then Some {| frameID := fieldInt "id" msg;
               frameMethod := default "" (fieldStr "method" msg) |}
  else None.

(** The client messages of the fixture carry no params. *)
Definition parseCommand (msg : RawMessage) : option bidiCommand :=
  if String.prefix "{" msg
  then Some {| cmdID := default 0 (fieldInt "id" msg);
               cmdMethod := default "" (fieldStr "method" msg);
               cmdParams := ∅ |}
  else None.

Definition parseGetTree (resp : RawMessage) : Result (list string) :=
  if String.prefix "{" resp
  then Ok (option_list (fieldStr "context" resp))
  else Err "invalid character looking for beginning of value".

(** The type and value of [result.result], which follows the realm. *)
Definition parseCallResult (resp : RawMessage) : option (string * string) :=
  if String.prefix "{" resp
  then
    let inner := default "" (after (dq "'realm':") resp) in
    Some (default "" (fieldStr "type" inner), default "" (fieldStr "value" inner))
  else None.

(** The page of the fixture has two elements; the polling script answers
    with the name of the one it found. *)
Definition submitButton : elementInfo :=
  {| infoTag := "button"; infoText := "Submit";
     infoBox := {| boxX := 100%float; boxY := 200.5%float;
                   boxWidth := 81%float; boxHeight := 30%float |} |}.

Definition offscreenLink : elementInfo :=
  {| infoTag := "a"; infoText := "Back";
     infoBox := {| boxX := (-10.5)%float; boxY := (-20.25)%float;
                   boxWidth := 4%float; boxHeight := 10%float |} |}.

Definition parseElementInfo (value : string) : option elementInfo :=
  if (value =? "submit")%string then Some submitButton
  else if (value =? "offscreen")%string then Some offscreenLink
  else None.

(** Replies of the browser, by command id. *)
Definition replyTable (table : list (Z * (Z * RawMessage))) (id : Z)
  : option (Z * RawMessage) :=
  snd <$> List.find (fun entry => entry.1 =? id) table.

Definition getTreeReply (id : Z) : RawMessage :=
  dq "{'id':" +:+ fmtInt id
    +:+ dq ",'type':'success','result':{'contexts':[{'context':'ctx-1','url':'about:blank'}]}}".

Definition noContextReply (id : Z) : RawMessage :=
  dq "{'id':" +:+ fmtInt id +:+ dq ",'type':'success','result':{'contexts':[]}}".

Definition nullReply (id : Z) : RawMessage :=
  dq "{'id':" +:+ fmtInt id
    +:+ dq ",'type':'success','result':{'realm':'r1','result':{'type':'null'}}}".

Definition foundReply (id : Z) (name : string) : RawMessage :=
  dq "{'id':" +:+ fmtInt id
    +:+ dq ",'type':'success','result':{'realm':'r1','result':{'type':'string','value':'"
    +:+ name +:+ dq "'}}}".

Definition doneReply (id : Z) : RawMessage :=
  dq "{'id':" +:+ fmtInt id +:+ dq ",'type':'success','result':{}}".

Definition eventFrame (method : string) : RawMessage :=
  dq "{'type':'event','method':'" +:+ method +:+ dq "','params':{'context':'ctx-1'}}".

Definition quietEnv (table : list (Z * (Z * RawMessage))) : Env :=
  {| sendFails := fun _ => None; replyOf := replyTable table; stopAt := None;
     eventAt := fun _ => None; pick := fun _ => 0%nat |}.

(** The selector matches nothing: every poll answers null. *)
Definition absentReplies : list (Z * (Z * RawMessage)) :=
  [(1000000, (5 * Millisecond, getTreeReply 1000000));
   (1000001, (5 * Millisecond, nullReply 1000001));
   (1000002, (5 * Millisecond, nullReply 1000002));
   (1000003, (5 * Millisecond, nullReply 1000003));
   (1000004, (5 * Millisecond, nullReply 1000004));
   (1000005, (5 * Millisecond, nullReply 1000005))].

Definition absentEnv : Env := quietEnv absentReplies.

(** The browser has no browsing context. *)
Definition noContextEnv : Env :=
  quietEnv [(1000000, (5 * Millisecond, noContextReply 1000000))].

(** The selector matches the link left of and above the viewport; the
    click is answered and starts a navigation. *)
Definition offscreenReplies : list (Z * (Z * RawMessage)) :=
  [(1000000, (5 * Millisecond, getTreeReply 1000000));
   (1000001, (5 * Millisecond, foundReply 1000001 "offscreen"));
   (1000002, (5 * Millisecond, doneReply 1000002));
   (1000003, (5 * Millisecond, doneReply 1000003))].

Definition offscreenEnv : Env :=
  {| sendFails := fun _ => None; replyOf := replyTable offscreenReplies; stopAt := None;
     eventAt := fun method => Some (40 * Millisecond, eventFrame method);
     pick := fun _ => 0%nat |}.

(** The same browser, when the navigation starts and the page never
    finishes loading. *)
Definition startedOnlyEnv : Env :=
  {| sendFails := fun _ => None; replyOf := replyTable offscreenReplies; stopAt := None;
     eventAt := fun method =>
       if (method =? navigationStarted)%string
       then Some (40 * Millisecond, eventFrame method) else None;
     pick := fun _ => 0%nat |}.

Definition findNope : bidiCommand :=
  {| cmdID := 1; cmdMethod := "vibium:find";
     cmdParams := <["selector" := JStr "#nope"]> (<["timeout" := JNum 300%float]> ∅) |}.

Definition clickBack (waitBehavior : string) : bidiCommand :=
  {| cmdID := 7; cmdMethod := "vibium:click";
     cmdParams := <["selector" := JStr "a.back"]>
                    (<["waitBehavior" := JStr waitBehavior]> ∅) |}.

Definition typeBack (waitBehavior : string) : bidiCommand :=
  {| cmdID := 9; cmdMethod := "vibium:type";
     cmdParams := <["selector" := JStr "a.back"]>
                    (<["text" := JStr "ab"]> (<["waitBehavior" := JStr waitBehavior]> ∅)) |}.

(** A session just connected, with its navigation subscription. *)
Definition connected : World := newWorld "sub-1" 0.

(** The same session while an internal command (id 1,000,000) is
    pending. *)
Definition pending : World := (registerInternal connected).2.

(** A client command that uses the id 1,000,000 itself, and the browser's
    response to it. *)
Definition clientGetTree : RawMessage :=
  dq "{'id':1000000,'method':'browsingContext.getTree','params':{}}".

Definition clientGetTreeResponse : RawMessage := getTreeReply 1000000.

(** A decoder of BiDi messages for the flat frames of the fixture: the
    result is the text from the result field on, the error is the error
    string. *)
Definition unmarshalMessage (frame : RawMessage) : Result Bidi.Message :=
  if String.prefix "{" frame
  then Ok {| Bidi.msgID := fieldInt "id" frame;
             Bidi.msgResult := default "" (after (dq "'result':") frame);
             Bidi.msgError := default "" (fieldStr "error" frame);
             Bidi.msgMethod := default "" (fieldStr "method" frame);
             Bidi.msgParams := default "" (after (dq "'params':") frame) |}
  else Err "invalid character looking for beginning of value".

Definition unmarshalErrorData (raw : RawMessage) : Result Bidi.ErrorData :=
  Err "cannot unmarshal string into Go value of type bidi.ErrorData".

Definition unmarshalString (raw : RawMessage) : Result string := Ok raw.

Definition unmarshalSubscription (raw : RawMessage) : Result string :=
  match fieldStr "subscription" raw with
  | Some subscription => Ok subscription
  | None => Err "unexpected end of JSON input"
  end.

(** The session after a teardown whose unsubscribe (BiDi command 2) was
    answered: the stop signal is closed. *)
Definition stopped : World :=
  tornWorld (closeSession unmarshalMessage unmarshalErrorData unmarshalString
               1 None [Ok (doneReply 2)] connected).1.

(** The same teardown when the response to the unsubscribe never reaches
    it: the call does not return. *)
Definition unanswered : Teardown :=
  (closeSession unmarshalMessage unmarshalErrorData unmarshalString
     1 None [Ok (eventFrame load)] connected).1.

End Fixture.

(* ===================================================================== *)
(** ** Further notions: what a handler run leaves behind                  *)
(* ===================================================================== *)

(** [pendingShrinks w w']: every internal id pending in [w'] was pending
    in [w] with the same channel. *)
Definition pendingShrinks (w w' : World) : Prop :=
  forall id ch, internalCmds (session w') !! id = Some ch ->
                internalCmds (session w) !! id = Some ch.

(** [sessionKept w w']: the flags, the handles and the subscription of
    the session are those of [w]. *)
Definition sessionKept (w w' : World) : Prop :=
  closed (session w') = closed (session w)
  /\ stopChan (session w') = stopChan (session w)
  /\ LaunchResult (session w') = LaunchResult (session w)
  /\ BidiConn (session w') = BidiConn (session w)
  /\ BidiClient (session w') = BidiClient (session w)
  /\ navigationSubscriptionID (session w') = navigationSubscriptionID (session w).

(** [untouched w w']: both of the above. *)
Definition untouched (w w' : World) : Prop :=
  pendingShrinks w w' /\ sessionKept w w'.

(** The run from [w] to [w'] answered the command [id]: it sent internal
    commands to the browser and then, as its last action, one response
    frame with that id to the client. *)
Definition answered (id : Z) (w w' : World) : Prop :=
  exists l resp,
    trace w' = trace w ++ l ++ [ClientSendResponse resp]
    /\ Forall isBidiCommand l
    /\ respID resp = id
    /\ ((respType resp = "success" /\ respError resp = None /\ is_Some (respResult resp))
        \/ exists message, resp = errorFrame id message).

(** The run took at most [d] nanoseconds and the clock did not go back. *)
Definition within (d : Z) (w w' : World) : Prop :=
  now w <= now w' <= now w + d.

(** [captured w msg]: the routing loop hands the browser frame [msg] to
    a pending internal command instead of the client. *)
Definition captured (parseFrame : RawMessage -> option parsedFrame) (w : World)
    (msg : RawMessage) : bool :=
  match parseFrame msg with
  | Some parsed =>
      match internalChannel parsed w with
      | Some _ => true
      | None => false
      end
  | None => false
  end.

(** Frames received without error whose forwarding to the client does
    not fail, while no other task of the session acts. *)
Definition receivedOk (frames : list RawMessage)
  : list (Result RawMessage * bool * Others) :=
  (fun msg => (Ok msg, false, nobody)) <$> frames.

(** [registryOk w]: every registered listener channel was made by the
    session, is open, and is registered once, under one method. *)
Definition registryOk (w : World) : Prop :=
  (forall ch, ch ∈ chanClosed w -> (ch < nextChan w)%nat)
  /\ (forall method ch, ch ∈ listenersOf method w ->
                        (ch < nextChan w)%nat /\ ch ∉ chanClosed w)
  /\ (forall method, NoDup (listenersOf method w))
  /\ (forall m1 m2 ch, ch ∈ listenersOf m1 w -> ch ∈ listenersOf m2 w -> m1 = m2).

(** [keeps I w w']: the step from [w] to [w'] keeps the invariant [I]. *)
Definition keeps (I : World -> Prop) (w w' : World) : Prop := I w -> I w'.

(** The ids of the commands the router itself sent to the browser. *)
Definition commandIDs (l : list Action) : list Z :=
  omap (fun a => match a with BidiSendCommand id _ _ => Some id | _ => None end) l.

(** [counts w w']: between [w] and [w'] the router's own commands took
    their ids from the counter, one after the other. *)
Definition counts (w w' : World) : Prop :=
  exists (l : list Action) (n : nat),
    trace w' = trace w ++ l
    /\ commandIDs l
       = (fun k => wrap64 (nextInternalID (session w) + Z.of_nat k)) <$> seq 0 n
    /\ nextInternalID (session w')
       = wrap64 (nextInternalID (session w) + Z.of_nat n).

(** The relation lifted through the handlers: ids in range stay in range
    and are counted. *)
Definition countsInRange (w w' : World) : Prop :=
  inInt64 (nextInternalID (session w)) ->
  inInt64 (nextInternalID (session w')) /\ counts w w'.

(** [refused id w w']: the run from [w] to [w'] ended by answering the
    command [id] with an error frame. *)
Definition refused (id : Z) (w w' : World) : Prop :=
  exists l message,
    trace w' = trace w ++ l ++ [ClientSendResponse (errorFrame id message)]
    /\ Forall isBidiCommand l.



(** A listener channel made between [w] and [w']: allocated in between,
    with the capacity [addEventListener] gives. *)
Definition listenerMade (w w' : World) (ch : Chan) : Prop :=
  (nextChan w <= ch < nextChan w')%nat /\ capOf ch w' = 10%nat.

(** [tidy w w']: channels keep their capacity and stay closed once they
    are closed; a registered channel stays registered or is closed; and a
    listener channel made in between is registered or closed. *)
Record tidy (w w' : World) : Prop := {
  tidy_next : (nextChan w <= nextChan w')%nat;
  tidy_cap : forall ch, (ch < nextChan w)%nat -> capOf ch w' = capOf ch w;
  tidy_closed : forall ch, ch ∈ chanClosed w -> ch ∈ chanClosed w';
  tidy_listed : forall method ch,
    ch ∈ listenersOf method w -> ch ∈ listenersOf method w' \/ ch ∈ chanClosed w';
  tidy_made : forall ch,
    listenerMade w w' ch -> ch ∈ chanClosed w' \/ exists method, ch ∈ listenersOf method w';
}.

(** [noLeak w w']: every listener channel made between [w] and [w'] is
    closed in [w'], and what was closed in [w] still is. *)
Definition noLeak (w w' : World) : Prop :=
  (forall ch, listenerMade w w' ch -> ch ∈ chanClosed w')
  /\ (forall ch, ch ∈ chanClosed w -> ch ∈ chanClosed w').

(* ===================================================================== *)
(** ** The router and its sessions ([Router] in [clicker/internal/proxy]) *)
(* ===================================================================== *)

Module Proxy.

(** [Router] manages browser sessions for connected clients: the map
    from client ID to session, each session with its own channels and
    the actions performed on its three peers.  [commandID] is the
    counter of package [bidi], which the router's BiDi clients share. *)
Record Router := {
  sessions : gmap Z World;
  headless : bool;
  commandID : Z;
}.

(** [NewRouter] creates a new router; [counter] is where the program
    has brought the counter of package [bidi], which [NewRouter] does not
    touch. *)
Definition NewRouter (headless : bool) (counter : Z) : Router :=
  {| sessions := ∅; headless := headless; commandID := counter |}.

(** What [browser.Launch], [bidi.Connect] and the new connection do
    while a client connects. *)
Record Dial := {
  launch : Result unit;                  (* browser.Launch *)
  connect : Result unit;                 (* bidi.Connect *)
  subscribeSendErr : option string;      (* conn.Send of session.subscribe *)
  received : list (Result RawMessage);   (* what conn.Receive yields in turn *)
  start : Z;                             (* the time *)
}.

Inductive Connect : Type :=
| Refused (toClient : list Action)              (* no session is stored *)
| Subscribing                                   (* waits for the response to session.subscribe *)
| Serving (rest : list (Result RawMessage)).    (* frames left for the routing task *)

(** [fmt.Sprintf(`{"error":{"code":-32000,"message":"<what>: %s"}}`, err)]. *)
Definition failureFrame (what err : string) : RawMessage :=
  let q := String (ascii_of_nat 34) EmptyString in
  "{" +:+ q +:+ "error" +:+ q +:+ ":{" +:+ q +:+ "code" +:+ q +:+ ":-32000,"
      +:+ q +:+ "message" +:+ q +:+ ":" +:+ q +:+ what +:+ ": " +:+ err +:+ q +:+ "}}".

Definition navigationEvents : list string :=
  ["browsingContext.navigationStarted";
   "browsingContext.domContentLoaded";
   "browsingContext.load"].

Definition setSessions (m : gmap Z World) (r : Router) : Router :=
  {| sessions := m; headless := headless r; commandID := commandID r |}.

Section Proxy.

Variable parseFrame : RawMessage -> option parsedFrame.
Variable parseCommand : RawMessage -> option bidiCommand.
Variable parseGetTree : RawMessage -> Result (list string).
Variable parseCallResult : RawMessage -> option (string * string).
Variable parseElementInfo : string -> option elementInfo.
Variable unmarshalMessage : RawMessage -> Result Bidi.Message.
Variable unmarshalErrorData : RawMessage -> Result Bidi.ErrorData.
Variable unmarshalString : RawMessage -> Result string.
Variable unmarshalSubscription : RawMessage -> Result string.

(** [OnClientConnect] is called when a new client connects.  It
    launches a browser and establishes a BiDi connection. *)
Definition OnClientConnect (client : Z) (d : Dial) (r : Router) : Connect * Router :=
  match launch d with
  | Err e => (Refused [ClientSend (failureFrame "Failed to launch browser" e); ClientClose], r)
  | Ok _ =>
      match connect d with
      | Err e =>
          (Refused [LaunchResultClose;
                    ClientSend (failureFrame "Failed to connect to browser" e);
                    ClientClose], r)
      | Ok _ =>
          (* Subscribe to navigation events for tracking page load states *)
          let sub :=
            Bidi.SessionSubscribe unmarshalMessage unmarshalErrorData unmarshalString
              unmarshalSubscription navigationEvents [] [] (subscribeSendErr d)
              {| Bidi.commandID := commandID r; Bidi.inbox := received d;
                 Bidi.outbox := [] |} in
          let counted :=
            {| sessions := sessions r; headless := headless r;
               commandID := Bidi.commandID sub.2 |} in
          match sub.1 with
          | None => (Subscribing, counted)
          | Some subscribeResult =>
              let subscription :=
                match subscribeResult with
                | Ok subscription => subscription
                | Err _ => ""  (* Warning: Failed to subscribe *)
                end in
              let w := newWorld subscription (start d) in
              let session :=
                {| session := session w; chanBuf := chanBuf w; chanCap := chanCap w;
                   chanClosed := chanClosed w; nextChan := nextChan w; now := now w;
                   trace := Bidi.outbox sub.2 |} in
              (Serving (Bidi.inbox sub.2),
               setSessions (<[client := session]> (sessions r)) counted)
          end
      end
  end.

(** [OnClientMessage] is called when a message is received from a
    client.  It handles custom [vibium:] extension commands or forwards
    to the browser; [env] is what the browser does meanwhile. *)
Definition OnClientMessage (env : Env) (client : Z) (msg : RawMessage) (r : Router)
  : Router :=
  match sessions r !! client with
  | None => r (* No session for client *)
  | Some w =>
      setSessions
        (<[client := (OnClientMessage parseCommand parseGetTree parseCallResult
                        parseElementInfo env msg w).2]> (sessions r)) r
  end.

(** [OnClientDisconnect] is called when a client disconnects.  It takes
    the session out of the map and closes it; [sendErr] and [received] are
    what the unsubscribe of [closeSession] meets on the connection.  The
    teardown is returned as the call leaves it. *)
Definition OnClientDisconnect (client : Z) (sendErr : option string)
    (received : list (Result RawMessage)) (r : Router) : option Teardown * Router :=
  match sessions r !! client with
  | None => (None, r)
  | Some w =>
      let t := closeSession unmarshalMessage unmarshalErrorData unmarshalString
                 (commandID r) sendErr received w in
      (Some t.1,
       {| sessions := delete client (sessions r); headless := headless r;
          commandID := t.2 |})
  end.

(** [CloseAll] closes all browser sessions.  [order] is the order in
    which [sessions.Range] visits the clients and [conn client] what the
    unsubscribe of that client's session meets on its connection.  A
    session is deleted once its [closeSession] has returned; a
    [closeSession] that does not return keeps [Range] from going on.  The
    teardowns are returned as they are left, by client. *)
Fixpoint CloseAll (order : list Z)
    (conn : Z -> option string * list (Result RawMessage)) (r : Router)
  : gmap Z Teardown * Router :=
  match order with
  | [] => (∅, r)
  | client :: rest =>
      match sessions r !! client with
      | None => CloseAll rest conn r
      | Some w =>
          let t := closeSession unmarshalMessage unmarshalErrorData unmarshalString
                     (commandID r) (conn client).1 (conn client).2 w in
          match t.1 with
          | TornDown w' =>
              let next :=
                CloseAll rest conn
                  {| sessions := delete client (sessions r); headless := headless r;
                     commandID := t.2 |} in
              (<[client := TornDown w']> next.1, next.2)
          | Unsubscribing w' =>
              ({[client := Unsubscribing w']},
               {| sessions := <[client := w']> (sessions r); headless := headless r;
                  commandID := t.2 |})
          end
      end
  end.

End Proxy.
End Proxy.

(* ===================================================================== *)
(** ** Scenarios for the router and the BiDi client                       *)
(* ===================================================================== *)

Module Scenario.

(** A session with two listeners for the load event. *)
Definition listening : World :=
  (addEventListener load (addEventListener load Fixture.connected).2).2.

Definition loadEvent : RawMessage := Fixture.eventFrame load.

(** A command that names its context, and a browser that finds the
    button at the first poll. *)
Definition findHere : bidiCommand :=
  {| cmdID := 3; cmdMethod := "vibium:find";
     cmdParams := <["selector" := JStr "#go"]> (<["context" := JStr "ctx-1"]> ∅) |}.

Definition hereEnv : Env :=
  Fixture.quietEnv [(1000000, (5 * Millisecond, Fixture.foundReply 1000000 "submit"))].

(** A browser that answers every command and never navigates. *)
Definition stillEnv : Env := Fixture.quietEnv Fixture.offscreenReplies.

Definition subscribeReply (id : Z) : RawMessage :=
  Fixture.dq "{'id':" +:+ fmtInt id
    +:+ Fixture.dq ",'type':'success','result':{'subscription':'sub-1'}}".

(** What the connection delivers while a client connects: an event, the
    response to the subscription, another event. *)
Definition delivered : list (Result RawMessage) :=
  [Ok loadEvent; Ok (subscribeReply 1); Ok (Fixture.eventFrame navigationStarted)].

Definition wire : Bidi.Wire :=
  {| Bidi.commandID := 0; Bidi.inbox := delivered; Bidi.outbox := [] |}.

Definition subscribed : Bidi.Wire :=
  {| Bidi.commandID := 1;
     Bidi.inbox := [Ok (Fixture.eventFrame navigationStarted)];
     Bidi.outbox := [BidiSendCommand 1 "session.status" (JObj [])] |}.

Definition replyMessage : Bidi.Message :=
  {| Bidi.msgID := Some 1;
     Bidi.msgResult := Fixture.dq "{'subscription':'sub-1'}}";
     Bidi.msgError := "";
     Bidi.msgMethod := "";
     Bidi.msgParams := "" |}.

(** The client whose command 1 waits for the event loop. *)
Definition waiting : Bidi.Client := (Bidi.registerCommand 1 None Bidi.NewClient).2.

(** The client after its event loop ended. *)
Definition ended : Bidi.Client :=
  {| Bidi.events := []; Bidi.eventsClosed := true; Bidi.pendingCommands := ∅;
     Bidi.responses := ∅; Bidi.eventLoopRunning := false |}.

Definition dial : Proxy.Dial :=
  {| Proxy.launch := Ok tt; Proxy.connect := Ok tt; Proxy.subscribeSendErr := None;
     Proxy.received := delivered; Proxy.start := 0 |}.

(** A router with the sessions of two clients, and connections of which
    the first never delivers the response to the unsubscribe. *)
Definition twoClients : Proxy.Router :=
  {| Proxy.sessions := <[1 := Fixture.connected]> (<[2 := Fixture.connected]> ∅);
     Proxy.headless := true; Proxy.commandID := 1 |}.

Definition silentFirst (client : Z) : option string * list (Result RawMessage) :=
  (None, if client =? 1 then [Ok loadEvent] else [Ok (Fixture.doneReply 3)]).

End Scenario.

(* ===================================================================== *)
(** ** Formatting examples                                                *)
(* ===================================================================== *)

Example durationString_300ms : durationString (300 * Millisecond) = "300ms".
Proof. reflexivity. Qed.

Example durationString_30s : durationString defaultTimeout = "30s".
Proof. reflexivity. Qed.

Example durationString_1500ms : durationString (1500 * Millisecond) = "1.5s".
Proof. reflexivity. Qed.

Example durationString_90min : durationString (5400 * Second + 250 * Millisecond) = "1h30m0.25s".
Proof. reflexivity. Qed.

Example runes_ab : runes "ab" = ["a"; "b"].
Proof. reflexivity. Qed.

(* ===================================================================== *)
(** ** Basic facts                                                        *)
(* ===================================================================== *)

Lemma bind_run {A B} (m : M A) (f : A -> M B) (w : World) :
  (m ≫= f) w = f (m w).1 (m w).2.
Proof. unfold mbind, M_bind. destruct (m w); reflexivity. Qed.

Lemma ret_run {A} (a : A) (w : World) : (mret a : M A) w = (a, w).
Proof. reflexivity. Qed.

Lemma wrap64_id (z : Z) : inInt64 z -> wrap64 z = z.
Proof.
  unfold inInt64, wrap64, minInt64, maxInt64. intros H.
  rewrite Z.mod_small by lia. lia.
Qed.

Section SelectFacts.
Context {A : Type}.
Implicit Types (dflt c : Z * A) (cases : list (Z * A)).

Lemma earliest_le dflt cases c :
  c ∈ dflt :: cases -> earliest dflt cases <= c.1.
Proof.
  unfold earliest. induction cases as [|x cases IH]; simpl; intros Hc.
  - apply list_elem_of_singleton in Hc. subst. lia.
  - rewrite !elem_of_cons in Hc. destruct Hc as [->|[->|Hc]].
    + assert (dflt ∈ dflt :: cases) as H by left. apply IH in H. lia.
    + lia.
    + assert (c ∈ dflt :: cases) as H by (right; exact Hc). apply IH in H. lia.
Qed.

Lemma earliest_attained dflt cases :
  exists c, c ∈ dflt :: cases /\ c.1 = earliest dflt cases.
Proof.
  unfold earliest. induction cases as [|x cases IH]; simpl.
  - exists dflt. split; [left | reflexivity].
  - destruct IH as (c & Hc & Hmin).
    destruct (Z.le_gt_cases x.1 (foldr (fun c acc => Z.min c.1 acc) dflt.1 cases)).
    + exists x. split; [right; left | lia].
    + exists c. split; [|lia].
      rewrite elem_of_cons in Hc. destruct Hc as [->|Hc]; [left | right; right; exact Hc].
Qed.

(** The chosen case is one of the cases and none is ready before it. *)
Lemma selectCase_spec dflt cases choice :
  selectCase dflt cases choice ∈ dflt :: cases
  /\ (selectCase dflt cases choice).1 = earliest dflt cases.
Proof.
  unfold selectCase.
  set (ready := filter (fun c => c.1 = earliest dflt cases) (dflt :: cases)).
  assert (ready <> []) as Hne.
  { destruct (earliest_attained dflt cases) as (c & Hc & Hmin).
    intros Hnil. assert (c ∈ ready) as Hin by (apply list_elem_of_filter; auto).
    rewrite Hnil in Hin. inversion Hin. }
  assert (nth (choice mod length ready) ready dflt ∈ ready) as Hin.
  { apply list_elem_of_In, nth_In. apply Nat.mod_upper_bound.
    destruct ready; [congruence | simpl; lia]. }
  apply list_elem_of_filter in Hin. destruct Hin; auto.
Qed.

Lemma selectCase_le dflt cases choice c :
  c ∈ dflt :: cases -> (selectCase dflt cases choice).1 <= c.1.
Proof.
  intros Hc. rewrite (proj2 (selectCase_spec dflt cases choice)).
  by apply earliest_le.
Qed.

Lemma selectCase_nil dflt choice : selectCase dflt [] choice = dflt.
Proof.
  pose proof (selectCase_spec dflt [] choice) as [H _].
  by apply list_elem_of_singleton in H.
Qed.
End SelectFacts.

Lemma recvReady_time ch arrival w a :
  recvReady ch arrival w = Some a -> now w <= a.1.
Proof.
  unfold recvReady. destruct (bufOf ch w); [|intros [= <-]; simpl; lia].
  destruct arrival; simpl; intros [= <-]; simpl; lia.
Qed.

(* ===================================================================== *)
(** ** The internal command issuer                                        *)
(* ===================================================================== *)

(** Run a handler one bind at a time. *)
Ltac run :=
  repeat first
    [ rewrite bind_run
    | progress cbn [mret M_ret fst snd act modify get timeNow timeSleep
                    session chanBuf chanCap chanClosed nextChan now trace
                    setSession setNow emit makeChan closeChan setBuf
                    LaunchResult BidiConn BidiClient closed stopChan internalCmds
                    nextInternalID navigationSubscriptionID eventListeners
                    setInternal setListeners setClosed setStopped] ].

Section IssuerFacts.
Variable env : Env.



Lemma awaitInternal_result id ch method w :
  (awaitInternal env id ch method w).1 = resultOfCase method (internalSelect env id ch w).2.
Proof.
  unfold awaitInternal, internalSelect.
  destruct (selectCase _ _ _) as [t []]; reflexivity.
Qed.

Lemma awaitInternal_now id ch method w :
  now (awaitInternal env id ch method w).2 = (internalSelect env id ch w).1.
Proof.
  unfold awaitInternal, internalSelect.
  destruct (selectCase _ _ _) as [t []]; reflexivity.
Qed.

Lemma internalCases_time id ch w c :
  c ∈ internalCases env id ch w -> now w <= c.1.
Proof.
  unfold internalCases. rewrite elem_of_app. intros [H|H].
  - destruct (recvReady _ _ _) as [a|] eqn:E; simpl in H; [|inversion H].
    apply list_elem_of_singleton in H. subst c. simpl.
    by apply recvReady_time in E.
  - unfold stopReady in H. destruct (stopChan (session w)); simpl in H.
    + apply list_elem_of_singleton in H. subst c. simpl. lia.
    + destruct (stopAt env); simpl in H; [|inversion H].
      apply list_elem_of_singleton in H. subst c. simpl. lia.
Qed.

Lemma internalSelect_time id ch w : now w <= (internalSelect env id ch w).1.
Proof.
  unfold internalSelect.
  destruct (selectCase_spec (now w + 60 * Second, CaseHardCap)
              (internalCases env id ch w) (pick env (now w))) as [Hin _].
  rewrite elem_of_cons in Hin. destruct Hin as [->|Hin].
  - simpl. unfold Second, Millisecond, Microsecond, Nanosecond. lia.
  - by apply internalCases_time in Hin.
Qed.

Lemma awaitInternal_frame id ch method w :
  session (awaitInternal env id ch method w).2 = session w
  /\ trace (awaitInternal env id ch method w).2 = trace w
  /\ nextChan (awaitInternal env id ch method w).2 = nextChan w.
Proof.
  unfold awaitInternal. destruct (selectCase _ _ _) as [t []]; simpl; auto.
  unfold takeFrom. destruct (bufOf ch w); auto.
Qed.

(** What a call of [sendInternalCommand] leaves behind. *)
Lemma sendInternalCommand_world method params w :
  let id := nextInternalID (session w) in
  let w' := (sendInternalCommand env method params w).2 in
  session w' = setInternal (delete id (internalCmds (session w)))
                           (wrap64 (id + 1)) (session w)
  /\ trace w' = trace w ++ [BidiSendCommand id method params]
  /\ nextChan w' = S (nextChan w)
  /\ now w <= now w'.
Proof.
  unfold sendInternalCommand, registerInternal, unregisterInternal. run.
  destruct (sendFails env (nextInternalID (session w))) as [e|].
  - run. rewrite delete_insert_eq. repeat split; lia.
  - run.
    match goal with |- context [awaitInternal env ?i ?c ?m ?x] =>
      pose proof (awaitInternal_frame i c m x) as (Hs & Ht & Hn);
      pose proof (awaitInternal_now i c m x) as Hnow;
      pose proof (internalSelect_time i c x) as Hle
    end.
    cbn [session trace nextChan now setSession emit] in *.
    rewrite Hs, Ht, Hn. run. rewrite delete_insert_eq. repeat split.
    rewrite Hnow. exact Hle.
Qed.


Lemma sendInternalCommand_result method params w :
  (sendInternalCommand env method params w).1 =
    match sendFails env (nextInternalID (session w)) with
    | Some e => Err e
    | None => resultOfCase method (callSelect env w).2
    end.
Proof.
  unfold sendInternalCommand, callSelect, registerInternal. run.
  destruct (sendFails env (nextInternalID (session w))) as [e|]; run; [reflexivity|].
  rewrite awaitInternal_result. reflexivity.
Qed.

Lemma sendInternalCommand_now method params w :
  now (sendInternalCommand env method params w).2 =
    match sendFails env (nextInternalID (session w)) with
    | Some e => now w
    | None => (callSelect env w).1
    end.
Proof.
  unfold sendInternalCommand, callSelect, registerInternal, unregisterInternal. run.
  destruct (sendFails env (nextInternalID (session w))) as [e|]; run; [reflexivity|].
  rewrite awaitInternal_now. reflexivity.
Qed.

(** The cases of a whole call, spelled out. *)
Lemma callSelect_cases w :
  let id := nextInternalID (session w) in
  let c := callSelect env w in
  match c.2 with
  | CaseReply resp =>
      exists d, replyOf env id = Some (d, resp) /\ c.1 = now w + Z.max 0 d
  | CaseHardCap => c.1 = now w + 60 * Second
  | CaseStop =>
      (stopChan (session w) = true /\ c.1 = now w)
      \/ (exists t, stopAt env = Some t /\ c.1 = Z.max (now w) t)
  end.
Proof.
  intros id c. subst c. unfold callSelect, internalSelect.
  match goal with |- context [selectCase ?d ?cs ?k] =>
    destruct (selectCase_spec d cs k) as [Hin _];
    destruct (selectCase d cs k) as [t c] end.
  rewrite elem_of_cons in Hin. destruct Hin as [[= -> ->]|Hin]; [reflexivity|].
  unfold internalCases, registerInternal in Hin.
  rewrite elem_of_app in Hin. destruct Hin as [Hin|Hin].
  - unfold recvReady, bufOf in Hin.
    cbn [chanBuf now makeChan setSession fst snd] in Hin.
    rewrite lookup_insert_eq in Hin. cbn [default] in Hin.
    fold id in Hin. destruct (replyOf env id) as [[d resp]|]; simpl in Hin.
    + apply list_elem_of_singleton in Hin. injection Hin as -> ->.
      cbn [snd fst]. exists d. split; [reflexivity|].
      pose proof (Z.le_max_l 0 d). lia.
    + inversion Hin.
  - unfold stopReady in Hin.
    cbn [session stopChan now setSession setInternal makeChan fst snd] in Hin.
    destruct (stopChan (session w)); simpl in Hin.
    + apply list_elem_of_singleton in Hin. injection Hin as -> ->. cbn. by left.
    + destruct (stopAt env) as [ts|]; simpl in Hin; [|inversion Hin].
      apply list_elem_of_singleton in Hin. injection Hin as -> ->. cbn.
      right. by exists ts.
Qed.


(** C6.  A call of [sendInternalCommand] whose send succeeds ends in
    exactly one of three ways: the browser's reply to its id is returned
    to the caller, the error of the 60-second cap is returned sixty
    seconds after the send, or the session-closed error is returned
    because the stop signal is closed; a failed send returns its error.
    On every one of these exits the id is no longer pending. *)
Theorem sendInternalCommand_outcomes method params w :
  let id := nextInternalID (session w) in
  let r := (sendInternalCommand env method params w).1 in
  let w' := (sendInternalCommand env method params w).2 in
  internalCmds (session w') !! id = None
  /\ match sendFails env id with
     | Some e => r = Err e
     | None =>
         exactlyOne
           (exists d resp, replyOf env id = Some (d, resp) /\ r = Ok resp
                           /\ now w' = now w + Z.max 0 d)
           (r = Err ("timeout waiting for response to " +:+ method)
            /\ now w' = now w + 60 * Second)
           (r = Err "session closed"
            /\ (stopChan (session w) = true
                \/ exists t, stopAt env = Some t /\ t <= now w'))
     end.
Proof.
  intros id r w'. subst r w'. split.
  - destruct (sendInternalCommand_world method params w) as (Hs & _).
    rewrite Hs. cbn [internalCmds setInternal]. apply lookup_delete_eq.
  - rewrite sendInternalCommand_result, sendInternalCommand_now.
    fold id. destruct (sendFails env id) as [e|]; [reflexivity|].
    pose proof (callSelect_cases w) as Hc. cbn zeta in Hc. fold id in Hc.
    destruct (callSelect env w) as [t c]. cbn [fst snd] in *.
    unfold exactlyOne. destruct c as [resp| |]; cbn [resultOfCase].
    + left. destruct Hc as (d & Hd & ->). split; [by exists d, resp|].
      split; intros [[=] _].
    + right; left. split; [intros (d & resp & _ & [=] & _)|].
      split; [by split|]. intros [[=] _].
    + right; right. split; [intros (d & resp & _ & [=] & _)|].
      split; [intros [[=] _]|]. split; [reflexivity|].
      destruct Hc as [[Hc _]|(ts & Hts & ->)]; [by left|].
      right. exists ts. split; [exact Hts|lia].
Qed.
End IssuerFacts.

(* ===================================================================== *)
(** ** Steps that stay inside the router                                  *)
(* ===================================================================== *)



#[global] Instance quiet_preorder : PreOrder quiet.
Proof.
  split.
  - intros w. split; try reflexivity. exists []. by rewrite app_nil_r.
  - intros w1 w2 w3 [] []. split; try congruence; try lia.
    destruct quiet_trace0 as (l1 & H1 & F1), quiet_trace1 as (l2 & H2 & F2).
    exists (l1 ++ l2). split; [by rewrite H2, H1, app_assoc | by apply Forall_app].
Qed.


Lemma preserves_ret {A} (R : relation World) `{!Reflexive R} (a : A) :
  preserves R (mret a).
Proof. intros w. reflexivity. Qed.

Lemma preserves_bind {A B} (R : relation World) `{!Transitive R}
    (m : M A) (f : A -> M B) :
  preserves R m -> (forall a, preserves R (f a)) -> preserves R (m ≫= f).
Proof. intros Hm Hf w. rewrite bind_run. etrans; [apply Hm | apply Hf]. Qed.

Section QuietFacts.
Variable parseGetTree : RawMessage -> Result (list string).
Variable parseCallResult : RawMessage -> option (string * string).
Variable parseElementInfo : string -> option elementInfo.
Variable env : Env.

Lemma quiet_sendInternalCommand method params :
  preserves quiet (sendInternalCommand env method params).
Proof.
  intros w. destruct (sendInternalCommand_world env method params w) as (Hs & Ht & Hn & Hnow).
  split; try (rewrite Hs; reflexivity); try lia.
  eexists. split; [exact Ht|]. by repeat constructor.
Qed.

Lemma quiet_timeNow : preserves quiet timeNow.
Proof. intros w. reflexivity. Qed.

Lemma quiet_timeSleep d : preserves quiet (timeSleep d).
Proof.
  intros w. split; run; try reflexivity; try lia.
  exists []. by rewrite app_nil_r.
Qed.

Lemma quiet_remainingTime deadline : preserves quiet (remainingTime deadline).
Proof. intros w. reflexivity. Qed.

Lemma quiet_getContext : preserves quiet (getContext parseGetTree env).
Proof.
  unfold getContext. apply preserves_bind; [apply _ | apply quiet_sendInternalCommand |].
  intros r. apply preserves_ret, _.
Qed.

Lemma quiet_resolveContext context :
  preserves quiet (resolveContext parseGetTree env context).
Proof.
  unfold resolveContext. destruct (context =? "")%string.
  - apply quiet_getContext.
  - apply preserves_ret, _.
Qed.

Lemma quiet_waitForElementLoop fuel context selector timeout deadline :
  preserves quiet
    (waitForElementLoop parseCallResult parseElementInfo env fuel context selector
                        timeout deadline).
Proof.
  induction fuel as [|fuel IH]; simpl.
  - apply preserves_ret, _.
  - apply preserves_bind; [apply _ | apply quiet_sendInternalCommand |].
    intros r. destruct (pollResult _ _ r); [apply preserves_ret, _|].
    apply preserves_bind; [apply _ | apply quiet_timeNow |].
    intros t. destruct (deadline <? t); [apply preserves_ret, _|].
    apply preserves_bind; [apply _ | apply quiet_timeSleep |]. intros _. exact IH.
Qed.

Lemma quiet_waitForElement context selector timeout :
  preserves quiet
    (waitForElement parseCallResult parseElementInfo env context selector timeout).
Proof.
  unfold waitForElement.
  apply preserves_bind; [apply _ | apply quiet_timeNow |]. intros t.
  apply preserves_bind; [apply _ | apply quiet_waitForElementLoop |]. intros r.
  apply preserves_ret, _.
Qed.

Lemma awaitEvent_time method ch deadline w :
  now w <= now (awaitEvent env method ch deadline w).2.
Proof.
  unfold awaitEvent. cbn [snd now setNow].
  match goal with |- context [selectCase ?d ?cs ?k] =>
    destruct (selectCase_spec d cs k) as [Hin _];
    destruct (selectCase d cs k) as [t got] end.
  cbn [fst]. rewrite elem_of_cons in Hin. destruct Hin as [[= -> _]|Hin]; [lia|].
  destruct ch as [c|]; [|inversion Hin].
  destruct (recvReady c (eventAt env method) w) as [a|] eqn:E; simpl in Hin;
    [|inversion Hin].
  apply list_elem_of_singleton in Hin. injection Hin as -> _.
  by apply recvReady_time in E.
Qed.

Lemma quiet_awaitEvent method ch deadline :
  preserves quiet (awaitEvent env method ch deadline).
Proof.
  intros w. pose proof (awaitEvent_time method ch deadline w) as Hnow.
  unfold awaitEvent in *. cbn [snd] in *.
  destruct (selectCase _ _ _) as [t got]. cbn [fst snd] in *.
  assert (forall w0, quiet w w0 -> now w <= t -> quiet w (setNow t w0)) as Hset.
  { intros w0 [] ?. split; run; auto. }
  destruct got, ch as [c|]; cbn [from_option]; apply Hset; try reflexivity;
    try (cbn [now setNow] in Hnow; exact Hnow).
  unfold takeFrom. destruct (bufOf c w); [reflexivity|].
  split; run; try reflexivity. exists []. by rewrite app_nil_r.
Qed.

Lemma quiet_waitNavigation waitBehavior timeout deadline chs :
  preserves quiet (waitNavigation env waitBehavior timeout deadline chs).
Proof.
  unfold waitNavigation. destruct (negb _); [|apply preserves_ret, _].
  apply preserves_bind; [apply _ | apply quiet_awaitEvent |]. intros started.
  destruct (negb started); [apply preserves_ret, _|].
  destruct (waitBehavior =? "waitForDomContentLoaded")%string.
  { apply preserves_bind; [apply _ | apply quiet_awaitEvent |]. intros ?.
    apply preserves_ret, _. }
  destruct (waitBehavior =? "waitForLoad")%string.
  { apply preserves_bind; [apply _ | apply quiet_awaitEvent |]. intros ?.
    apply preserves_ret, _. }
  apply preserves_ret, _.
Qed.
End QuietFacts.

(* ===================================================================== *)
(** ** The element polling loop                                           *)
(* ===================================================================== *)

Section PollingFacts.
Variable parseGetTree : RawMessage -> Result (list string).
Variable parseCallResult : RawMessage -> option (string * string).
Variable parseElementInfo : string -> option elementInfo.
Variable env : Env.

#[local] Abbreviation poll := (pollResult parseCallResult parseElementInfo).
#[local] Abbreviation loop := (waitForElementLoop parseCallResult parseElementInfo env).
#[local] Abbreviation wait := (waitForElement parseCallResult parseElementInfo env).

(** The three outcomes of a poll that count as "not yet". *)
Lemma pollResult_failed e : poll (Err e) = None.
Proof. reflexivity. Qed.

Lemma pollResult_unparseable resp :
  parseCallResult resp = None -> poll (Ok resp) = None.
Proof. intros H. unfold pollResult. by rewrite H. Qed.

Lemma pollResult_not_string resp type value :
  parseCallResult resp = Some (type, value) ->
  type <> "string" \/ value = "" ->
  poll (Ok resp) = None.
Proof.
  intros H Hnull. unfold pollResult. rewrite H.
  destruct Hnull as [Hty | ->].
  - apply String.eqb_neq in Hty. by rewrite Hty.
  - by rewrite andb_false_r.
Qed.

(** One iteration: poll, then return the element, or give up past the
    deadline, or sleep and go round again. *)
Lemma waitForElementLoop_step fuel context selector timeout deadline w :
  let polled := sendInternalCommand env "script.callFunction"
                  (findParams context selector) w in
  loop (S fuel) context selector timeout deadline w =
    match poll polled.1 with
    | Some info => (Some (Ok info), polled.2)
    | None =>
        if deadline <? now polled.2
        then (Some (Err (elementTimeout timeout selector)), polled.2)
        else loop fuel context selector timeout deadline
               (setNow (now polled.2 + interval) polled.2)
    end.
Proof.
  cbn zeta. cbn [waitForElementLoop]. run.
  destruct (poll _); [reflexivity|]. run.
  destruct (deadline <? _); [reflexivity|]. run. reflexivity.
Qed.

(** The loop fails only with the timeout message, and only once the
    clock is past the deadline; an element it returns came from a poll. *)
Lemma waitForElementLoop_result fuel context selector timeout deadline w :
  match (loop fuel context selector timeout deadline w).1 with
  | None => True
  | Some (Ok info) => exists r, poll r = Some info
  | Some (Err e) =>
      e = elementTimeout timeout selector
      /\ deadline < now (loop fuel context selector timeout deadline w).2
  end.
Proof.
  revert w. induction fuel as [|fuel IH]; intros w; [exact I|].
  rewrite waitForElementLoop_step. cbn zeta.
  destruct (poll _) eqn:Hp; [cbn; eauto|].
  destruct (deadline <? _) eqn:Hd; [|apply IH].
  cbn. split; [reflexivity | lia].
Qed.

(** Enough fuel: the loop ends by itself. *)
Lemma waitForElementLoop_total fuel context selector timeout deadline w :
  deadline < now w + Z.of_nat fuel * interval ->
  is_Some (loop (S fuel) context selector timeout deadline w).1.
Proof.
  revert w. induction fuel as [|fuel IH]; intros w Hd;
    rewrite waitForElementLoop_step; cbn zeta;
    pose proof (quiet_now _ _ (quiet_sendInternalCommand env "script.callFunction"
                                 (findParams context selector) w)) as Hnow;
    destruct (poll _); try (cbn; eauto; fail);
    destruct (deadline <? _) eqn:Hlt; try (cbn; eauto; fail).
  - lia.
  - apply IH. cbn [now setNow]. lia.
Qed.

Lemma pollFuel_enough timeout t :
  t + timeout < t + Z.of_nat (pollFuel timeout - 1) * interval.
Proof.
  unfold pollFuel. replace (Z.to_nat (timeout / interval) + 2 - 1)%nat
    with (S (Z.to_nat (timeout / interval))) by lia.
  assert (0 < interval) as Hi by (unfold interval, Millisecond, Microsecond, Nanosecond; lia).
  destruct (Z.le_gt_cases 0 timeout) as [Hpos|Hneg].
  - pose proof (Z.div_pos timeout interval Hpos Hi).
    rewrite Nat2Z.inj_succ, Z2Nat.id by assumption.
    pose proof (Z.mod_pos_bound timeout interval Hi).
    pose proof (Z.div_mod timeout interval). lia.
  - assert (timeout / interval < 0) by (apply Z.div_lt_upper_bound; lia).
    rewrite Z2Nat.nonpos by lia. lia.
Qed.

(** [waitForElement] returns the element of some poll, or the timeout
    error once the clock has passed the deadline. *)
Lemma waitForElement_result context selector timeout w :
  match (wait context selector timeout w).1 with
  | Ok info => exists r, poll r = Some info
  | Err e =>
      e = elementTimeout timeout selector
      /\ now w + timeout < now (wait context selector timeout w).2
  end.
Proof.
  unfold waitForElement. run.
  pose proof (waitForElementLoop_result (pollFuel timeout) context selector timeout
                (now w + timeout) w) as Hr.
  pose proof (waitForElementLoop_total (pollFuel timeout - 1) context selector timeout
                (now w + timeout) w (pollFuel_enough timeout (now w))) as [r Hs].
  replace (S (pollFuel timeout - 1)) with (pollFuel timeout) in Hs
    by (unfold pollFuel; lia).
  rewrite Hs in *. cbn [default]. exact Hr.
Qed.


Lemma neverFound_poll method params w :
    neverFound parseCallResult parseElementInfo env -> poll (sendInternalCommand env method params w).1 = None.
Proof.
  intros Hnf. rewrite sendInternalCommand_result.
  destruct (sendFails env _); [reflexivity|].
  pose proof (callSelect_cases env w) as Hc. cbn zeta in Hc.
  destruct (callSelect env w) as [t []]; cbn [snd resultOfCase] in *; try reflexivity.
  destruct Hc as (d & Hd & _). by eapply Hnf.
Qed.

Lemma neverFound_waitForElement context selector timeout w :
    neverFound parseCallResult parseElementInfo env ->
  (wait context selector timeout w).1 = Err (elementTimeout timeout selector).
Proof.
  intros Hnf. pose proof (waitForElement_result context selector timeout w) as Hr.
  destruct (wait context selector timeout w).1 as [info|e] eqn:E.
  - exfalso. revert E. unfold waitForElement. run.
    assert (forall fuel w0, (loop fuel context selector timeout
                               (now w + timeout) w0).1 <> Some (Ok info)) as Hloop.
    { induction fuel as [|fuel IH]; intros w0; [discriminate|].
      rewrite waitForElementLoop_step. cbn zeta. rewrite neverFound_poll by assumption.
      destruct (_ <? _); [discriminate | apply IH]. }
    specialize (Hloop (pollFuel timeout) w).
    destruct (loop _ _ _ _ _ _).1 as [[]|]; cbn; congruence.
  - by destruct Hr as [-> _].
Qed.
End PollingFacts.

(* ===================================================================== *)
(** ** Error frames and [vibium:find] on an absent element                *)
(* ===================================================================== *)

Lemma sendError_run id err w :
  sendError id err w = (tt, emit (ClientSendResponse (errorFrame id err)) w).
Proof. reflexivity. Qed.

Section FindFacts.
Variable parseGetTree : RawMessage -> Result (list string).
Variable parseCallResult : RawMessage -> option (string * string).
Variable parseElementInfo : string -> option elementInfo.
Variable env : Env.

#[local] Abbreviation find := (handleVibiumFind parseGetTree parseCallResult parseElementInfo env).

(** C7.  In the polling loop a failed internal call, an unparseable
    script result and a result that is not a non-empty string (the null
    of an absent element) are all "not yet"; the loop fails only with the
    message "timeout after <timeout> waiting for '<selector>': element not
    found", and only once the clock is past its deadline.  So when no
    reply of the browser ever shows the element, [vibium:find] answers
    with exactly one frame, the error frame with code "timeout" and that
    message; for timeout 300 and selector #nope the message reads
    "timeout after 300ms waiting for '#nope': element not found". *)
Theorem find_absent_times_out (cmd : bidiCommand) (w : World) (context : string) :
  neverFound parseCallResult parseElementInfo env ->
  (resolveContext parseGetTree env (paramString (cmdParams cmd) "context") w).1
    = Ok context ->
  let selector := paramString (cmdParams cmd) "selector" in
  let timeout := timeoutOf (paramFloat (cmdParams cmd) "timeout") in
  (exists l,
      trace (find cmd w).2 =
        trace w ++ l ++
          [ClientSendResponse
             (errorFrame (cmdID cmd)
                ("timeout after " +:+ durationString timeout +:+ " waiting for '"
                   +:+ selector +:+ "': element not found"))]
      /\ Forall isBidiCommand l)
  /\ (forall e, pollResult parseCallResult parseElementInfo (Err e) = None)
  /\ (forall resp, parseCallResult resp = None ->
                   pollResult parseCallResult parseElementInfo (Ok resp) = None)
  /\ (forall resp type value,
         parseCallResult resp = Some (type, value) ->
         type <> "string" \/ value = "" ->
         pollResult parseCallResult parseElementInfo (Ok resp) = None)
  /\ (forall ctx sel t w0,
         match (waitForElement parseCallResult parseElementInfo env ctx sel t w0).1 with
         | Ok info => exists r, pollResult parseCallResult parseElementInfo r = Some info
         | Err e =>
             e = "timeout after " +:+ durationString t +:+ " waiting for '" +:+ sel
                   +:+ "': element not found"
             /\ now w0 + t
                < now (waitForElement parseCallResult parseElementInfo env ctx sel t w0).2
         end)
  /\ "timeout after " +:+ durationString (timeoutOf 300%float) +:+ " waiting for '"
       +:+ "#nope" +:+ "': element not found"
     = "timeout after 300ms waiting for '#nope': element not found".
Proof.
  intros Hnf Hctx selector timeout. repeat split.
  - unfold handleVibiumFind. run. rewrite Hctx. run.
    fold selector timeout.
    rewrite (neverFound_waitForElement parseCallResult parseElementInfo env
               context selector timeout _ Hnf).
    rewrite sendError_run. cbn [snd trace emit].
    pose proof (quiet_resolveContext parseGetTree env
                  (paramString (cmdParams cmd) "context") w) as Q1.
    pose proof (quiet_waitForElement parseCallResult parseElementInfo env context selector
                  timeout
                  (resolveContext parseGetTree env
                     (paramString (cmdParams cmd) "context") w).2) as Q2.
    destruct (quiet_trace _ _ (transitivity Q1 Q2)) as (l & Hl & Fl).
    exists l. rewrite Hl. split; [by rewrite <- app_assoc | exact Fl].
  - intros resp. apply pollResult_unparseable.
  - intros resp type value. apply pollResult_not_string.
  - intros ctx sel t w0.
    apply (waitForElement_result parseCallResult parseElementInfo env ctx sel t w0).
Qed.
End FindFacts.

(* ===================================================================== *)
(** ** The listener registry                                              *)
(* ===================================================================== *)

Lemma look_addL method ch E m :
  look (addL method ch E) m =
    if decide (method = m) then look E method ++ [ch] else look E m.
Proof.
  unfold addL, look at 1. case_decide as H.
  - subst. by rewrite lookup_insert_eq.
  - by rewrite lookup_insert_ne.
Qed.

Lemma look_removeL method ch E m :
  look (removeL method ch E) m =
    if decide (method = m)
    then default (look E method) (removeFirst ch (look E method))
    else look E m.
Proof.
  unfold removeL. destruct (removeFirst ch (look E method)) as [rest|] eqn:Hr.
  - unfold look at 1. case_decide as H.
    + subst. by rewrite lookup_insert_eq.
    + by rewrite lookup_insert_ne.
  - case_decide; by subst.
Qed.

Lemma removeFirst_app_fresh ch (l : list Chan) :
  ch ∉ l -> removeFirst ch (l ++ [ch]) = Some l.
Proof.
  induction l as [|x l IH]; simpl; intros Hnin.
  - by rewrite decide_True.
  - apply not_elem_of_cons in Hnin as [Hne Hnin].
    rewrite decide_False by congruence. by rewrite IH.
Qed.

Lemma addEventListener_run method w :
  (addEventListener method w).1 = nextChan w
  /\ eventListeners (session (addEventListener method w).2)
     = addL method (nextChan w) (eventListeners (session w))
  /\ nextChan (addEventListener method w).2 = S (nextChan w)
  /\ trace (addEventListener method w).2 = trace w.
Proof. unfold addEventListener. run. auto. Qed.

Lemma removeEventListener_run method ch w :
  eventListeners (session (removeEventListener method ch w).2)
    = removeL method ch (eventListeners (session w))
  /\ nextChan (removeEventListener method ch w).2 = nextChan w
  /\ trace (removeEventListener method ch w).2 = trace w.
Proof.
  unfold removeEventListener, removeL, listenersOf, look.
  destruct (removeFirst _ _); run; auto.
Qed.

Lemma cleanupListeners_run chs w :
  eventListeners (session (cleanupListeners chs w).2)
    = cleanupL chs (eventListeners (session w))
  /\ nextChan (cleanupListeners chs w).2 = nextChan w
  /\ trace (cleanupListeners chs w).2 = trace w.
Proof.
  destruct chs as [[c1 c2] c3]. unfold cleanupListeners, cleanupL, removeIf, removeIfL. run.
  destruct c1 as [c1|], c2 as [c2|], c3 as [c3|]; run;
    repeat match goal with
      | |- context [removeEventListener ?m ?c ?x] =>
          let H1 := fresh in let H2 := fresh in let H3 := fresh in
          destruct (removeEventListener_run m c x) as (H1 & H2 & H3);
          rewrite ?H1, ?H2, ?H3; clear H1 H2 H3
      end; auto.
Qed.

Lemma registerListeners_run waitBehavior w :
  let b1 := negb (waitBehavior =? "none")%string in
  let b2 := (waitBehavior =? "waitForDomContentLoaded")%string in
  let b3 := (waitBehavior =? "waitForLoad")%string in
  let n1 := nextChan w in
  let n2 := if b1 then S n1 else n1 in
  let n3 := if b2 then S n2 else n2 in
  let E1 := if b1 then addL navigationStarted n1 (eventListeners (session w))
            else eventListeners (session w) in
  let E2 := if b2 then addL domContentLoaded n2 E1 else E1 in
  let E3 := if b3 then addL load n3 E2 else E2 in
  (registerListeners waitBehavior w).1 =
    (if b1 then Some n1 else None, if b2 then Some n2 else None,
     if b3 then Some n3 else None)
  /\ eventListeners (session (registerListeners waitBehavior w).2) = E3
  /\ nextChan (registerListeners waitBehavior w).2 = (if b3 then S n3 else n3)
  /\ trace (registerListeners waitBehavior w).2 = trace w.
Proof.
  cbn zeta. unfold registerListeners, listenIf.
  destruct (negb _), (waitBehavior =? "waitForDomContentLoaded")%string,
    (waitBehavior =? "waitForLoad")%string; run;
    repeat match goal with
      | |- context [addEventListener ?m ?x] =>
          let H0 := fresh in let H1 := fresh in let H2 := fresh in let H3 := fresh in
          destruct (addEventListener_run m x) as (H0 & H1 & H2 & H3);
          rewrite ?H0, ?H1, ?H2, ?H3; clear H0 H1 H2 H3
      end; auto.
Qed.

(** Removing the listeners a command registered gives back the lists it
    started from. *)
Lemma cleanupL_registered (b1 b2 b3 : bool) (n : Chan) (E : gmap string (list Chan)) m :
  (forall method ch, ch ∈ look E method -> (ch < n)%nat) ->
  let n2 := if b1 then S n else n in
  let n3 := if b2 then S n2 else n2 in
  let E1 := if b1 then addL navigationStarted n E else E in
  let E2 := if b2 then addL domContentLoaded n2 E1 else E1 in
  let E3 := if b3 then addL load n3 E2 else E2 in
  look (cleanupL (if b1 then Some n else None, if b2 then Some n2 else None,
                  if b3 then Some n3 else None) E3) m = look E m.
Proof.
  intros Hfresh. cbn zeta.
  assert (forall method k, (n <= k)%nat -> k ∉ look E method) as Hnin.
  { intros method k Hk Hin. apply Hfresh in Hin. lia. }
  unfold cleanupL, removeIfL. cbn [fst snd].
  destruct b1, b2, b3;
    rewrite ?look_removeL, ?look_addL;
    unfold navigationStarted, domContentLoaded, load in *;
    repeat (case_decide; try congruence; subst);
    rewrite ?look_removeL, ?look_addL;
    repeat (case_decide; try congruence; subst);
    rewrite ?removeFirst_app_fresh by (apply Hnin; lia);
    try reflexivity.
Qed.

(* ===================================================================== *)
(** ** What the extension commands leave behind                           *)
(* ===================================================================== *)

#[global] Instance restores_preorder : PreOrder restores.
Proof.
  split.
  - intros w _. split; auto.
  - intros w1 w2 w3 H12 H23 F1. destruct (H12 F1) as [L12 N12].
    assert (registryFresh w2) as F2.
    { intros method ch Hin. rewrite L12 in Hin. apply F1 in Hin. lia. }
    destruct (H23 F2) as [L23 N23]. split; [|lia].
    intros method. by rewrite L23, L12.
Qed.

#[global] Instance extends_preorder (P : Action -> Prop) : PreOrder (extends P).
Proof.
  split.
  - intros w. exists []. by rewrite app_nil_r.
  - intros w1 w2 w3 (l1 & H1 & F1) (l2 & H2 & F2).
    exists (l1 ++ l2). split; [by rewrite H2, H1, app_assoc | by apply Forall_app].
Qed.

Lemma quiet_restores w w' : quiet w w' -> restores w w'.
Proof.
  intros [] _. split; [|assumption].
  intros method. unfold listenersOf. by rewrite quiet_listeners0.
Qed.

Lemma quiet_extends w w' : quiet w w' -> extends timeoutCoded w w'.
Proof.
  intros []. destruct quiet_trace0 as (l & Hl & Fl). exists l. split; [assumption|].
  eapply Forall_impl; [exact Fl|]. by intros [].
Qed.

Lemma preserves_weaken {A} (R R' : relation World) (m : M A) :
  (forall w w', R w w' -> R' w w') -> preserves R m -> preserves R' m.
Proof. intros HR Hm w. apply HR, Hm. Qed.

Lemma sendSuccess_run id result w :
  sendSuccess id result w =
    (tt, emit (ClientSendResponse
                 {| respID := id; respType := "success"; respResult := Some result;
                    respError := None |}) w).
Proof. reflexivity. Qed.

Lemma restores_emit a w : restores w (emit a w).
Proof. intros _. split; auto. Qed.

Lemma extends_emit (P : Action -> Prop) a w : P a -> extends P w (emit a w).
Proof. intros Ha. exists [a]. split; [reflexivity | by constructor]. Qed.

Lemma timeoutCoded_error id err : timeoutCoded (ClientSendResponse (errorFrame id err)).
Proof. intros _. by exists err. Qed.

Lemma timeoutCoded_success id result :
  timeoutCoded (ClientSendResponse
                  {| respID := id; respType := "success"; respResult := Some result;
                     respError := None |}).
Proof. intros [=]. Qed.

Section HandlerFacts.
Variable parseGetTree : RawMessage -> Result (list string).
Variable parseCallResult : RawMessage -> option (string * string).
Variable parseElementInfo : string -> option elementInfo.
Variable env : Env.

#[local] Abbreviation click := (handleVibiumClick parseGetTree parseCallResult parseElementInfo env).
#[local] Abbreviation type := (handleVibiumType parseGetTree parseCallResult parseElementInfo env).
#[local] Abbreviation find := (handleVibiumFind parseGetTree parseCallResult parseElementInfo env).

(** The tail of [click] and [type]: whatever happens, the listeners are
    removed before the answer is sent. *)
Lemma performAndWait_run id waitBehavior timeout deadline params result chs w :
  let w' := (performAndWait env id waitBehavior timeout deadline params result chs w).2 in
  eventListeners (session w') = cleanupL chs (eventListeners (session w))
  /\ (nextChan w <= nextChan w')%nat
  /\ extends timeoutCoded w w'.
Proof.
  cbn zeta. unfold performAndWait. run.
  pose proof (quiet_sendInternalCommand env "input.performActions" params w) as Q1.
  destruct (sendInternalCommand env "input.performActions" params w) as [r w1].
  cbn [fst snd] in *.
  assert (forall w2 a, quiet w w2 -> timeoutCoded a ->
            let w' := emit a (cleanupListeners chs w2).2 in
            eventListeners (session w') = cleanupL chs (eventListeners (session w))
            /\ (nextChan w <= nextChan w')%nat /\ extends timeoutCoded w w') as Hend.
  { intros w2 a Q Ha. cbn zeta.
    destruct (cleanupListeners_run chs w2) as (HE & Hn & Ht).
    pose proof (quiet_extends _ _ Q) as (l & Hl & Fl). destruct Q.
    cbn [session nextChan emit]. rewrite HE, Hn, quiet_listeners0.
    repeat split; [assumption|].
    exists (l ++ [a]). cbn [trace emit]. rewrite Ht, Hl, app_assoc.
    split; [reflexivity|]. apply Forall_app. split; [assumption | by constructor]. }
  destruct r as [resp|e]; run.
  - pose proof (quiet_waitNavigation env waitBehavior timeout deadline chs w1) as Q2.
    destruct (waitNavigation env waitBehavior timeout deadline chs w1) as [[[]|e] w2];
      cbn [fst snd] in *; run.
    + rewrite sendSuccess_run. cbn [snd].
      apply Hend; [by etrans | apply timeoutCoded_success].
    + rewrite sendError_run. cbn [snd].
      apply Hend; [by etrans | apply timeoutCoded_error].
  - rewrite sendError_run. cbn [snd]. apply Hend; [assumption | apply timeoutCoded_error].
Qed.

(** Registration followed by the tail gives the registry back. *)
Lemma restores_registered id waitBehavior timeout deadline params result :
  preserves restores
    (registerListeners waitBehavior
       ≫= performAndWait env id waitBehavior timeout deadline params result).
Proof.
  intros w F. rewrite bind_run.
  destruct (registerListeners_run waitBehavior w) as (Hchs & HE & Hn & _).
  cbn zeta in *.
  destruct (performAndWait_run id waitBehavior timeout deadline params result
              (registerListeners waitBehavior w).1 (registerListeners waitBehavior w).2)
    as (HE' & Hn' & _).
  cbn zeta in *. split.
  - intros method. unfold listenersOf at 1. rewrite HE', HE, Hchs.
    apply (cleanupL_registered _ _ _ (nextChan w) (eventListeners (session w)) method).
    exact F.
  - rewrite Hn in Hn'.
    destruct (waitBehavior =? "waitForLoad")%string,
      (waitBehavior =? "waitForDomContentLoaded")%string, (negb _); lia.
Qed.

Lemma extends_registered id waitBehavior timeout deadline params result :
  preserves (extends timeoutCoded)
    (registerListeners waitBehavior
       ≫= performAndWait env id waitBehavior timeout deadline params result).
Proof.
  intros w. rewrite bind_run.
  destruct (registerListeners_run waitBehavior w) as (_ & _ & _ & Ht).
  destruct (performAndWait_run id waitBehavior timeout deadline params result
              (registerListeners waitBehavior w).1 (registerListeners waitBehavior w).2)
    as (_ & _ & (l & Hl & Fl)).
  exists l. by rewrite Hl, Ht.
Qed.

(** Both relations hold across every step of the prologue and across the
    two replies. *)
Lemma both_quiet {A} (m : M A) :
  preserves quiet m -> preserves restores m /\ preserves (extends timeoutCoded) m.
Proof.
  intros Q. split; intros w; [apply quiet_restores | apply quiet_extends]; apply Q.
Qed.

Lemma both_sendError id err :
  preserves restores (sendError id err)
  /\ preserves (extends timeoutCoded) (sendError id err).
Proof.
  split; intros w; rewrite sendError_run; cbn [snd].
  - apply restores_emit.
  - apply extends_emit, timeoutCoded_error.
Qed.

Lemma both_sendSuccess id result :
  preserves restores (sendSuccess id result)
  /\ preserves (extends timeoutCoded) (sendSuccess id result).
Proof.
  split; intros w; rewrite sendSuccess_run; cbn [snd].
  - apply restores_emit.
  - apply extends_emit, timeoutCoded_success.
Qed.

Ltac leaf :=
  first
    [ apply preserves_ret; apply _
    | apply (both_quiet _ quiet_timeNow)
    | apply (both_quiet _ (quiet_remainingTime _))
    | apply (both_quiet _ (quiet_resolveContext _ _ _))
    | apply (both_quiet _ (quiet_waitForElement _ _ _ _ _ _))
    | apply (both_quiet _ (quiet_sendInternalCommand _ _ _))
    | apply both_sendError
    | apply both_sendSuccess
    | apply restores_registered
    | apply extends_registered ].

Ltac walk :=
  repeat first
    [ leaf
    | apply preserves_bind; [apply _ | | intros ?]
    | match goal with
      | |- preserves _ (match ?x with _ => _ end) => destruct x
      end ].

Lemma click_restores cmd : preserves restores (click cmd).
Proof. unfold handleVibiumClick. walk. Qed.

Lemma type_restores cmd : preserves restores (type cmd).
Proof. unfold handleVibiumType. walk. Qed.

Lemma find_restores cmd : preserves restores (find cmd).
Proof. unfold handleVibiumFind. walk. Qed.

Lemma click_extends cmd : preserves (extends timeoutCoded) (click cmd).
Proof. unfold handleVibiumClick. walk. Qed.

Lemma type_extends cmd : preserves (extends timeoutCoded) (type cmd).
Proof. unfold handleVibiumType. walk. Qed.

Lemma find_extends cmd : preserves (extends timeoutCoded) (find cmd).
Proof. unfold handleVibiumFind. walk. Qed.
End HandlerFacts.

(* ===================================================================== *)
(** ** Listeners, error codes and wait policies of the extension commands *)
(* ===================================================================== *)

Section EngineClaims.
Variable parseGetTree : RawMessage -> Result (list string).
Variable parseCallResult : RawMessage -> option (string * string).
Variable parseElementInfo : string -> option elementInfo.
Variable env : Env.

#[local] Abbreviation click := (handleVibiumClick parseGetTree parseCallResult parseElementInfo env).
#[local] Abbreviation type := (handleVibiumType parseGetTree parseCallResult parseElementInfo env).
#[local] Abbreviation find := (handleVibiumFind parseGetTree parseCallResult parseElementInfo env).

Lemma restores_noListenerLeft w w' :
  registryFresh w -> restores w w' -> noListenerLeft w w'.
Proof.
  intros F R. destruct (R F) as [L N]. split; [exact L|].
  intros method ch Hle Hin. rewrite L in Hin. apply F in Hin. lia.
Qed.

(** C5.  When [vibium:find], [vibium:click] or [vibium:type] has
    completed, on whichever exit path, the listener registry lists for
    every method exactly the channels it listed before the command, and
    none of the channels the command made is registered. *)
Theorem listeners_removed_on_every_exit (cmd : bidiCommand) (w : World) :
  registryFresh w ->
  noListenerLeft w (find cmd w).2
  /\ noListenerLeft w (click cmd w).2
  /\ noListenerLeft w (type cmd w).2.
Proof.
  intros F. repeat split; apply restores_noListenerLeft; try assumption;
    [apply find_restores | apply find_restores | apply click_restores
    | apply click_restores | apply type_restores | apply type_restores].
Qed.

Lemma getContext_result w :
  (getContext parseGetTree env w).1 =
    match sendFails env (nextInternalID (session w)) with
    | Some e => Err e
    | None =>
        match (callSelect env w).2 with
        | CaseReply resp =>
            match parseGetTree resp with
            | Err e => Err ("failed to parse getTree response: " +:+ e)
            | Ok [] => Err "no browsing contexts available"
            | Ok (context :: _) => Ok context
            end
        | CaseHardCap => Err "timeout waiting for response to browsingContext.getTree"
        | CaseStop => Err "session closed"
        end
    end.
Proof.
  unfold getContext. run. rewrite sendInternalCommand_result.
  destruct (sendFails env _); [reflexivity|].
  destruct (callSelect env w).2; reflexivity.
Qed.

Lemma handlers_context_error cmd w e :
  paramString (cmdParams cmd) "context" = "" ->
  (getContext parseGetTree env w).1 = Err e ->
  let failed := trace (getContext parseGetTree env w).2
                  ++ [ClientSendResponse (errorFrame (cmdID cmd) e)] in
  trace (find cmd w).2 = failed
  /\ trace (click cmd w).2 = failed
  /\ trace (type cmd w).2 = failed.
Proof.
  intros Hctx He. cbn zeta.
  unfold handleVibiumFind, handleVibiumClick, handleVibiumType, resolveContext.
  rewrite Hctx. cbn [String.eqb]. run. rewrite He. run.
  rewrite sendError_run. auto.
Qed.

(** C10.  Every frame the extension commands send to the client is a
    response frame, and every such frame of type "error" carries the code
    "timeout" in [error.error], whatever went wrong.  In particular, when
    no context is given and [getContext] fails (the send failed, the
    session was closed, the 60-second cap elapsed, the reply did not
    parse, or no browsing context is available), the command answers with
    the error frame whose code is "timeout" and whose message alone names
    the cause. *)
Theorem error_frames_carry_timeout_code :
  (forall cmd w,
      extends timeoutCoded w (find cmd w).2
      /\ extends timeoutCoded w (click cmd w).2
      /\ extends timeoutCoded w (type cmd w).2)
  /\ (forall cmd w e,
         paramString (cmdParams cmd) "context" = "" ->
         (getContext parseGetTree env w).1 = Err e ->
         let failed := trace (getContext parseGetTree env w).2
                         ++ [ClientSendResponse
                               {| respID := cmdID cmd; respType := "error";
                                  respResult := None;
                                  respError := Some {| errError := "timeout";
                                                       errMessage := e |} |}] in
         trace (find cmd w).2 = failed
         /\ trace (click cmd w).2 = failed
         /\ trace (type cmd w).2 = failed)
  /\ (forall w,
         (getContext parseGetTree env w).1 =
           match sendFails env (nextInternalID (session w)) with
           | Some e => Err e
           | None =>
               match (callSelect env w).2 with
               | CaseReply resp =>
                   match parseGetTree resp with
                   | Err e => Err ("failed to parse getTree response: " +:+ e)
                   | Ok [] => Err "no browsing contexts available"
                   | Ok (context :: _) => Ok context
                   end
               | CaseHardCap =>
                   Err "timeout waiting for response to browsingContext.getTree"
               | CaseStop => Err "session closed"
               end
           end).
Proof.
  split; [|split].
  - intros cmd w. repeat split;
      [apply find_extends | apply click_extends | apply type_extends].
  - intros cmd w e Hctx He. exact (handlers_context_error cmd w e Hctx He).
  - exact getContext_result.
Qed.

(** An unrecognised policy takes the same branches as
    [waitForNavigationStarted]. *)
Lemma unrecognized_tests wb :
  wb <> "none" -> wb <> "waitForDomContentLoaded" -> wb <> "waitForLoad" ->
  (wb =? "none")%string = false
  /\ (wb =? "waitForDomContentLoaded")%string = false
  /\ (wb =? "waitForLoad")%string = false.
Proof. intros. repeat split; by apply String.eqb_neq. Qed.

Lemma registerListeners_unrecognized wb w :
  wb <> "none" -> wb <> "waitForDomContentLoaded" -> wb <> "waitForLoad" ->
  registerListeners wb w =
    ((Some (nextChan w), None, None), (addEventListener navigationStarted w).2).
Proof.
  intros H1 H2 H3. destruct (unrecognized_tests wb H1 H2 H3) as (E1 & E2 & E3).
  unfold registerListeners, listenIf. rewrite E1, E2, E3. cbn [negb]. run.
  by destruct (addEventListener_run navigationStarted w) as (-> & _).
Qed.

Lemma waitNavigation_unrecognized wb timeout deadline chs w :
  wb <> "none" -> wb <> "waitForDomContentLoaded" -> wb <> "waitForLoad" ->
  waitNavigation env wb timeout deadline chs w =
    ((if (awaitEvent env navigationStarted chs.1.1 deadline w).1
      then Ok tt else Err (stageTimeout timeout "navigation to start")),
     (awaitEvent env navigationStarted chs.1.1 deadline w).2).
Proof.
  intros H1 H2 H3. destruct (unrecognized_tests wb H1 H2 H3) as (E1 & E2 & E3).
  unfold waitNavigation. rewrite E1, E2, E3. cbn [negb]. run.
  by destruct (awaitEvent env navigationStarted chs.1.1 deadline w).1.
Qed.

Lemma performAndWait_unrecognized id wb timeout deadline params result chs w :
  wb <> "none" -> wb <> "waitForDomContentLoaded" -> wb <> "waitForLoad" ->
  performAndWait env id wb timeout deadline params result chs w =
    performAndWait env id "waitForNavigationStarted" timeout deadline params result chs w.
Proof.
  intros H1 H2 H3. unfold performAndWait. run.
  destruct (sendInternalCommand _ _ _ _).1; [|reflexivity]. run.
  rewrite (waitNavigation_unrecognized wb) by assumption.
  by rewrite (waitNavigation_unrecognized "waitForNavigationStarted").
Qed.

Lemma paramString_withWaitBehavior value cmd key :
  key <> "waitBehavior" ->
  paramString (cmdParams (withWaitBehavior value cmd)) key = paramString (cmdParams cmd) key.
Proof. intros H. unfold paramString. cbn. by rewrite lookup_insert_ne. Qed.

Lemma paramFloat_withWaitBehavior value cmd key :
  key <> "waitBehavior" ->
  paramFloat (cmdParams (withWaitBehavior value cmd)) key = paramFloat (cmdParams cmd) key.
Proof. intros H. unfold paramFloat. cbn. by rewrite lookup_insert_ne. Qed.

Lemma waitBehavior_withWaitBehavior value cmd :
  paramString (cmdParams (withWaitBehavior value cmd)) "waitBehavior" = value.
Proof. unfold paramString. cbn. by rewrite lookup_insert_eq. Qed.

Lemma awaitNavigationStartedOnly_unrecognized wb id timeout deadline params result w :
  wb <> "" -> wb <> "none" -> wb <> "waitForDomContentLoaded" -> wb <> "waitForLoad" ->
  (registerListeners wb ≫= performAndWait env id wb timeout deadline params result) w
  = awaitNavigationStartedOnly env id timeout deadline params result w.
Proof.
  intros H0 H1 H2 H3. rewrite bind_run.
  rewrite (registerListeners_unrecognized wb) by assumption.
  assert (forall a (k : M unit) w0,
             (cleanupListeners (Some a, None, None) ≫= fun _ => k) w0
             = (removeEventListener navigationStarted a ≫= fun _ => k) w0) as Hclean.
  { intros a k w0. unfold cleanupListeners. by rewrite !bind_run. }
  unfold awaitNavigationStartedOnly, performAndWait. rewrite !bind_run.
  change ((addEventListener navigationStarted w).1) with (nextChan w).
  cbn [fst snd].
  destruct (sendInternalCommand _ _ _ _).1; [|apply Hclean].
  rewrite !bind_run. rewrite (waitNavigation_unrecognized wb) by assumption.
  cbn [fst snd]. destruct (awaitEvent _ _ _ _ _).1; rewrite Hclean, bind_run; reflexivity.
Qed.

(** C9.  A [waitBehavior] that is not empty and is none of "none",
    "waitForDomContentLoaded" and "waitForLoad" is not rejected.
    [vibium:click] and [vibium:type] then are the programs that, once the
    element is found (and, for [vibium:type], focused), register the one
    listener for [browsingContext.navigationStarted], perform the action,
    wait for that one event until the deadline, remove the listener and
    answer: with success when the event came, with the timeout error when
    it did not.  They run exactly as they do for
    "waitForNavigationStarted"; no other listener is registered and no
    other event is waited for. *)
Theorem unrecognized_waitBehavior_waits_for_navigationStarted
    (cmd : bidiCommand) (wb : string) (w : World) :
  paramString (cmdParams cmd) "waitBehavior" = wb ->
  wb <> "" -> wb <> "none" -> wb <> "waitForDomContentLoaded" -> wb <> "waitForLoad" ->
  click cmd w
  = clickAwaitingNavigationStarted parseGetTree parseCallResult parseElementInfo env cmd w
  /\ type cmd w
     = typeAwaitingNavigationStarted parseGetTree parseCallResult parseElementInfo env cmd w
  /\ click cmd w = click (withWaitBehavior "waitForNavigationStarted" cmd) w
  /\ type cmd w = type (withWaitBehavior "waitForNavigationStarted" cmd) w
  /\ (forall w0,
         registerListeners wb w0 =
           ((Some (nextChan w0), None, None), (addEventListener navigationStarted w0).2))
  /\ (forall timeout deadline chs w0,
         waitNavigation env wb timeout deadline chs w0 =
           ((if (awaitEvent env navigationStarted chs.1.1 deadline w0).1
             then Ok tt else Err (stageTimeout timeout "navigation to start")),
            (awaitEvent env navigationStarted chs.1.1 deadline w0).2)).
Proof.
  intros Hwb H0 H1 H2 H3.
  assert (forall dflt, orDefault wb dflt = wb) as Hdef.
  { intros dflt. unfold orDefault. apply String.eqb_neq in H0. by rewrite H0. }
  assert (forall id timeout deadline params result w0,
             (registerListeners wb ≫= performAndWait env id wb timeout deadline params result) w0
             = (registerListeners "waitForNavigationStarted"
                  ≫= performAndWait env id "waitForNavigationStarted" timeout deadline
                       params result) w0) as Hblock.
  { intros. rewrite !bind_run.
    rewrite (registerListeners_unrecognized wb) by assumption.
    rewrite (registerListeners_unrecognized "waitForNavigationStarted") by discriminate.
    by apply performAndWait_unrecognized. }
  split; [|split; [|split; [|split; [|split]]]].
  - unfold handleVibiumClick, clickAwaitingNavigationStarted.
    rewrite Hwb, Hdef. run.
    destruct (resolveContext _ _ _ _).1; [|reflexivity]. run.
    destruct (waitForElement _ _ _ _ _ _ _).1; [|reflexivity].
    by apply awaitNavigationStartedOnly_unrecognized.
  - unfold handleVibiumType, typeAwaitingNavigationStarted.
    rewrite Hwb, Hdef. run.
    destruct (resolveContext _ _ _ _).1; [|reflexivity]. run.
    destruct (waitForElement _ _ _ _ _ _ _).1; [|reflexivity]. run.
    destruct (sendInternalCommand _ _ _ _).1; [|reflexivity].
    by apply awaitNavigationStartedOnly_unrecognized.
  - unfold handleVibiumClick.
    rewrite waitBehavior_withWaitBehavior, !paramString_withWaitBehavior,
      paramFloat_withWaitBehavior by discriminate.
    rewrite Hwb, Hdef. cbn [orDefault String.eqb Ascii.eqb Bool.eqb]. run.
    destruct (resolveContext _ _ _ _).1; [|reflexivity]. run.
    destruct (waitForElement _ _ _ _ _ _ _).1; [|reflexivity].
    apply Hblock.
  - unfold handleVibiumType.
    rewrite waitBehavior_withWaitBehavior, !paramString_withWaitBehavior,
      paramFloat_withWaitBehavior by discriminate.
    rewrite Hwb, Hdef. cbn [orDefault String.eqb Ascii.eqb Bool.eqb]. run.
    destruct (resolveContext _ _ _ _).1; [|reflexivity]. run.
    destruct (waitForElement _ _ _ _ _ _ _).1; [|reflexivity]. run.
    destruct (sendInternalCommand _ _ _ _).1; [|reflexivity].
    apply Hblock.
  - intros w0. by apply registerListeners_unrecognized.
  - intros. by apply waitNavigation_unrecognized.
Qed.
End EngineClaims.

(* ===================================================================== *)
(** ** The click point                                                    *)
(* ===================================================================== *)

Lemma floatDen_pos e : 0 < floatDen e.
Proof. unfold floatDen. apply Z.pow_pos_nonneg; lia. Qed.

Lemma floatNum_nonneg m e : 0 <= floatNum false m e.
Proof. unfold floatNum. apply Z.mul_nonneg_nonneg; [lia | apply Z.pow_nonneg; lia]. Qed.

Lemma floatNum_neg m e : floatNum true m e = - floatNum false m e.
Proof. unfold floatNum. lia. Qed.

Lemma goInt_trunc f : finiteInRange f -> goInt f = truncFloat f.
Proof.
  unfold finiteInRange, goInt, truncFloat, inInt64.
  destruct (Prim2SF f) as [| | |s m e]; try tauto. intros [Hlo Hhi].
  cbn zeta. rewrite (proj2 (Z.leb_le _ _) Hlo), (proj2 (Z.leb_le _ _) Hhi). cbn [andb].
  pose proof (floatDen_pos e). pose proof (floatNum_nonneg m e).
  destruct s.
  - rewrite floatNum_neg, Z.quot_opp_l by lia. by rewrite Z.quot_div_nonneg by lia.
  - by rewrite Z.quot_div_nonneg by lia.
Qed.

Lemma goInt_floor f : finiteInRange f -> nonNegative f -> goInt f = floorFloat f.
Proof.
  intros Hr Hn. rewrite goInt_trunc by assumption.
  unfold nonNegative, truncFloat, floorFloat in *.
  destruct (Prim2SF f) as [| | |s m e]; try tauto. by subst s.
Qed.

Lemma pointerMoveOf_clickParams context info :
  pointerMoveOf (clickParams context info)
  = Some (goInt (centerX info), goInt (centerY info)).
Proof. reflexivity. Qed.

Section ClickPoint.
Variable parseGetTree : RawMessage -> Result (list string).
Variable parseCallResult : RawMessage -> option (string * string).
Variable parseElementInfo : string -> option elementInfo.
Variable env : Env.

#[local] Abbreviation click := (handleVibiumClick parseGetTree parseCallResult parseElementInfo env).
#[local] Abbreviation type := (handleVibiumType parseGetTree parseCallResult parseElementInfo env).

Lemma extends_elem (P : Action -> Prop) w w' a :
  extends P w w' -> a ∈ trace w -> a ∈ trace w'.
Proof. intros (l & -> & _) Hin. apply elem_of_app. by left. Qed.

Lemma performAndWait_sends id waitBehavior timeout deadline params result chs w :
  exists n, BidiSendCommand n "input.performActions" params
            ∈ trace (performAndWait env id waitBehavior timeout deadline params result chs w).2.
Proof.
  exists (nextInternalID (session w)).
  destruct (sendInternalCommand_world env "input.performActions" params w) as (_ & Ht & _).
  cbn zeta in Ht.
  assert (forall (k : Result RawMessage -> M unit),
             (forall r, preserves (extends timeoutCoded) (k r)) ->
             BidiSendCommand (nextInternalID (session w)) "input.performActions" params
             ∈ trace ((sendInternalCommand env "input.performActions" params ≫= k) w).2)
    as Hk.
  { intros k Hext. rewrite bind_run. eapply extends_elem; [apply Hext|].
    rewrite Ht. apply elem_of_app. right. by left. }
  apply Hk. intros r. destruct r as [resp|e].
  - apply preserves_bind; [apply _ | apply (both_quiet _ (quiet_waitNavigation _ _ _ _ _)) |].
    intros [[]|e]; (apply preserves_bind; [apply _ | | intros ?]);
      try apply both_sendError; try apply both_sendSuccess;
      intros w0; destruct (cleanupListeners_run chs w0) as (_ & _ & Hc);
      exists []; by rewrite Hc, app_nil_r.
  - apply preserves_bind; [apply _ | | intros ?]; [|apply both_sendError].
    intros w0; destruct (cleanupListeners_run chs w0) as (_ & _ & Hc).
    exists []. by rewrite Hc, app_nil_r.
Qed.

Lemma registered_sends id waitBehavior timeout deadline params result w :
  exists n, BidiSendCommand n "input.performActions" params
            ∈ trace ((registerListeners waitBehavior
                        ≫= performAndWait env id waitBehavior timeout deadline params result)
                       w).2.
Proof. rewrite bind_run. apply performAndWait_sends. Qed.

(** C8 (as the code has it).  With the element info of the prologue,
    [vibium:click] and the focusing click of [vibium:type] send
    [input.performActions] whose [pointerMove] is at
    [(int(x + width/2), int(y + height/2))]: the centre with its fraction
    discarded, that is, rounded towards zero.  This is the centre rounded
    down when the centre coordinate is not negative. *)
Theorem click_point_truncates_center
    (cmd : bidiCommand) (w : World) (context : string) (info : elementInfo) :
  let selector := paramString (cmdParams cmd) "selector" in
  let timeout := timeoutOf (paramFloat (cmdParams cmd) "timeout") in
  let resolved := resolveContext parseGetTree env (paramString (cmdParams cmd) "context") w in
  resolved.1 = Ok context ->
  (waitForElement parseCallResult parseElementInfo env context selector
     (Z.max 0 (now w + timeout - now resolved.2)) resolved.2).1 = Ok info ->
  finiteInRange (centerX info) ->
  finiteInRange (centerY info) ->
  (exists n, BidiSendCommand n "input.performActions" (clickParams context info)
             ∈ trace (click cmd w).2)
  /\ (exists n, BidiSendCommand n "input.performActions" (clickParams context info)
                ∈ trace (type cmd w).2)
  /\ pointerMoveOf (clickParams context info)
     = Some (truncFloat (centerX info), truncFloat (centerY info))
  /\ (nonNegative (centerX info) -> nonNegative (centerY info) ->
      pointerMoveOf (clickParams context info)
      = Some (floorFloat (centerX info), floorFloat (centerY info))).
Proof.
  intros selector timeout resolved Hctx Hfound Hx Hy. subst resolved. repeat split.
  - unfold handleVibiumClick. run. rewrite Hctx. run. unfold remainingTime. run.
    fold selector timeout. rewrite Hfound. apply registered_sends.
  - unfold handleVibiumType. run. rewrite Hctx. run. unfold remainingTime. run.
    fold selector timeout. rewrite Hfound. cbv iota. run.
    match goal with |- context [sendInternalCommand env ?m ?p ?x] =>
      destruct (sendInternalCommand_world env m p x) as (_ & Ht & _);
      exists (nextInternalID (session x)) end.
    cbn zeta in Ht.
    eapply extends_elem; [|rewrite Ht; apply elem_of_app; right; by left].
    destruct (sendInternalCommand _ _ _ _).1.
    + apply extends_registered.
    + apply both_sendError.
  - rewrite pointerMoveOf_clickParams. by rewrite !goInt_trunc.
  - intros Nx Ny. rewrite pointerMoveOf_clickParams. by rewrite !goInt_floor.
Qed.
End ClickPoint.

(* ===================================================================== *)
(** ** The stop signal and the waits                                      *)
(* ===================================================================== *)

Section StopFacts.
Variable parseCallResult : RawMessage -> option (string * string).
Variable parseElementInfo : string -> option elementInfo.
Variable env : Env.

#[local] Abbreviation poll := (pollResult parseCallResult parseElementInfo).
#[local] Abbreviation loop := (waitForElementLoop parseCallResult parseElementInfo env).
#[local] Abbreviation wait := (waitForElement parseCallResult parseElementInfo env).

Lemma callSelect_le_stop w ts :
  stopReady env w = Some ts -> (callSelect env w).1 <= ts.
Proof.
  intros Hs. unfold callSelect, internalSelect.
  apply (selectCase_le _ _ _ (ts, CaseStop)).
  right. unfold internalCases. apply elem_of_app. right.
  unfold registerInternal, stopReady in *.
  cbn [makeChan setSession fst snd session now stopChan setInternal].
  rewrite Hs. by left.
Qed.

(** The internal-command wait is woken by the stop signal. *)
Lemma internal_wait_aborts method params w ts :
  stopReady env w = Some ts ->
  ts < now w + 60 * Second ->
  (forall d resp, replyOf env (nextInternalID (session w)) = Some (d, resp) ->
                  ts < now w + Z.max 0 d) ->
  sendFails env (nextInternalID (session w)) = None ->
  (sendInternalCommand env method params w).1 = Err "session closed"
  /\ now (sendInternalCommand env method params w).2 = ts.
Proof.
  intros Hs Hcap Hreply Hsend.
  rewrite sendInternalCommand_result, sendInternalCommand_now, Hsend.
  pose proof (callSelect_le_stop w ts Hs) as Hle.
  pose proof (callSelect_cases env w) as Hc. cbn zeta in Hc.
  destruct (callSelect env w) as [t c]. cbn [fst snd] in *.
  destruct c as [resp| |].
  - destruct Hc as (d & Hd & ->). specialize (Hreply d resp Hd). lia.
  - lia.
  - split; [reflexivity|]. unfold stopReady in Hs.
    destruct Hc as [[Hc ->]|(t' & Ht' & ->)].
    + rewrite Hc in Hs. by injection Hs.
    + destruct (stopChan (session w)).
      * injection Hs as <-. lia.
      * rewrite Ht' in Hs. by injection Hs.
Qed.

(** A poll after the stop signal fails, which the loop counts as "not
    yet". *)
Lemma stopped_poll method params w :
  noInstantReply env ->
  stopChan (session w) = true ->
  poll (sendInternalCommand env method params w).1 = None.
Proof.
  intros Hni Hstop. rewrite sendInternalCommand_result.
  destruct (sendFails env _); [reflexivity|].
  assert (stopReady env w = Some (now w)) as Hs by (unfold stopReady; by rewrite Hstop).
  pose proof (callSelect_le_stop w (now w) Hs) as Hle.
  pose proof (callSelect_cases env w) as Hc. cbn zeta in Hc.
  destruct (callSelect env w) as [t c]. cbn [fst snd] in *.
  destruct c as [resp| |]; try reflexivity.
  destruct Hc as (d & Hd & ->). apply Hni in Hd. lia.
Qed.

(** With every poll "not yet" along the way, the loop runs to its
    deadline. *)
Lemma waitForElement_never (I : World -> Prop) context selector timeout w :
  (forall w0, I w0 ->
     poll (sendInternalCommand env "script.callFunction"
             (findParams context selector) w0).1 = None
     /\ forall t, I (setNow t (sendInternalCommand env "script.callFunction"
                                 (findParams context selector) w0).2)) ->
  I w ->
  (wait context selector timeout w).1 = Err (elementTimeout timeout selector)
  /\ now w + timeout < now (wait context selector timeout w).2.
Proof.
  intros Hstep HI.
  pose proof (waitForElement_result parseCallResult parseElementInfo env
                context selector timeout w) as Hr.
  destruct (wait context selector timeout w).1 as [info|e] eqn:E.
  - exfalso. revert E. unfold waitForElement. run.
    assert (forall fuel w0, I w0 ->
              (loop fuel context selector timeout (now w + timeout) w0).1
              <> Some (Ok info)) as Hloop.
    { induction fuel as [|fuel IH]; intros w0 HI0; [discriminate|].
      rewrite waitForElementLoop_step. cbn zeta.
      destruct (Hstep w0 HI0) as [-> Hnext].
      destruct (_ <? _); [discriminate | apply IH, Hnext]. }
    specialize (Hloop (pollFuel timeout) w HI).
    destruct (loop _ _ _ _ _ _).1 as [[]|]; cbn; congruence.
  - destruct Hr as [-> Hnow]. by split.
Qed.

(** A navigation wait for which no event arrives ends when its timer
    fires, whatever the stop signal. *)
Lemma awaitEvent_no_event method ch deadline w :
  bufOf ch w = [] ->
  eventAt env method = None ->
  awaitEvent env method (Some ch) deadline w
  = (false, setNow (now w + Z.max 0 (deadline - now w)) w).
Proof.
  intros Hbuf Hev. unfold awaitEvent, recvReady. rewrite Hbuf, Hev.
  simpl. by rewrite selectCase_nil.
Qed.

(** C4 (as the code has it).  Closing the stop signal wakes the wait of
    an internal command with the session-closed error, at the moment the
    signal is closed.  The element polling loop counts that error as "not
    yet": with the stop signal closed it keeps polling and ends only past
    its deadline, with the element-not-found timeout.  A navigation wait
    stage has no case for the stop signal: when no event arrives it ends
    when its timer fires, at the deadline. *)
Theorem stop_signal_wakes_internal_wait
    (method : string) (params : json) (w : World) (ts : Z) :
  stopReady env w = Some ts ->
  ts < now w + 60 * Second ->
  (forall d resp, replyOf env (nextInternalID (session w)) = Some (d, resp) ->
                  ts < now w + Z.max 0 d) ->
  sendFails env (nextInternalID (session w)) = None ->
  ((sendInternalCommand env method params w).1 = Err "session closed"
   /\ now (sendInternalCommand env method params w).2 = ts)
  /\ (forall context selector timeout w0,
         noInstantReply env ->
         stopChan (session w0) = true ->
         (wait context selector timeout w0).1
         = Err ("timeout after " +:+ durationString timeout +:+ " waiting for '"
                  +:+ selector +:+ "': element not found")
         /\ now w0 + timeout < now (wait context selector timeout w0).2)
  /\ (forall method ch deadline w0,
         bufOf ch w0 = [] ->
         eventAt env method = None ->
         awaitEvent env method (Some ch) deadline w0
         = (false, setNow (now w0 + Z.max 0 (deadline - now w0)) w0)).
Proof.
  intros Hs Hcap Hreply Hsend. split; [|split].
  - by apply internal_wait_aborts.
  - intros context selector timeout w0 Hni Hstop.
    apply (waitForElement_never (fun w1 => stopChan (session w1) = true)); [|exact Hstop].
    intros w1 H1. split; [by apply stopped_poll|].
    intros t. cbn [session setNow].
    by rewrite (quiet_stop _ _ (quiet_sendInternalCommand env _ _ w1)).
  - intros. by apply awaitEvent_no_event.
Qed.
End StopFacts.

(* ===================================================================== *)
(** ** Command ids and the routing of browser frames                      *)
(* ===================================================================== *)

Lemma sessionWf_new subscription start : sessionWf (newWorld subscription start).
Proof. split; [cbn; lia|]. intros id ch H. cbn in H. by rewrite lookup_empty in H. Qed.

Lemma registerInternal_run w :
  (registerInternal w).1 = (nextInternalID (session w), nextChan w)
  /\ internalCmds (session (registerInternal w).2)
     = <[nextInternalID (session w) := nextChan w]> (internalCmds (session w))
  /\ nextInternalID (session (registerInternal w).2)
     = wrap64 (nextInternalID (session w) + 1)
  /\ chanBuf (registerInternal w).2 = <[nextChan w := []]> (chanBuf w)
  /\ chanCap (registerInternal w).2 = <[nextChan w := 1%nat]> (chanCap w)
  /\ trace (registerInternal w).2 = trace w.
Proof. unfold registerInternal. run. auto 10. Qed.

Lemma sessionWf_registerInternal w :
  sessionWf w -> nextInternalID (session w) < maxInt64 ->
  nextInternalID (session (registerInternal w).2) = nextInternalID (session w) + 1
  /\ sessionWf (registerInternal w).2.
Proof.
  intros [Hlo Hpend] Hmax.
  destruct (registerInternal_run w) as (_ & Hcmds & Hnext & _).
  assert (wrap64 (nextInternalID (session w) + 1) = nextInternalID (session w) + 1) as Hw.
  { apply wrap64_id. unfold inInt64, minInt64, maxInt64 in *. lia. }
  rewrite Hw in Hnext. split; [exact Hnext|]. split; [lia|].
  intros id ch. rewrite Hcmds, Hnext, lookup_insert.
  case_decide as Hid; [intros _; lia|]. intros H. apply Hpend in H. lia.
Qed.

Lemma sessionWf_unregisterInternal id w :
  sessionWf w -> sessionWf (unregisterInternal id w).2.
Proof.
  intros [Hlo Hpend]. split; [exact Hlo|]. intros id' ch. cbn.
  rewrite lookup_delete. case_decide; [discriminate|]. apply Hpend.
Qed.

(** A whole internal command takes the next id and leaves the pending
    map as it found it. *)
Lemma sessionWf_sendInternalCommand env method params w :
  sessionWf w -> nextInternalID (session w) < maxInt64 ->
  nextInternalID (session (sendInternalCommand env method params w).2)
  = nextInternalID (session w) + 1
  /\ internalCmds (session (sendInternalCommand env method params w).2)
     = internalCmds (session w)
  /\ sessionWf (sendInternalCommand env method params w).2.
Proof.
  intros [Hlo Hpend] Hmax.
  destruct (sendInternalCommand_world env method params w) as (Hs & _).
  cbn zeta in Hs. unfold sessionWf. rewrite Hs.
  cbn [nextInternalID internalCmds setInternal].
  assert (wrap64 (nextInternalID (session w) + 1) = nextInternalID (session w) + 1) as Hw.
  { apply wrap64_id. unfold inInt64, minInt64, maxInt64 in *. lia. }
  assert (internalCmds (session w) !! nextInternalID (session w) = None) as Hfree.
  { destruct (internalCmds (session w) !! nextInternalID (session w)) eqn:E; [|reflexivity].
    apply Hpend in E. lia. }
  rewrite Hw, (delete_id _ _ Hfree). split; [reflexivity|]. split; [reflexivity|].
  split; cbn [nextInternalID internalCmds setInternal]; [lia|].
  intros id ch H. apply Hpend in H. lia.
Qed.

Section RoutingFacts.
Variable parseFrame : RawMessage -> option parsedFrame.
Variable parseCommand : RawMessage -> option bidiCommand.
Variable parseGetTree : RawMessage -> Result (list string).
Variable parseCallResult : RawMessage -> option (string * string).
Variable parseElementInfo : string -> option elementInfo.
Variable env : Env.

#[local] Abbreviation route := (routeMessage parseFrame).
#[local] Abbreviation onMessage :=
  (OnClientMessage parseCommand parseGetTree parseCallResult parseElementInfo env).

(** A frame whose id is pending goes to the reply channel and nowhere
    else. *)
Lemma routeMessage_pending msg parsed id ch sendFailed others w :
  parseFrame msg = Some parsed -> frameID parsed = Some id -> 0 < id ->
  internalCmds (session w) !! id = Some ch ->
  route msg sendFailed others w =
    (if hasRoom ch w then Continue (setBuf ch (bufOf ch w ++ [msg]) w) else Blocked ch w)
  /\ trace (routeWorld (route msg sendFailed others w)) = trace w.
Proof.
  intros Hp Hid Hpos Hch. unfold routeMessage, internalChannel.
  rewrite Hp, Hid, (proj2 (Z.ltb_lt _ _) Hpos), Hch.
  split; [reflexivity|]. by destruct (hasRoom ch w).
Qed.

(** A frame with an id that is not pending goes to the client as it
    is. *)
Lemma routeMessage_not_pending msg parsed id sendFailed others w :
  parseFrame msg = Some parsed -> frameID parsed = Some id ->
  internalCmds (session w) !! id = None ->
  route msg sendFailed others w = forwardToClient msg sendFailed w
  /\ returnsToClient msg w (route msg sendFailed others w)
  /\ chanBuf (routeWorld (route msg sendFailed others w)) = chanBuf w.
Proof.
  intros Hp Hid Hch. unfold returnsToClient, routeMessage, internalChannel.
  rewrite Hp, Hid, Hch. destruct (0 <? id); unfold forwardToClient;
    destruct sendFailed; auto.
Qed.

(** A message that is not an extension command goes to the browser as it
    is. *)
Lemma OnClientMessage_forward msg w :
  closed (session w) = false ->
  match parseCommand msg with
  | Some cmd => isExtension (cmdMethod cmd) = false
  | None => True
  end ->
  onMessage msg w = (tt, emit (BidiSend msg) w).
Proof.
  intros Hopen Hcmd. unfold OnClientMessage. rewrite Hopen.
  destruct (parseCommand msg) as [cmd|]; [|reflexivity].
  unfold isExtension in Hcmd. apply orb_false_elim in Hcmd as [Hcmd H3].
  apply orb_false_elim in Hcmd as [H1 H2]. by rewrite H1, H2, H3.
Qed.

Lemma trySend_frame msg ch w w' :
  trySend msg ch w = Some w' ->
  session w' = session w /\ trace w' = trace w /\ chanCap w' = chanCap w
  /\ chanClosed w' = chanClosed w /\ nextChan w' = nextChan w /\ now w' = now w.
Proof.
  unfold trySend. case_bool_decide; [done|]. intros [= <-]. by destruct (hasRoom ch w).
Qed.

(** A dispatch during which no other task acts changes buffers only,
    also when it ends in a panic. *)
Lemma dispatchListeners_frame msg ls w :
  match dispatchListeners msg ls nobody w with
  | Dispatched w' | SendOnClosed _ w' =>
      session w' = session w /\ trace w' = trace w /\ chanCap w' = chanCap w
      /\ chanClosed w' = chanClosed w /\ nextChan w' = nextChan w /\ now w' = now w
  end.
Proof.
  revert w. induction ls as [|ch ls IH]; intros w; [done|].
  cbn [dispatchListeners nobody beforeSend].
  destruct (trySend msg ch w) as [w2|] eqn:E; [|done].
  destruct (trySend_frame _ _ _ _ E) as (Hs & Ht & Hc & Hcl & Hn & Hnow).
  specialize (IH w2). destruct (dispatchListeners msg ls nobody w2);
    destruct IH as (-> & -> & -> & -> & -> & ->); done.
Qed.

Lemma sessionWf_routeMessage msg sendFailed w :
  sessionWf w -> sessionWf (routeWorld (route msg sendFailed nobody w)).
Proof.
  intros Hwf. unfold routeMessage, forwardToClient.
  destruct (parseFrame msg) as [parsed|]; [|by destruct sendFailed].
  destruct (internalChannel parsed w) as [ch|]; [by destruct (hasRoom ch w)|].
  destruct (frameID parsed); [by destruct sendFailed|].
  destruct (frameMethod parsed =? "")%string; [by destruct sendFailed|].
  pose proof (dispatchListeners_frame msg (listenersOf (frameMethod parsed) w) w) as Hd.
  destruct (dispatchListeners _ _ _ _) as [w1|ch w1]; destruct Hd as (Hs & _);
    [destruct sendFailed|]; unfold sessionWf; cbn [routeWorld session emit]; by rewrite Hs.
Qed.

(** The reply the correlator puts into the channel of a pending command
    is the one the issuer returns. *)
Lemma reply_reaches_issuer msg parsed sendFailed others method w :
  parseFrame msg = Some parsed ->
  frameID parsed = Some (nextInternalID (session w)) ->
  0 < nextInternalID (session w) ->
  stopReady env w = None ->
  let id := nextInternalID (session w) in
  let ch := nextChan w in
  let delivered := setBuf ch [msg] (registerInternal w).2 in
  route msg sendFailed others (registerInternal w).2 = Continue delivered
  /\ (awaitInternal env id ch method delivered).1 = Ok msg.
Proof.
  intros Hp Hid Hpos Hstop. cbn zeta.
  destruct (registerInternal_run w) as (_ & Hcmds & _ & Hbuf & Hcap & _).
  assert (bufOf (nextChan w) (registerInternal w).2 = []) as Hb.
  { unfold bufOf. by rewrite Hbuf, lookup_insert_eq. }
  assert (hasRoom (nextChan w) (registerInternal w).2 = true) as Hroom.
  { unfold hasRoom, capOf. by rewrite Hb, Hcap, lookup_insert_eq. }
  split.
  - destruct (routeMessage_pending msg parsed _ (nextChan w) sendFailed others
                (registerInternal w).2 Hp Hid Hpos) as [-> _].
    + by rewrite Hcmds, lookup_insert_eq.
    + by rewrite Hroom, Hb.
  - rewrite awaitInternal_result. unfold internalSelect.
    match goal with |- context [selectCase ?d ?cs ?k] =>
      destruct (selectCase_spec d cs k) as [Hin Hmin];
      pose proof (selectCase_le d cs k) as Hle;
      destruct (selectCase d cs k) as [t c] end.
    cbn [fst snd] in *.
    assert (internalCases env (nextInternalID (session w)) (nextChan w)
              (setBuf (nextChan w) [msg] (registerInternal w).2)
            = [(now w, CaseReply msg)]) as Hcases.
    { unfold internalCases, recvReady, bufOf, stopReady in *.
      unfold registerInternal.
      cbn [makeChan setSession setBuf chanBuf now session stopChan setInternal fst snd].
      rewrite lookup_insert_eq. cbn [default].
      destruct (stopChan (session w)); [discriminate|].
      destruct (stopAt env); [discriminate|]. reflexivity. }
    rewrite Hcases in *. unfold registerInternal in Hin, Hle.
    cbn [makeChan setSession setBuf now fst snd] in Hin, Hle.
    rewrite !elem_of_cons in Hin. destruct Hin as [[= -> ->]|[[= -> ->]|Hin]].
    + specialize (Hle (now w, CaseReply msg)). cbn [fst] in Hle.
      unfold Second, Millisecond, Microsecond, Nanosecond in Hle.
      assert ((now w, CaseReply msg) ∈ [(now w + 60 * (1000 * (1000 * (1000 * 1))), CaseHardCap);
                                         (now w, CaseReply msg)]) as Hm by (right; left).
      apply Hle in Hm. lia.
    + reflexivity.
    + inversion Hin.
Qed.
End RoutingFacts.

(* ===================================================================== *)
(** ** Teardown                                                           *)
(* ===================================================================== *)

Section TeardownFacts.
Variable unmarshalMessage : RawMessage -> Result Bidi.Message.
Variable unmarshalErrorData : RawMessage -> Result Bidi.ErrorData.
Variable unmarshalString : RawMessage -> Result string.

#[local] Abbreviation close := (closeSession unmarshalMessage unmarshalErrorData unmarshalString).
#[local] Abbreviation unsubscribe :=
  (Bidi.SessionUnsubscribeByID unmarshalMessage unmarshalErrorData unmarshalString).

Lemma closeSession_closed counter sendErr received w :
  closed (session w) = true -> close counter sendErr received w = (TornDown w, counter).
Proof. intros H. unfold closeSession. by rewrite H. Qed.

(** What the unsubscribe does to the wire; its result does not depend on
    what was sent before. *)
Lemma unsubscribe_wire subscriptions sendErr wire :
  Bidi.commandID (unsubscribe subscriptions sendErr wire).2 = Bidi.NextID (Bidi.commandID wire)
  /\ Bidi.outbox (unsubscribe subscriptions sendErr wire).2
     = Bidi.outbox wire
       ++ [BidiSendCommand (Bidi.NextID (Bidi.commandID wire)) "session.unsubscribe"
             (Bidi.unsubscribeByIDParams subscriptions)]
  /\ forall sent,
       (unsubscribe subscriptions sendErr wire).1
       = (unsubscribe subscriptions sendErr
            {| Bidi.commandID := Bidi.commandID wire; Bidi.inbox := Bidi.inbox wire;
               Bidi.outbox := sent |}).1.
Proof.
  unfold Bidi.SessionUnsubscribeByID, Bidi.SendCommand.
  destruct sendErr as [e|]; cbn; done.
Qed.

(** The three ways a call on an open session goes. *)
Lemma closeSession_open counter sendErr received w :
  closed (session w) = false ->
  let s := session w in
  let id := Bidi.NextID counter in
  let answer :=
    (unsubscribe [navigationSubscriptionID s] sendErr
       {| Bidi.commandID := counter; Bidi.inbox := received; Bidi.outbox := trace w |}).1 in
  let t := close counter sendErr received w in
  closed (session (tornWorld t.1)) = true
  /\ t.2 = (if unsubscribes s then id else counter)
  /\ (if unsubscribes s && negb (bool_decide (is_Some answer))
      then t.1 = Unsubscribing (tornWorld t.1)
           /\ trace (tornWorld t.1) = trace w ++ [unsubscribeCommand id s]
           /\ stopChan (session (tornWorld t.1)) = stopChan (session w)
      else t.1 = TornDown (tornWorld t.1)
           /\ trace (tornWorld t.1) = trace w ++ teardownActions id s
           /\ stopChan (session (tornWorld t.1)) = true).
Proof.
  intros Hopen. cbn zeta. unfold closeSession, teardownActions, unsubscribes.
  rewrite Hopen.
  destruct (negb (navigationSubscriptionID (session w) =? "")%string
            && BidiClient (session w)) eqn:Hu.
  - cbn [setSession trace].
    match goal with |- context [unsubscribe ?l ?e ?wire] =>
      destruct (unsubscribe_wire l e wire) as (Hid & Hout & _);
      destruct (unsubscribe l e wire) as [answer wire'] end.
    cbn [fst snd Bidi.commandID Bidi.outbox] in *. rewrite Hid, Hout.
    destruct answer as [r|].
    + rewrite bool_decide_eq_true_2 by (by eexists). cbn [andb negb fst snd tornWorld].
      unfold unsubscribeCommand.
      destruct (BidiConn (session w)), (LaunchResult (session w)); cbn;
        rewrite <- ?app_assoc; auto.
    + rewrite bool_decide_eq_false_2 by (by intros [? ?]). cbn [andb negb fst snd tornWorld].
      unfold unsubscribeCommand. cbn. auto.
  - cbn [andb fst snd tornWorld].
    destruct (BidiConn (session w)), (LaunchResult (session w)); cbn;
      rewrite <- ?app_assoc; auto.
Qed.

(** A teardown touches the flags of the session and the trace, nothing
    else. *)
Lemma closeSession_frame counter sendErr received w :
  let w' := tornWorld (close counter sendErr received w).1 in
  eventListeners (session w') = eventListeners (session w)
  /\ internalCmds (session w') = internalCmds (session w)
  /\ nextInternalID (session w') = nextInternalID (session w)
  /\ chanBuf w' = chanBuf w /\ chanCap w' = chanCap w /\ chanClosed w' = chanClosed w
  /\ nextChan w' = nextChan w /\ now w' = now w.
Proof.
  cbn zeta. unfold closeSession. destruct (closed (session w)); [done|].
  destruct (negb _ && _).
  - destruct (unsubscribe _ _ _) as [ [r|] wire']; cbn [fst snd tornWorld]; [|done].
    by destruct (BidiConn (session w)), (LaunchResult (session w)).
  - cbn [fst snd tornWorld]. by destruct (BidiConn (session w)), (LaunchResult (session w)).
Qed.

Lemma closeSession_sets_closed counter sendErr received w :
  closed (session (tornWorld (close counter sendErr received w).1)) = true.
Proof.
  destruct (closed (session w)) eqn:H.
  - by rewrite closeSession_closed.
  - by apply closeSession_open.
Qed.

Lemma closeAgain_closed calls w :
  closed (session w) = true ->
  closeAgain unmarshalMessage unmarshalErrorData unmarshalString calls w = w.
Proof.
  intros Hcl. induction calls as [|[ [counter sendErr] received] calls IH]; [reflexivity|].
  cbn [closeAgain]. by rewrite closeSession_closed.
Qed.

Lemma sessionWf_closeSession counter sendErr received w :
  sessionWf w -> sessionWf (tornWorld (close counter sendErr received w).1).
Proof.
  intros Hwf. destruct (closeSession_frame counter sendErr received w) as (_ & Hc & Hn & _).
  unfold sessionWf. by rewrite Hc, Hn.
Qed.

End TeardownFacts.

(* ===================================================================== *)
(** ** Command ids, routing and teardown: the main properties            *)
(* ===================================================================== *)

Section RouterClaims.
Variable parseFrame : RawMessage -> option parsedFrame.
Variable parseCommand : RawMessage -> option bidiCommand.
Variable parseGetTree : RawMessage -> Result (list string).
Variable parseCallResult : RawMessage -> option (string * string).
Variable parseElementInfo : string -> option elementInfo.
Variable env : Env.

#[local] Abbreviation route := (routeMessage parseFrame).
#[local] Abbreviation onMessage :=
  (OnClientMessage parseCommand parseGetTree parseCallResult parseElementInfo env).

(** C1 (as the code has it).  Internal ids start at 1,000,000 and each
    internal command takes the next one; client messages that are not
    extension commands go to the browser unchanged, id included.  The two
    kinds of id are kept apart only by the start value: a browser frame
    whose id is below 1,000,000, and more generally any id that is not
    pending, goes to the client, while a frame whose id is pending is put
    into the reply channel of the internal command and not sent to the
    client, whoever else uses that id. *)
Theorem internal_ids_start_at_one_million (w : World) :
  sessionWf w ->
  nextInternalID (session w) < maxInt64 ->
  (forall subscription start,
      nextInternalID (session (newWorld subscription start)) = 1000000
      /\ internalCmds (session (newWorld subscription start)) = ∅)
  /\ ((registerInternal w).1.1 = nextInternalID (session w)
      /\ 1000000 <= (registerInternal w).1.1
      /\ nextInternalID (session (registerInternal w).2) = nextInternalID (session w) + 1
      /\ sessionWf (registerInternal w).2)
  /\ (forall msg,
         closed (session w) = false ->
         match parseCommand msg with
         | Some cmd => isExtension (cmdMethod cmd) = false
         | None => True
         end ->
         onMessage msg w = (tt, emit (BidiSend msg) w))
  /\ (forall msg parsed id sendFailed others,
         parseFrame msg = Some parsed -> frameID parsed = Some id ->
         id < 1000000 ->
         returnsToClient msg w (route msg sendFailed others w))
  /\ (forall msg parsed id ch sendFailed others,
         parseFrame msg = Some parsed -> frameID parsed = Some id ->
         internalCmds (session w) !! id = Some ch ->
         trace (routeWorld (route msg sendFailed others w)) = trace w
         /\ (hasRoom ch w = true ->
             bufOf ch (routeWorld (route msg sendFailed others w)) = bufOf ch w ++ [msg])).
Proof.
  intros Hwf Hmax. split; [|split; [|split; [|split]]].
  - intros. split; reflexivity.
  - destruct (registerInternal_run w) as (Hid & _).
    destruct (sessionWf_registerInternal w Hwf Hmax) as (Hnext & Hwf').
    rewrite Hid. cbn [fst]. destruct Hwf as [Hlo _]. auto.
  - intros msg Hopen Hcmd.
    by apply (OnClientMessage_forward parseCommand parseGetTree parseCallResult
                parseElementInfo env).
  - intros msg parsed id sendFailed others Hp Hid Hlt.
    assert (internalCmds (session w) !! id = None) as Hnone.
    { destruct (internalCmds (session w) !! id) as [ch|] eqn:E; [|reflexivity].
      apply Hwf in E. lia. }
    by destruct (routeMessage_not_pending parseFrame msg parsed id sendFailed others w
                   Hp Hid Hnone) as (_ & H & _).
  - intros msg parsed id ch sendFailed others Hp Hid Hch.
    assert (0 < id) as Hpos by (apply Hwf in Hch; lia).
    destruct (routeMessage_pending parseFrame msg parsed id ch sendFailed others w
                Hp Hid Hpos Hch) as [Hr Ht].
    split; [exact Ht|]. intros Hroom. rewrite Hr, Hroom. cbn [routeWorld].
    unfold bufOf at 1. cbn [setBuf chanBuf]. by rewrite lookup_insert_eq.
Qed.

(** C2.  A frame from the browser that carries an id registered in the
    pending map is put into the reply channel of that id (the routing
    task waits at the send while the one-slot buffer is full) and is
    never forwarded to the client; from there the issuer of the command
    receives it.  A frame with an id that is not in the pending map is
    forwarded to the client verbatim, and no channel receives it. *)
Theorem browser_frames_with_id_are_routed
    (msg : RawMessage) (parsed : parsedFrame) (id : Z) (sendFailed : bool)
    (others : Others) (w : World) :
  parseFrame msg = Some parsed ->
  frameID parsed = Some id ->
  sessionWf w ->
  match internalCmds (session w) !! id with
  | Some ch =>
      route msg sendFailed others w =
        (if hasRoom ch w then Continue (setBuf ch (bufOf ch w ++ [msg]) w)
         else Blocked ch w)
      /\ trace (routeWorld (route msg sendFailed others w)) = trace w
      /\ (hasRoom ch w = true ->
          bufOf ch (routeWorld (route msg sendFailed others w)) = bufOf ch w ++ [msg])
  | None =>
      route msg sendFailed others w = forwardToClient msg sendFailed w
      /\ trace (routeWorld (route msg sendFailed others w)) = trace w ++ [ClientSend msg]
      /\ chanBuf (routeWorld (route msg sendFailed others w)) = chanBuf w
  end
  /\ (forall method w0,
         frameID parsed = Some (nextInternalID (session w0)) ->
         0 < nextInternalID (session w0) ->
         stopReady env w0 = None ->
         route msg sendFailed others (registerInternal w0).2
         = Continue (setBuf (nextChan w0) [msg] (registerInternal w0).2)
         /\ (awaitInternal env (nextInternalID (session w0)) (nextChan w0) method
               (setBuf (nextChan w0) [msg] (registerInternal w0).2)).1 = Ok msg).
Proof.
  intros Hp Hid Hwf. split.
  - destruct (internalCmds (session w) !! id) as [ch|] eqn:Hch.
    + assert (0 < id) as Hpos by (apply Hwf in Hch; lia).
      destruct (routeMessage_pending parseFrame msg parsed id ch sendFailed others w
                  Hp Hid Hpos Hch) as [Hr Ht].
      split; [exact Hr|]. split; [exact Ht|].
      intros Hroom. rewrite Hr, Hroom. cbn [routeWorld].
      unfold bufOf at 1. cbn [setBuf chanBuf]. by rewrite lookup_insert_eq.
    + exact (routeMessage_not_pending parseFrame msg parsed id sendFailed others w
               Hp Hid Hch).
  - intros method w0 Hid0 Hpos Hstop.
    exact (reply_reaches_issuer parseFrame env msg parsed sendFailed others method w0
             Hp Hid0 Hpos Hstop).
Qed.
End RouterClaims.

Section TeardownClaims.
Variable unmarshalMessage : RawMessage -> Result Bidi.Message.
Variable unmarshalErrorData : RawMessage -> Result Bidi.ErrorData.
Variable unmarshalString : RawMessage -> Result string.

#[local] Abbreviation close := (closeSession unmarshalMessage unmarshalErrorData unmarshalString).
#[local] Abbreviation again := (closeAgain unmarshalMessage unmarshalErrorData unmarshalString).
#[local] Abbreviation unsubscribe :=
  (Bidi.SessionUnsubscribeByID unmarshalMessage unmarshalErrorData unmarshalString).

(** C3 (as the code has it).  Teardown is idempotent: the first call of
    [closeSession] on an open session marks the session closed before
    anything else, so that every later call changes nothing, whatever
    becomes of the first.  Its steps are, in this order: unsubscribe the
    navigation events (only when a subscription handle is stored and the
    session has its BiDi client), then close the stop signal, then close
    the BiDi connection, then close the browser.  The unsubscribe is a
    BiDi command with the next id of the package counter, sent on the
    connection and awaited there with no timeout and no regard to the stop
    signal.  When the call of the unsubscribe returns, with the response
    or with an error, which is only logged, the other three steps
    follow: one teardown sequence.  When it does not return, because
    the response never reaches it, [closeSession] does not return either:
    the unsubscribe is all it has done, the stop signal is not closed and
    neither the connection nor the browser is closed.  For a session
    built by [OnClientConnect] with a subscription a complete teardown is
    exactly four actions, the unsubscribe first. *)
Theorem teardown_once_unsubscribe_first
    (counter : Z) (sendErr : option string) (received : list (Result RawMessage))
    (calls : list (Z * option string * list (Result RawMessage))) (w : World) :
  closed (session w) = false ->
  let s := session w in
  let id := Bidi.NextID counter in
  let answer :=
    (unsubscribe [navigationSubscriptionID s] sendErr
       {| Bidi.commandID := counter; Bidi.inbox := received; Bidi.outbox := trace w |}).1 in
  let t := close counter sendErr received w in
  let w' := tornWorld t.1 in
  closed (session w') = true
  /\ again calls w' = w'
  /\ (forall counter' sendErr' received',
        close counter' sendErr' received' w' = (TornDown w', counter'))
  /\ t.2 = (if unsubscribes s then id else counter)
  /\ (unsubscribes s = false \/ is_Some answer ->
      t.1 = TornDown w'
      /\ trace w' = trace w ++ teardownActions id s
      /\ stopChan (session w') = true)
  /\ (unsubscribes s = true -> answer = None ->
      t.1 = Unsubscribing w'
      /\ trace w' = trace w ++ [unsubscribeCommand id s]
      /\ stopChan (session w') = stopChan (session w))
  /\ (forall subscription,
         subscription <> "" ->
         teardownActions id (newSession subscription)
         = [unsubscribeCommand id (newSession subscription); CloseStopChan; BidiConnClose;
            LaunchResultClose]
         /\ unsubscribeFirstOrder (teardownActions id (newSession subscription)) = true).
Proof.
  intros Hopen. cbn zeta.
  destruct (closeSession_open unmarshalMessage unmarshalErrorData unmarshalString
              counter sendErr received w Hopen) as (Hc & Hn & Hcases).
  cbn zeta in Hcases.
  split; [exact Hc|]. split; [by apply closeAgain_closed|].
  split; [intros; by apply closeSession_closed|]. split; [exact Hn|].
  split; [|split].
  - intros Hret.
    destruct (unsubscribes (session w)) eqn:Hu; [|exact Hcases].
    destruct Hret as [Hf|Hsome]; [done|].
    by rewrite (bool_decide_eq_true_2 _ Hsome) in Hcases.
  - intros Hu Hnone. rewrite Hu, Hnone in Hcases.
    rewrite bool_decide_eq_false_2 in Hcases by (by intros [? ?]). exact Hcases.
  - intros subscription Hsub. apply String.eqb_neq in Hsub.
    unfold teardownActions, unsubscribes. cbn. rewrite Hsub. cbn. done.
Qed.

End TeardownClaims.

(* ===================================================================== *)
(** ** The properties on the fixture browser                              *)
(* ===================================================================== *)

Lemma registryFresh_new subscription start : registryFresh (newWorld subscription start).
Proof. intros method ch H. unfold listenersOf in H. cbn in H. rewrite lookup_empty in H. inversion H. Qed.

Lemma replyTable_Forall (P : RawMessage -> Prop) table id d resp :
  Forall (fun entry => P entry.2.2) table ->
  Fixture.replyTable table id = Some (d, resp) -> P resp.
Proof.
  unfold Fixture.replyTable. intros HF. induction HF as [|entry table HP _ IH]; cbn.
  - discriminate.
  - destruct (entry.1 =? id); [|exact IH]. cbn. intros [= E]. by rewrite E in HP.
Qed.

Lemma replyTable_delay table id d resp :
  Forall (fun entry => 0 < entry.2.1) table ->
  Fixture.replyTable table id = Some (d, resp) -> 0 < d.
Proof.
  unfold Fixture.replyTable. intros HF. induction HF as [|entry table HP _ IH]; cbn.
  - discriminate.
  - destruct (entry.1 =? id); [|exact IH]. cbn. intros [= E]. by rewrite E in HP.
Qed.

Section OnFixture.
Import Fixture.

#[local] Abbreviation find := (handleVibiumFind parseGetTree parseCallResult parseElementInfo).
#[local] Abbreviation click := (handleVibiumClick parseGetTree parseCallResult parseElementInfo).
#[local] Abbreviation type := (handleVibiumType parseGetTree parseCallResult parseElementInfo).
#[local] Abbreviation wait := (waitForElement parseCallResult parseElementInfo).
#[local] Abbreviation onMessage :=
  (OnClientMessage parseCommand parseGetTree parseCallResult parseElementInfo absentEnv).

(** While the internal command 1,000,000 is pending, a client sends a
    command with the id 1,000,000.  It goes to the browser unchanged; the
    browser's response to it is put into the reply channel of the
    internal command, whose issuer takes it for its own reply, and the
    client receives nothing. *)
Lemma client_id_collision_is_captured :
  let forwarded := (onMessage clientGetTree pending).2 in
  let routed := routeMessage parseFrame clientGetTreeResponse false nobody forwarded in
  internalCmds (session pending) !! 1000000 = Some 0%nat
  /\ cmdID <$> parseCommand clientGetTree = Some 1000000
  /\ trace forwarded = [BidiSend clientGetTree]
  /\ ~ returnsToClient clientGetTreeResponse forwarded routed
  /\ trace (routeWorld routed) = trace forwarded
  /\ bufOf 0%nat (routeWorld routed) = [clientGetTreeResponse]
  /\ (awaitInternal absentEnv 1000000 0%nat "script.callFunction" (routeWorld routed)).1
     = Ok clientGetTreeResponse.
Proof.
  cbn zeta. repeat split; try (vm_compute; reflexivity).
  unfold returnsToClient. vm_compute. discriminate.
Qed.

Lemma internal_ids_start_at_one_million_witness :
  sessionWf connected
  /\ nextInternalID (session connected) < maxInt64
  /\ (registerInternal connected).1.1 = 1000000
  /\ nextInternalID (session pending) = 1000001
  /\ onMessage clientGetTree connected = (tt, emit (BidiSend clientGetTree) connected)
  /\ returnsToClient (getTreeReply 41) connected
       (routeMessage parseFrame (getTreeReply 41) false nobody connected).
Proof.
  assert (sessionWf connected) as Hwf by apply sessionWf_new.
  assert (nextInternalID (session connected) < maxInt64) as Hmax by (vm_compute; reflexivity).
  destruct (internal_ids_start_at_one_million parseFrame parseCommand parseGetTree
              parseCallResult parseElementInfo absentEnv connected Hwf Hmax)
    as (_ & (Hid & _ & Hnext & _) & Hfwd & Hlow & _).
  split; [exact Hwf|]. split; [exact Hmax|]. split; [exact Hid|]. split; [exact Hnext|].
  split.
  - apply Hfwd; vm_compute; reflexivity.
  - apply (Hlow (getTreeReply 41) {| frameID := Some 41; frameMethod := "" |} 41 false
             nobody);
      vm_compute; reflexivity.
Defined.

Lemma browser_frames_with_id_are_routed_witness :
  parseFrame clientGetTreeResponse = Some {| frameID := Some 1000000; frameMethod := "" |}
  /\ sessionWf pending
  /\ routeMessage parseFrame clientGetTreeResponse false nobody pending
     = Continue (setBuf 0%nat [clientGetTreeResponse] pending)
  /\ trace (routeWorld (routeMessage parseFrame clientGetTreeResponse false nobody pending))
     = trace pending.
Proof.
  assert (parseFrame clientGetTreeResponse
          = Some {| frameID := Some 1000000; frameMethod := "" |}) as Hp
    by (vm_compute; reflexivity).
  assert (sessionWf pending) as Hwf.
  { apply sessionWf_registerInternal; [apply sessionWf_new | vm_compute; reflexivity]. }
  pose proof (proj1 (browser_frames_with_id_are_routed parseFrame absentEnv
                       clientGetTreeResponse _ 1000000 false nobody pending Hp eq_refl
                       Hwf)) as H.
  destruct H as (Hr & Ht & _).
  split; [exact Hp|]. split; [exact Hwf|]. split; [exact Hr | exact Ht].
Defined.

(** One teardown of a connected session (the BiDi counter stands at 1
    after the subscription).  When the unsubscribe is answered, it comes
    before the stop signal, not after it.  When the response does not
    reach the call, the call does not return: the unsubscribe is sent,
    the stop signal stays open, and neither the connection nor the
    browser is closed. *)
Lemma teardown_unsubscribes_before_stop :
  (closeSession unmarshalMessage unmarshalErrorData unmarshalString
     1 None [Ok (doneReply 2)] connected).1 = TornDown stopped
  /\ trace stopped
     = [BidiSendCommand 2 "session.unsubscribe" (Bidi.unsubscribeByIDParams ["sub-1"]);
        CloseStopChan; BidiConnClose; LaunchResultClose]
  /\ stopFirstOrder (trace stopped) = false
  /\ precedes isStopSignal isUnsubscribe (trace stopped) = false
  /\ unanswered = Unsubscribing (tornWorld unanswered)
  /\ trace (tornWorld unanswered)
     = [BidiSendCommand 2 "session.unsubscribe" (Bidi.unsubscribeByIDParams ["sub-1"])]
  /\ closed (session (tornWorld unanswered)) = true
  /\ stopChan (session (tornWorld unanswered)) = false.
Proof. repeat split; vm_compute; reflexivity. Qed.

Lemma teardown_once_unsubscribe_first_witness :
  let calls := [(2, None, [Ok (doneReply 3)]); (2, Some "closed", []); (7, None, [])] in
  closed (session connected) = false
  /\ closeAgain unmarshalMessage unmarshalErrorData unmarshalString calls stopped = stopped
  /\ (closeSession unmarshalMessage unmarshalErrorData unmarshalString
        1 None [Ok (doneReply 2)] connected).1 = TornDown stopped
  /\ trace stopped
     = trace connected ++ teardownActions (Bidi.NextID 1) (session connected)
  /\ stopChan (session stopped) = true.
Proof.
  assert (closed (session connected) = false) as Hopen by reflexivity.
  destruct (teardown_once_unsubscribe_first unmarshalMessage unmarshalErrorData
              unmarshalString 1 None [Ok (doneReply 2)]
              [(2, None, [Ok (doneReply 3)]); (2, Some "closed", []); (7, None, [])]
              connected Hopen) as (_ & Hagain & _ & _ & Hdone & _).
  destruct Hdone as (Ht & Htr & Hs); [right; vm_compute; by eexists|].
  cbn zeta. split; [exact Hopen|]. split; [exact Hagain|].
  split; [exact Ht|]. split; [exact Htr | exact Hs].
Defined.

(** With the stop signal closed, the polling loop still runs past its
    deadline and reports the element-not-found timeout, and the first
    navigation wait of a click still waits for its timer. *)
Lemma polling_and_navigation_waits_ignore_stop :
  let polled := wait absentEnv "ctx-1" "#nope" (300 * Millisecond) stopped in
  let listening := registerListeners "waitForLoad" stopped in
  let waited := waitNavigation absentEnv "waitForLoad" (300 * Millisecond)
                  (now stopped + 300 * Millisecond) listening.1 listening.2 in
  stopChan (session stopped) = true
  /\ ~ wakesAborted polled.1
  /\ polled.1 = Err "timeout after 300ms waiting for '#nope': element not found"
  /\ now polled.2 = now stopped + 400 * Millisecond
  /\ ~ wakesAborted waited.1
  /\ waited.1 = Err "timeout after 300ms waiting for navigation to start"
  /\ now waited.2 = now stopped + 300 * Millisecond.
Proof.
  cbn zeta. repeat split; try (vm_compute; reflexivity);
    unfold wakesAborted; vm_compute; discriminate.
Qed.

Lemma stop_signal_wakes_internal_wait_witness :
  stopReady absentEnv stopped = Some 0
  /\ sendFails absentEnv (nextInternalID (session stopped)) = None
  /\ (sendInternalCommand absentEnv "browsingContext.getTree" (JObj []) stopped).1
     = Err "session closed"
  /\ now (sendInternalCommand absentEnv "browsingContext.getTree" (JObj []) stopped).2 = 0.
Proof.
  assert (stopReady absentEnv stopped = Some 0) as Hs by reflexivity.
  assert (0 < now stopped + 60 * Second) as Hcap by (vm_compute; reflexivity).
  assert (forall d resp,
             replyOf absentEnv (nextInternalID (session stopped)) = Some (d, resp) ->
             0 < now stopped + Z.max 0 d) as Hreply.
  { intros d resp H. vm_compute in H. injection H as <- _. vm_compute. reflexivity. }
  assert (sendFails absentEnv (nextInternalID (session stopped)) = None) as Hsend
    by reflexivity.
  destruct (stop_signal_wakes_internal_wait parseCallResult parseElementInfo absentEnv
              "browsingContext.getTree" (JObj []) stopped 0 Hs Hcap Hreply Hsend)
    as ((Hr & Ht) & _).
  split; [exact Hs|]. split; [exact Hsend|]. split; [exact Hr | exact Ht].
Defined.

Lemma listeners_removed_on_every_exit_witness :
  registryFresh connected
  /\ noListenerLeft connected (find offscreenEnv (clickBack "waitForLoad") connected).2
  /\ noListenerLeft connected (click offscreenEnv (clickBack "waitForLoad") connected).2
  /\ noListenerLeft connected (type offscreenEnv (clickBack "waitForLoad") connected).2.
Proof.
  assert (registryFresh connected) as F by apply registryFresh_new.
  split; [exact F|].
  exact (listeners_removed_on_every_exit parseGetTree parseCallResult parseElementInfo
           offscreenEnv (clickBack "waitForLoad") connected F).
Defined.

Lemma find_absent_times_out_witness :
  neverFound parseCallResult parseElementInfo absentEnv
  /\ (resolveContext parseGetTree absentEnv "" connected).1 = Ok "ctx-1"
  /\ exists l,
       trace (find absentEnv findNope connected).2
       = l ++ [ClientSendResponse
                 {| respID := 1; respType := "error"; respResult := None;
                    respError :=
                      Some {| errError := "timeout";
                              errMessage :=
                                "timeout after 300ms waiting for '#nope': element not found" |} |}]
       /\ Forall isBidiCommand l.
Proof.
  assert (neverFound parseCallResult parseElementInfo absentEnv) as Hnf.
  { intros id d resp H.
    apply (replyTable_Forall
             (fun resp => pollResult parseCallResult parseElementInfo (Ok resp) = None)
             absentReplies id d resp); [|exact H].
    repeat constructor. }
  assert ((resolveContext parseGetTree absentEnv
             (paramString (cmdParams findNope) "context") connected).1 = Ok "ctx-1") as Hctx
    by (vm_compute; reflexivity).
  split; [exact Hnf|]. split; [exact Hctx|].
  exact (proj1 (find_absent_times_out parseGetTree parseCallResult parseElementInfo
                  absentEnv findNope connected "ctx-1" Hnf Hctx)).
Defined.

(** The link left of and above the viewport has its centre at
    (-8.5, -15.25); the click goes to (-8, -15), the centre rounded down
    is (-9, -16). *)
Lemma click_point_is_not_floor :
  ~ clicksAtFloor "ctx-1" offscreenLink
  /\ pointerMoveOf (clickParams "ctx-1" offscreenLink) = Some (-8, -15)
  /\ (floorFloat (centerX offscreenLink), floorFloat (centerY offscreenLink)) = (-9, -16)
  /\ trace (click offscreenEnv (clickBack "none") connected).2 !! 2%nat
     = Some (BidiSendCommand 1000002 "input.performActions"
               (clickParams "ctx-1" offscreenLink)).
Proof.
  repeat split; try (vm_compute; reflexivity).
  unfold clicksAtFloor. vm_compute. discriminate.
Qed.

Lemma click_point_truncates_center_witness :
  (resolveContext parseGetTree offscreenEnv "" connected).1 = Ok "ctx-1"
  /\ finiteInRange (centerX offscreenLink)
  /\ finiteInRange (centerY offscreenLink)
  /\ (exists n, BidiSendCommand n "input.performActions" (clickParams "ctx-1" offscreenLink)
                ∈ trace (click offscreenEnv (clickBack "none") connected).2)
  /\ pointerMoveOf (clickParams "ctx-1" offscreenLink)
     = Some (truncFloat (centerX offscreenLink), truncFloat (centerY offscreenLink)).
Proof.
  assert ((resolveContext parseGetTree offscreenEnv
             (paramString (cmdParams (clickBack "none")) "context") connected).1
          = Ok "ctx-1") as Hctx by (vm_compute; reflexivity).
  assert (finiteInRange (centerX offscreenLink)) as Hx
    by (vm_compute; split; discriminate).
  assert (finiteInRange (centerY offscreenLink)) as Hy
    by (vm_compute; split; discriminate).
  destruct (click_point_truncates_center parseGetTree parseCallResult parseElementInfo
              offscreenEnv (clickBack "none") connected "ctx-1" offscreenLink Hctx)
    as (Hsent & _ & Htrunc & _); [vm_compute; reflexivity | exact Hx | exact Hy |].
  split; [exact Hctx|]. split; [exact Hx|]. split; [exact Hy|].
  split; [exact Hsent | exact Htrunc].
Defined.

(** With "waitForNetworkIdle": the click succeeds as soon as the navigation
    has started, although the page never finishes loading (with
    "waitForLoad" the same run times out waiting for the page load); when
    no navigation starts, it fails waiting for the navigation to start. *)
Lemma unrecognized_waitBehavior_waits_for_navigationStarted_witness :
  paramString (cmdParams (clickBack "waitForNetworkIdle")) "waitBehavior"
  = "waitForNetworkIdle"
  /\ click startedOnlyEnv (clickBack "waitForNetworkIdle") connected
     = clickAwaitingNavigationStarted parseGetTree parseCallResult parseElementInfo
         startedOnlyEnv (clickBack "waitForNetworkIdle") connected
  /\ click startedOnlyEnv (clickBack "waitForNetworkIdle") connected
     = click startedOnlyEnv
         (withWaitBehavior "waitForNavigationStarted" (clickBack "waitForNetworkIdle"))
         connected
  /\ registerListeners "waitForNetworkIdle" connected
     = ((Some 0%nat, None, None), (addEventListener navigationStarted connected).2)
  /\ last (trace (click startedOnlyEnv (clickBack "waitForNetworkIdle") connected).2)
     = Some (ClientSendResponse
               {| respID := 7; respType := "success";
                  respResult := Some (JObj [("clicked", JBool true)]);
                  respError := None |})
  /\ last (trace (click startedOnlyEnv (clickBack "waitForLoad") connected).2)
     = Some (ClientSendResponse
               {| respID := 7; respType := "error"; respResult := None;
                  respError :=
                    Some {| errError := "timeout";
                            errMessage := "timeout after 30s waiting for page load" |} |})
  /\ last (trace (click Scenario.stillEnv (clickBack "waitForNetworkIdle") connected).2)
     = Some (ClientSendResponse
               {| respID := 7; respType := "error"; respResult := None;
                  respError :=
                    Some {| errError := "timeout";
                            errMessage :=
                              "timeout after 30s waiting for navigation to start" |} |}).
Proof.
  assert (paramString (cmdParams (clickBack "waitForNetworkIdle")) "waitBehavior"
          = "waitForNetworkIdle") as Hwb by reflexivity.
  destruct (unrecognized_waitBehavior_waits_for_navigationStarted parseGetTree
              parseCallResult parseElementInfo startedOnlyEnv
              (clickBack "waitForNetworkIdle") "waitForNetworkIdle" connected Hwb
              ltac:(discriminate) ltac:(discriminate) ltac:(discriminate)
              ltac:(discriminate))
    as (Hspec & _ & Hclick & _ & Hreg & _).
  split; [exact Hwb|]. split; [exact Hspec|]. split; [exact Hclick|].
  split; [exact (Hreg connected)|].
  repeat split; vm_compute; reflexivity.
Defined.

Lemma error_frames_carry_timeout_code_witness :
  paramString (cmdParams findNope) "context" = ""
  /\ (getContext parseGetTree noContextEnv connected).1
     = Err "no browsing contexts available"
  /\ trace (find noContextEnv findNope connected).2
     = trace (getContext parseGetTree noContextEnv connected).2
         ++ [ClientSendResponse
               {| respID := 1; respType := "error"; respResult := None;
                  respError := Some {| errError := "timeout";
                                       errMessage := "no browsing contexts available" |} |}]
  /\ extends timeoutCoded connected (click offscreenEnv (clickBack "") connected).2.
Proof.
  assert (paramString (cmdParams findNope) "context" = "") as Hctx by reflexivity.
  assert ((getContext parseGetTree noContextEnv connected).1
          = Err "no browsing contexts available") as He by (vm_compute; reflexivity).
  destruct (error_frames_carry_timeout_code parseGetTree parseCallResult parseElementInfo
              noContextEnv) as (_ & Hcause & _).
  destruct (error_frames_carry_timeout_code parseGetTree parseCallResult parseElementInfo
              offscreenEnv) as (Hall & _).
  split; [exact Hctx|]. split; [exact He|].
  split; [exact (proj1 (Hcause findNope connected _ Hctx He))|].
  exact (proj1 (proj2 (Hall (clickBack "") connected))).
Defined.

(** The end-to-end scenarios of a click that waits for the load event
    and of typing "ab" without waiting. *)
Example click_with_load :
  last (trace (click offscreenEnv (clickBack "") connected).2)
  = Some (ClientSendResponse
            {| respID := 7; respType := "success";
               respResult := Some (JObj [("clicked", JBool true)]);
               respError := None |}).
Proof. vm_compute. reflexivity. Qed.

Example type_no_wait :
  let sent := trace (type offscreenEnv (typeBack "") connected).2 in
  sent !! 2%nat
  = Some (BidiSendCommand 1000002 "input.performActions"
            (clickParams "ctx-1" offscreenLink))
  /\ sent !! 3%nat
     = Some (BidiSendCommand 1000003 "input.performActions"
               (JObj [("context", JStr "ctx-1");
                      ("actions",
                       JArr [JObj [("type", JStr "key"); ("id", JStr "keyboard");
                                   ("actions",
                                    JArr [JObj [("type", JStr "keyDown"); ("value", JStr "a")];
                                          JObj [("type", JStr "keyUp"); ("value", JStr "a")];
                                          JObj [("type", JStr "keyDown"); ("value", JStr "b")];
                                          JObj [("type", JStr "keyUp"); ("value", JStr "b")]])]])]))
  /\ sent !! 4%nat
     = Some (ClientSendResponse
               {| respID := 9; respType := "success";
                  respResult := Some (JObj [("typed", JBool true)]);
                  respError := None |}).
Proof. cbn zeta. repeat split; vm_compute; reflexivity. Qed.
End OnFixture.

(* ===================================================================== *)
(** ** Lifting a relation from the primitives to the extension commands  *)
(* ===================================================================== *)

Section Lifting.
Variable parseGetTree : RawMessage -> Result (list string).
Variable parseCallResult : RawMessage -> option (string * string).
Variable parseElementInfo : string -> option elementInfo.
Variable env : Env.
Variable R : relation World.
Context `{!PreOrder R}.

Hypothesis R_internal :
  forall method params, preserves R (sendInternalCommand env method params).
Hypothesis R_clock : forall w t, now w <= t -> R w (setNow t w).
Hypothesis R_take : forall w ch, R w (takeFrom ch w).
Hypothesis R_add : forall method, preserves R (addEventListener method).
Hypothesis R_remove : forall method ch, preserves R (removeEventListener method ch).
Hypothesis R_reply : forall resp w, R w (emit (ClientSendResponse resp) w).

Lemma lift_getContext : preserves R (getContext parseGetTree env).
Proof.
  unfold getContext. apply preserves_bind; [apply _ | apply R_internal |].
  intros r. apply preserves_ret, _.
Qed.

Lemma lift_resolveContext context : preserves R (resolveContext parseGetTree env context).
Proof.
  unfold resolveContext. destruct (context =? "")%string.
  - apply lift_getContext.
  - apply preserves_ret, _.
Qed.

Lemma lift_timeSleep d : preserves R (timeSleep d).
Proof. intros w. unfold timeSleep. run. apply R_clock. lia. Qed.

Lemma lift_waitForElementLoop fuel context selector timeout deadline :
  preserves R (waitForElementLoop parseCallResult parseElementInfo env fuel context
                 selector timeout deadline).
Proof.
  induction fuel as [|fuel IH]; cbn [waitForElementLoop].
  - apply preserves_ret, _.
  - apply preserves_bind; [apply _ | apply R_internal |].
    intros r. destruct (pollResult _ _ r); [apply preserves_ret, _|].
    apply preserves_bind; [apply _ | intros w; reflexivity |].
    intros t. destruct (deadline <? t); [apply preserves_ret, _|].
    apply preserves_bind; [apply _ | apply lift_timeSleep |]. intros _. exact IH.
Qed.

Lemma lift_waitForElement context selector timeout :
  preserves R (waitForElement parseCallResult parseElementInfo env context selector timeout).
Proof.
  unfold waitForElement.
  apply preserves_bind; [apply _ | intros w; reflexivity |]. intros t.
  apply preserves_bind; [apply _ | apply lift_waitForElementLoop |]. intros r.
  apply preserves_ret, _.
Qed.

Lemma lift_awaitEvent method ch deadline : preserves R (awaitEvent env method ch deadline).
Proof.
  intros w. pose proof (awaitEvent_time env method ch deadline w) as Hnow.
  unfold awaitEvent in *. cbn [snd] in *.
  destruct (selectCase _ _ _) as [t got]. cbn [fst snd now setNow] in *.
  destruct got, ch as [c|]; cbn [from_option]; try (by apply R_clock).
  etrans; [apply (R_take w c)|]. apply R_clock.
  unfold takeFrom. destruct (bufOf c w); exact Hnow.
Qed.

Lemma lift_waitNavigation waitBehavior timeout deadline chs :
  preserves R (waitNavigation env waitBehavior timeout deadline chs).
Proof.
  unfold waitNavigation. destruct (negb _); [|apply preserves_ret, _].
  apply preserves_bind; [apply _ | apply lift_awaitEvent |]. intros started.
  destruct (negb started); [apply preserves_ret, _|].
  destruct (waitBehavior =? "waitForDomContentLoaded")%string.
  { apply preserves_bind; [apply _ | apply lift_awaitEvent |]. intros ?.
    apply preserves_ret, _. }
  destruct (waitBehavior =? "waitForLoad")%string.
  { apply preserves_bind; [apply _ | apply lift_awaitEvent |]. intros ?.
    apply preserves_ret, _. }
  apply preserves_ret, _.
Qed.

Lemma lift_listenIf cond method : preserves R (listenIf cond method).
Proof.
  unfold listenIf. destruct cond; [|apply preserves_ret, _].
  apply preserves_bind; [apply _ | apply R_add |]. intros ch. apply preserves_ret, _.
Qed.

Lemma lift_registerListeners waitBehavior : preserves R (registerListeners waitBehavior).
Proof.
  unfold registerListeners.
  repeat (apply preserves_bind; [apply _ | apply lift_listenIf | intros ?]).
  apply preserves_ret, _.
Qed.

Lemma lift_removeIf method ch : preserves R (removeIf method ch).
Proof. destruct ch as [c|]; [apply R_remove | apply preserves_ret, _]. Qed.

Lemma lift_cleanupListeners chs : preserves R (cleanupListeners chs).
Proof.
  unfold cleanupListeners.
  repeat (apply preserves_bind; [apply _ | apply lift_removeIf | intros ?]).
  apply lift_removeIf.
Qed.

Lemma lift_sendError id err : preserves R (sendError id err).
Proof. intros w. apply R_reply. Qed.

Lemma lift_sendSuccess id result : preserves R (sendSuccess id result).
Proof. intros w. apply R_reply. Qed.

Lemma lift_performAndWait id waitBehavior timeout deadline params result chs :
  preserves R (performAndWait env id waitBehavior timeout deadline params result chs).
Proof.
  unfold performAndWait.
  apply preserves_bind; [apply _ | apply R_internal |]. intros [resp|e].
  - apply preserves_bind; [apply _ | apply lift_waitNavigation |]. intros [[]|e];
      (apply preserves_bind; [apply _ | apply lift_cleanupListeners | intros ?]);
      [apply lift_sendSuccess | apply lift_sendError].
  - apply preserves_bind; [apply _ | apply lift_cleanupListeners | intros ?].
    apply lift_sendError.
Qed.

Lemma lift_click cmd :
  preserves R (handleVibiumClick parseGetTree parseCallResult parseElementInfo env cmd).
Proof.
  unfold handleVibiumClick.
  apply preserves_bind; [apply _ | intros w; reflexivity |]. intros t.
  apply preserves_bind; [apply _ | apply lift_resolveContext |]. intros [context|e];
    [|apply lift_sendError].
  apply preserves_bind; [apply _ | intros w; reflexivity |]. intros remaining.
  apply preserves_bind; [apply _ | apply lift_waitForElement |]. intros [info|e];
    [|apply lift_sendError].
  apply preserves_bind; [apply _ | apply lift_registerListeners |]. intros chs.
  apply lift_performAndWait.
Qed.

Lemma lift_type cmd :
  preserves R (handleVibiumType parseGetTree parseCallResult parseElementInfo env cmd).
Proof.
  unfold handleVibiumType.
  apply preserves_bind; [apply _ | intros w; reflexivity |]. intros t.
  apply preserves_bind; [apply _ | apply lift_resolveContext |]. intros [context|e];
    [|apply lift_sendError].
  apply preserves_bind; [apply _ | intros w; reflexivity |]. intros remaining.
  apply preserves_bind; [apply _ | apply lift_waitForElement |]. intros [info|e];
    [|apply lift_sendError].
  apply preserves_bind; [apply _ | apply R_internal |]. intros [resp|e];
    [|apply lift_sendError].
  apply preserves_bind; [apply _ | apply lift_registerListeners |]. intros chs.
  apply lift_performAndWait.
Qed.

Lemma lift_find cmd :
  preserves R (handleVibiumFind parseGetTree parseCallResult parseElementInfo env cmd).
Proof.
  unfold handleVibiumFind.
  apply preserves_bind; [apply _ | apply lift_resolveContext |]. intros [context|e];
    [|apply lift_sendError].
  apply preserves_bind; [apply _ | apply lift_waitForElement |]. intros [info|e];
    [|apply lift_sendError].
  apply lift_sendSuccess.
Qed.
End Lifting.

(* ===================================================================== *)
(** ** Extension commands: session state, replies and duration            *)
(* ===================================================================== *)

#[global] Instance untouched_preorder : PreOrder untouched.
Proof.
  split.
  - intros w. split; [by intros id ch H | repeat split].
  - intros w1 w2 w3 [P12 K12] [P23 K23]. split.
    + intros id ch H. by apply P12, P23.
    + destruct K12 as (?&?&?&?&?&?), K23 as (?&?&?&?&?&?).
      repeat split; congruence.
Qed.

Lemma untouched_same_session w w' : session w' = session w -> untouched w w'.
Proof.
  intros E. unfold untouched, pendingShrinks, sessionKept. rewrite E. repeat split; auto.
Qed.

Lemma untouched_listeners w ls w' :
  session w' = setListeners ls (session w) -> untouched w w'.
Proof.
  intros E. unfold untouched, pendingShrinks, sessionKept. rewrite E. repeat split; auto.
Qed.

Lemma untouched_sendInternalCommand env method params :
  preserves untouched (sendInternalCommand env method params).
Proof.
  intros w. destruct (sendInternalCommand_world env method params w) as (Hs & _).
  cbn zeta in Hs. unfold untouched, pendingShrinks, sessionKept. rewrite Hs.
  split; [|repeat split].
  intros id ch. cbn [internalCmds setInternal]. rewrite lookup_delete.
  case_decide; [discriminate | done].
Qed.

Lemma untouched_addEventListener method : preserves untouched (addEventListener method).
Proof. intros w. eapply untouched_listeners. unfold addEventListener. run. reflexivity. Qed.

Lemma untouched_removeEventListener method ch :
  preserves untouched (removeEventListener method ch).
Proof.
  intros w. unfold removeEventListener. destruct (removeFirst _ _); [|reflexivity].
  eapply untouched_listeners. run. reflexivity.
Qed.

Lemma untouched_takeFrom w ch : untouched w (takeFrom ch w).
Proof. apply untouched_same_session. unfold takeFrom. by destruct (bufOf ch w). Qed.

Section CommandFacts.
Variable parseGetTree : RawMessage -> Result (list string).
Variable parseCallResult : RawMessage -> option (string * string).
Variable parseElementInfo : string -> option elementInfo.
Variable env : Env.

#[local] Abbreviation click := (handleVibiumClick parseGetTree parseCallResult parseElementInfo env).
#[local] Abbreviation type := (handleVibiumType parseGetTree parseCallResult parseElementInfo env).
#[local] Abbreviation find := (handleVibiumFind parseGetTree parseCallResult parseElementInfo env).

(** X1.  An extension command leaves the session as it found it: the
    closed flag, the stop signal, the three handles and the navigation
    subscription are unchanged, and no internal id is pending afterwards
    that was not pending before; with nothing pending before, nothing is
    pending after. *)
Theorem extension_commands_leave_session_untouched (cmd : bidiCommand) (w : World) :
  (untouched w (find cmd w).2 /\ untouched w (click cmd w).2 /\ untouched w (type cmd w).2)
  /\ (internalCmds (session w) = ∅ ->
      internalCmds (session (find cmd w).2) = ∅
      /\ internalCmds (session (click cmd w).2) = ∅
      /\ internalCmds (session (type cmd w).2) = ∅).
Proof.
  assert (forall h,
             h = find cmd \/ h = click cmd \/ h = type cmd -> untouched w (h w).2) as Hall.
  { intros h [-> | [-> | ->] ];
      [apply lift_find | apply lift_click | apply lift_type];
      try apply _;
      try apply untouched_sendInternalCommand;
      try apply untouched_addEventListener;
      try apply untouched_removeEventListener;
      try apply untouched_takeFrom;
      intros; by apply untouched_same_session. }
  split.
  - repeat split; apply Hall; auto.
  - intros Hempty.
    assert (forall w', untouched w w' -> internalCmds (session w') = ∅) as He.
    { intros w' [P _]. apply map_empty. intros id.
      destruct (internalCmds (session w') !! id) as [ch|] eqn:E; [|reflexivity].
      apply P in E. rewrite Hempty in E. by rewrite lookup_empty in E. }
    repeat split; apply He, Hall; auto.
Qed.

(** *** One reply per command *)

Lemma answered_after id w w1 w2 :
  extends isBidiCommand w w1 -> answered id w1 w2 -> answered id w w2.
Proof.
  intros (l1 & H1 & F1) (l2 & resp & H2 & F2 & Hid & Hty).
  exists (l1 ++ l2), resp. rewrite H2, H1, <- !app_assoc.
  repeat split; auto. by apply Forall_app.
Qed.

Lemma answered_bind {A} id (m : M A) (f : A -> M unit) w :
  preserves (extends isBidiCommand) m ->
  (forall a w1, answered id w1 (f a w1).2) ->
  answered id w ((m ≫= f) w).2.
Proof. intros Hm Hf. rewrite bind_run. eapply answered_after; [apply Hm | apply Hf]. Qed.

Lemma answered_sendError id err w : answered id w (sendError id err w).2.
Proof.
  rewrite sendError_run. exists [], (errorFrame id err).
  repeat split; [constructor|]. right. by exists err.
Qed.

Lemma answered_sendSuccess id result w : answered id w (sendSuccess id result w).2.
Proof.
  rewrite sendSuccess_run. eexists [], _. repeat split; [constructor|].
  left. repeat split. by eexists.
Qed.

Lemma silent_quiet {A} (m : M A) :
  preserves quiet m -> preserves (extends isBidiCommand) m.
Proof. intros Q w. exact (quiet_trace _ _ (Q w)). Qed.

Lemma silent_same_trace {A} (m : M A) :
  (forall w, trace (m w).2 = trace w) -> preserves (extends isBidiCommand) m.
Proof. intros H w. exists []. by rewrite H, app_nil_r. Qed.

Lemma silent_registerListeners waitBehavior :
  preserves (extends isBidiCommand) (registerListeners waitBehavior).
Proof.
  apply silent_same_trace. intros w.
  by destruct (registerListeners_run waitBehavior w) as (_ & _ & _ & ->).
Qed.

Lemma silent_cleanupListeners chs :
  preserves (extends isBidiCommand) (cleanupListeners chs).
Proof.
  apply silent_same_trace. intros w.
  by destruct (cleanupListeners_run chs w) as (_ & _ & ->).
Qed.

Lemma answered_performAndWait id waitBehavior timeout deadline params result chs w :
  answered id w (performAndWait env id waitBehavior timeout deadline params result chs w).2.
Proof.
  unfold performAndWait.
  apply answered_bind; [apply silent_quiet, quiet_sendInternalCommand|].
  intros [resp|e] w1.
  - apply answered_bind; [apply silent_quiet, quiet_waitNavigation|].
    intros [[]|e] w2;
      (apply answered_bind; [apply silent_cleanupListeners|]); intros _ w3;
      [apply answered_sendSuccess | apply answered_sendError].
  - apply answered_bind; [apply silent_cleanupListeners|]. intros _ w3.
    apply answered_sendError.
Qed.

(** X2.  Every run of [vibium:find], [vibium:click] or [vibium:type]
    sends exactly one frame to the client, as its last action: a response
    with the id of the command, either a success with a result or an error
    frame.  Everything sent before it is an internal command to the
    browser; the [vibium:] message itself is never forwarded. *)
Theorem extension_commands_answer_once (cmd : bidiCommand) (w : World) :
  answered (cmdID cmd) w (find cmd w).2
  /\ answered (cmdID cmd) w (click cmd w).2
  /\ answered (cmdID cmd) w (type cmd w).2.
Proof.
  split; [|split].
  - unfold handleVibiumFind.
    apply answered_bind; [apply silent_quiet, quiet_resolveContext|].
    intros [context|e] w1; [|apply answered_sendError].
    apply answered_bind; [apply silent_quiet, quiet_waitForElement|].
    intros [info|e] w2; [apply answered_sendSuccess | apply answered_sendError].
  - unfold handleVibiumClick.
    apply answered_bind; [apply silent_quiet, quiet_timeNow|]. intros t w0.
    apply answered_bind; [apply silent_quiet, quiet_resolveContext|].
    intros [context|e] w1; [|apply answered_sendError].
    apply answered_bind; [apply silent_quiet, quiet_remainingTime|]. intros remaining w1'.
    apply answered_bind; [apply silent_quiet, quiet_waitForElement|].
    intros [info|e] w2; [|apply answered_sendError].
    apply answered_bind; [apply silent_registerListeners|]. intros chs w3.
    apply answered_performAndWait.
  - unfold handleVibiumType.
    apply answered_bind; [apply silent_quiet, quiet_timeNow|]. intros t w0.
    apply answered_bind; [apply silent_quiet, quiet_resolveContext|].
    intros [context|e] w1; [|apply answered_sendError].
    apply answered_bind; [apply silent_quiet, quiet_remainingTime|]. intros remaining w1'.
    apply answered_bind; [apply silent_quiet, quiet_waitForElement|].
    intros [info|e] w2; [|apply answered_sendError].
    apply answered_bind; [apply silent_quiet, quiet_sendInternalCommand|].
    intros [resp|e] w3; [|apply answered_sendError].
    apply answered_bind; [apply silent_registerListeners|]. intros chs w4.
    apply answered_performAndWait.
Qed.
End CommandFacts.

(* ===================================================================== *)
(** ** How long the extension commands take                               *)
(* ===================================================================== *)

Lemma Second_pos : 0 < 60 * Second.
Proof. unfold Second, Millisecond, Microsecond, Nanosecond. lia. Qed.

Lemma interval_pos : 0 < interval.
Proof. unfold interval, Millisecond, Microsecond, Nanosecond. lia. Qed.

Lemma now_addEventListener method w : now (addEventListener method w).2 = now w.
Proof. unfold addEventListener. by run. Qed.

Lemma now_removeEventListener method ch w : now (removeEventListener method ch w).2 = now w.
Proof. unfold removeEventListener. destruct (removeFirst _ _); by run. Qed.

Lemma now_registerListeners waitBehavior w : now (registerListeners waitBehavior w).2 = now w.
Proof.
  unfold registerListeners, listenIf.
  destruct (negb _), (waitBehavior =? "waitForDomContentLoaded")%string,
    (waitBehavior =? "waitForLoad")%string; run; by rewrite ?now_addEventListener.
Qed.

Lemma now_cleanupListeners chs w : now (cleanupListeners chs w).2 = now w.
Proof.
  destruct chs as [[c1 c2] c3]. unfold cleanupListeners, removeIf. run.
  destruct c1, c2, c3; run; by rewrite ?now_removeEventListener.
Qed.

Section DurationFacts.
Variable parseGetTree : RawMessage -> Result (list string).
Variable parseCallResult : RawMessage -> option (string * string).
Variable parseElementInfo : string -> option elementInfo.
Variable env : Env.

#[local] Abbreviation click := (handleVibiumClick parseGetTree parseCallResult parseElementInfo env).
#[local] Abbreviation type := (handleVibiumType parseGetTree parseCallResult parseElementInfo env).
#[local] Abbreviation find := (handleVibiumFind parseGetTree parseCallResult parseElementInfo env).
#[local] Abbreviation loop := (waitForElementLoop parseCallResult parseElementInfo env).
#[local] Abbreviation wait := (waitForElement parseCallResult parseElementInfo env).

(** An internal command returns within sixty seconds. *)
Lemma sendInternalCommand_within method params w :
  within (60 * Second) w (sendInternalCommand env method params w).2.
Proof.
  split; [apply (quiet_now _ _ (quiet_sendInternalCommand env method params w))|].
  rewrite sendInternalCommand_now. pose proof Second_pos.
  destruct (sendFails env _); [lia|].
  unfold callSelect, internalSelect.
  match goal with |- (selectCase ?d ?cs ?k).1 <= _ =>
    pose proof (selectCase_le d cs k d) as Hle end.
  unfold registerInternal in *. cbn [makeChan setSession now fst snd] in *.
  apply Hle. by left.
Qed.

Lemma getContext_within w : within (60 * Second) w (getContext parseGetTree env w).2.
Proof. unfold getContext. run. apply sendInternalCommand_within. Qed.

Lemma resolveContext_within context w :
  within (60 * Second) w (resolveContext parseGetTree env context w).2.
Proof.
  unfold resolveContext. destruct (context =? "")%string; [apply getContext_within|].
  pose proof Second_pos. split; cbn; lia.
Qed.

(** A navigation wait ends when its timer fires at the latest: at the
    deadline, or at once when the deadline has passed. *)
Lemma awaitEvent_bound method ch deadline w :
  now w <= now (awaitEvent env method ch deadline w).2 <= Z.max (now w) deadline.
Proof.
  split; [apply awaitEvent_time|]. unfold awaitEvent. cbn [snd now setNow].
  match goal with |- (selectCase ?d ?cs ?k).1 <= _ =>
    pose proof (selectCase_le d cs k d) as Hle end.
  cbn [fst] in Hle. etrans; [apply Hle; by left | lia].
Qed.

Lemma waitNavigation_bound waitBehavior timeout deadline chs w :
  now w <= now (waitNavigation env waitBehavior timeout deadline chs w).2
        <= Z.max (now w) deadline.
Proof.
  unfold waitNavigation. destruct (negb _); [|cbn; lia]. run.
  pose proof (awaitEvent_bound navigationStarted chs.1.1 deadline w) as H1.
  destruct (awaitEvent env navigationStarted chs.1.1 deadline w) as [started w1].
  cbn [fst snd] in *. destruct started; cbn [negb]; [|cbn; lia].
  destruct (waitBehavior =? "waitForDomContentLoaded")%string.
  { run. pose proof (awaitEvent_bound domContentLoaded chs.1.2 deadline w1). lia. }
  destruct (waitBehavior =? "waitForLoad")%string.
  { run. pose proof (awaitEvent_bound load chs.2 deadline w1). lia. }
  cbn. lia.
Qed.

(** The polling loop ends at most one interval and one internal command
    after its deadline. *)
Lemma waitForElementLoop_bound fuel context selector timeout deadline w :
  now w <= now (loop fuel context selector timeout deadline w).2
        <= Z.max (now w) (deadline + interval) + 60 * Second.
Proof.
  pose proof Second_pos. pose proof interval_pos.
  revert w. induction fuel as [|fuel IH]; intros w; [cbn; lia|].
  rewrite waitForElementLoop_step. cbn zeta.
  pose proof (sendInternalCommand_within "script.callFunction"
                (findParams context selector) w) as [Hlo Hhi].
  destruct (pollResult _ _ _); [cbn [snd]; lia|].
  destruct (deadline <? _) eqn:Hd; [cbn [snd]; lia|].
  apply Z.ltb_ge in Hd.
  match goal with |- context [loop fuel _ _ _ _ ?x] => specialize (IH x) end.
  cbn [now setNow] in IH. lia.
Qed.

Lemma waitForElement_bound context selector timeout w :
  now w <= now (wait context selector timeout w).2
        <= now w + Z.max 0 (timeout + interval) + 60 * Second.
Proof.
  unfold waitForElement. run.
  pose proof (waitForElementLoop_bound (pollFuel timeout) context selector timeout
                (now w + timeout) w). lia.
Qed.

Lemma performAndWait_bound id waitBehavior timeout deadline params result chs w :
  now w <= now (performAndWait env id waitBehavior timeout deadline params result chs w).2
        <= Z.max (now w + 60 * Second) deadline.
Proof.
  unfold performAndWait. run.
  pose proof (sendInternalCommand_within "input.performActions" params w) as [Hlo Hhi].
  destruct (sendInternalCommand env "input.performActions" params w) as [r w1].
  cbn [fst snd] in *. destruct r as [resp|e]; run.
  - pose proof (waitNavigation_bound waitBehavior timeout deadline chs w1) as Hn.
    destruct (waitNavigation env waitBehavior timeout deadline chs w1) as [[[]|e] w2];
      cbn [fst snd] in *; run;
      rewrite ?sendSuccess_run, ?sendError_run; cbn [snd now emit];
      rewrite now_cleanupListeners; lia.
  - rewrite sendError_run. cbn [snd now emit]. rewrite now_cleanupListeners. lia.
Qed.

(** X3.  The element polling loop returns no earlier than it started and
    no later than its timeout plus one polling interval of 100 ms plus the
    60 s cap of one internal command; each internal command returns within
    60 s, and a navigation wait of click/type ends by the deadline of the
    command (at once when the deadline has already passed). *)
Theorem waits_are_bounded (w : World) :
  (forall method params, within (60 * Second) w (sendInternalCommand env method params w).2)
  /\ (forall context selector timeout,
         now w <= now (wait context selector timeout w).2
               <= now w + Z.max 0 (timeout + 100 * Millisecond) + 60 * Second)
  /\ (forall waitBehavior timeout deadline chs,
         now w <= now (waitNavigation env waitBehavior timeout deadline chs w).2
               <= Z.max (now w) deadline).
Proof.
  split; [|split].
  - intros. apply sendInternalCommand_within.
  - intros. apply waitForElement_bound.
  - intros. apply waitNavigation_bound.
Qed.

(** X4.  An extension command always returns, and within a bound that
    exceeds its timeout: [vibium:find] within the timeout plus 120.1 s,
    [vibium:click] within the timeout plus 180.1 s and [vibium:type]
    within the timeout plus 240.1 s, the excess being one polling interval
    and the 60 s cap of each internal command it sends ([getContext], the
    last poll, and one or two [input.performActions]). *)
Theorem extension_commands_return_in_time (cmd : bidiCommand) (w : World) :
  let timeout := timeoutOf (paramFloat (cmdParams cmd) "timeout") in
  (now w <= now (find cmd w).2
         <= now w + Z.max 0 (timeout + 100 * Millisecond) + 120 * Second)
  /\ (now w <= now (click cmd w).2
            <= now w + Z.max 0 timeout + 100 * Millisecond + 180 * Second)
  /\ (now w <= now (type cmd w).2
            <= now w + Z.max 0 timeout + 100 * Millisecond + 240 * Second).
Proof.
  cbn zeta. pose proof Second_pos. pose proof interval_pos.
  assert (60 * Second + 60 * Second = 120 * Second) as E2 by lia.
  set (T := timeoutOf (paramFloat (cmdParams cmd) "timeout")).
  split; [|split].
  - unfold handleVibiumFind. run. fold T.
    pose proof (resolveContext_within (paramString (cmdParams cmd) "context") w) as [L1 U1].
    destruct (resolveContext _ _ _ _) as [[context|e] w1]; cbn [fst snd] in *; run.
    + pose proof (waitForElement_bound context (paramString (cmdParams cmd) "selector")
                    T w1) as [L2 U2].
      destruct (wait _ _ _ _) as [[info|e] w2]; cbn [fst snd] in *;
        rewrite ?sendSuccess_run, ?sendError_run; cbn [snd now emit];
        unfold interval in *; lia.
    + rewrite sendError_run. cbn [snd now emit]. lia.
  - unfold handleVibiumClick. run. fold T. unfold remainingTime. run.
    pose proof (resolveContext_within (paramString (cmdParams cmd) "context") w) as [L1 U1].
    destruct (resolveContext _ _ _ _) as [[context|e] w1]; cbn [fst snd] in *; run.
    + pose proof (waitForElement_bound context (paramString (cmdParams cmd) "selector")
                    (Z.max 0 (now w + T - now w1)) w1) as [L2 U2].
      destruct (wait _ _ _ _) as [[info|e] w2]; cbn [fst snd] in *.
      * rewrite bind_run.
        match goal with |- context [performAndWait env ?i ?wb ?t ?d ?p ?r ?c ?x] =>
          pose proof (performAndWait_bound i wb t d p r c x) as [L3 U3] end.
        rewrite now_registerListeners in L3, U3. unfold interval in *. lia.
      * rewrite sendError_run. cbn [snd now emit]. unfold interval in *. lia.
    + rewrite sendError_run. cbn [snd now emit]. unfold interval in *. lia.
  - unfold handleVibiumType. run. fold T. unfold remainingTime. run.
    pose proof (resolveContext_within (paramString (cmdParams cmd) "context") w) as [L1 U1].
    destruct (resolveContext _ _ _ _) as [[context|e] w1]; cbn [fst snd] in *; run.
    + pose proof (waitForElement_bound context (paramString (cmdParams cmd) "selector")
                    (Z.max 0 (now w + T - now w1)) w1) as [L2 U2].
      destruct (wait _ _ _ _) as [[info|e] w2]; cbn [fst snd] in *; run.
      * pose proof (sendInternalCommand_within "input.performActions"
                      (clickParams context info) w2) as [L3 U3].
        destruct (sendInternalCommand env _ _ w2) as [[resp|e] w3]; cbn [fst snd] in *.
        -- rewrite bind_run.
           match goal with |- context [performAndWait env ?i ?wb ?t ?d ?p ?r ?c ?x] =>
             pose proof (performAndWait_bound i wb t d p r c x) as [L4 U4] end.
           rewrite now_registerListeners in L4, U4. unfold interval in *. lia.
        -- rewrite sendError_run. cbn [snd now emit]. unfold interval in *. lia.
      * rewrite sendError_run. cbn [snd now emit]. unfold interval in *. lia.
    + rewrite sendError_run. cbn [snd now emit]. unfold interval in *. lia.
Qed.
End DurationFacts.
(* ===================================================================== *)
(** ** Routing: fan-out of events and order of forwarded frames          *)
(* ===================================================================== *)

Lemma bufOf_setBuf ch ch' buf w :
  bufOf ch (setBuf ch' buf w) = if decide (ch = ch') then buf else bufOf ch w.
Proof.
  unfold bufOf, setBuf. cbn [chanBuf]. destruct (decide (ch = ch')) as [->|Hne].
  - by rewrite lookup_insert_eq.
  - by rewrite lookup_insert_ne.
Qed.

Lemma hasRoom_setBuf_ne ch ch' buf w :
  ch <> ch' -> hasRoom ch (setBuf ch' buf w) = hasRoom ch w.
Proof.
  intros Hne. unfold hasRoom. rewrite bufOf_setBuf.
  destruct (decide (ch = ch')); [done|]. reflexivity.
Qed.

Lemma trySend_open msg ch w :
  ch ∉ chanClosed w ->
  trySend msg ch w = Some (if hasRoom ch w then setBuf ch (bufOf ch w ++ [msg]) w else w).
Proof. intros H. unfold trySend. by rewrite bool_decide_eq_false_2. Qed.

Lemma trySend_closed msg ch w : ch ∈ chanClosed w -> trySend msg ch w = None.
Proof. intros H. unfold trySend. by rewrite bool_decide_eq_true_2. Qed.

(** While every channel of the copy is open and no other task acts, the
    dispatch ends, and each channel with room has got the frame once. *)
Lemma dispatchListeners_buf msg ls w :
  NoDup ls -> (forall ch, ch ∈ ls -> ch ∉ chanClosed w) ->
  exists w',
    dispatchListeners msg ls nobody w = Dispatched w'
    /\ forall ch,
         bufOf ch w'
         = if bool_decide (ch ∈ ls) && hasRoom ch w then bufOf ch w ++ [msg] else bufOf ch w.
Proof.
  revert w. induction ls as [|a ls IH]; intros w Hnd Hopen.
  - exists w. split; [done|]. intros ch.
    rewrite bool_decide_eq_false_2; [done|]. apply not_elem_of_nil.
  - apply NoDup_cons in Hnd as [Ha Hnd].
    cbn [dispatchListeners nobody beforeSend].
    rewrite trySend_open by (apply Hopen; left).
    set (w2 := if hasRoom a w then setBuf a (bufOf a w ++ [msg]) w else w).
    assert (chanClosed w2 = chanClosed w) as Hcl by (subst w2; by destruct (hasRoom a w)).
    destruct (IH w2 Hnd) as (w' & Hd & Hb).
    { intros ch Hin. rewrite Hcl. apply Hopen. by right. }
    exists w'. split; [exact Hd|]. intros ch. rewrite Hb. subst w2.
    destruct (decide (ch = a)) as [->|Hne].
    + rewrite (bool_decide_eq_false_2 (a ∈ ls)) by done.
      rewrite (bool_decide_eq_true_2 (a ∈ a :: ls)) by left. cbn [andb].
      destruct (hasRoom a w); [|done]. rewrite bufOf_setBuf. by rewrite decide_True.
    + assert (bool_decide (ch ∈ a :: ls) = bool_decide (ch ∈ ls)) as ->.
      { apply bool_decide_ext. rewrite elem_of_cons. split; [by intros [?|?] | by right]. }
      destruct (hasRoom a w) eqn:Hr; [|done].
      rewrite hasRoom_setBuf_ne by done. rewrite bufOf_setBuf.
      by rewrite decide_False.
Qed.

(** A dispatch panics exactly at a channel of the copy that is closed. *)
Lemma dispatchListeners_closed msg ls w ch :
  ch ∈ ls -> ch ∈ chanClosed w ->
  exists ch' w', dispatchListeners msg ls nobody w = SendOnClosed ch' w'.
Proof.
  revert w. induction ls as [|a ls IH]; intros w Hin Hcl; [by apply elem_of_nil in Hin|].
  cbn [dispatchListeners nobody beforeSend].
  destruct (trySend msg a w) as [w2|] eqn:E; [|by eauto].
  destruct (trySend_frame _ _ _ _ E) as (_ & _ & _ & Hc & _).
  apply IH; [|by rewrite Hc].
  apply elem_of_cons in Hin as [->|Hin]; [|done].
  by rewrite (trySend_closed _ _ _ Hcl) in E.
Qed.

Lemma dispatchListeners_panic msg ls w ch w' :
  dispatchListeners msg ls nobody w = SendOnClosed ch w' ->
  ch ∈ ls /\ ch ∈ chanClosed w.
Proof.
  revert w. induction ls as [|a ls IH]; intros w; [done|].
  cbn [dispatchListeners nobody beforeSend].
  destruct (trySend msg a w) as [w2|] eqn:E.
  - destruct (trySend_frame _ _ _ _ E) as (_ & _ & _ & Hc & _).
    intros H. apply IH in H as [Hin Hcl]. rewrite Hc in Hcl. split; [by right | done].
  - intros [= <- <-]. split; [left|]. unfold trySend in E.
    by case_bool_decide.
Qed.

Lemma removeFirst_listed ch ls : ch ∈ ls -> is_Some (removeFirst ch ls).
Proof.
  induction ls as [|a ls IH]; [by intros H; apply elem_of_nil in H|].
  intros Hin. cbn [removeFirst]. destruct (decide (a = ch)); [by eexists|].
  apply elem_of_cons in Hin as [->|Hin]; [done|].
  destruct (IH Hin) as [rest ->]. by eexists.
Qed.

(** The race of a dispatch with the removal of a listener: the channel is
    closed between the copy of the list and the send on it. *)
Lemma dispatchListeners_race msg method ch ls w0 w :
  ch ∈ ls -> ch ∈ listenersOf method w0 ->
  session w = session w0 -> trace w = trace w0 ->
  exists c w',
    dispatchListeners msg ls (removesBeforeSend method ch) w = SendOnClosed c w'
    /\ trace w' = trace w0.
Proof.
  revert w. induction ls as [|a ls IH]; intros w Hin Hl Hs Ht;
    [by apply elem_of_nil in Hin|].
  cbn [dispatchListeners removesBeforeSend beforeSend].
  destruct (decide (a = ch)) as [->|Hne].
  - assert (listenersOf method w = listenersOf method w0) as Hlw
      by (unfold listenersOf; by rewrite Hs).
    unfold removeEventListener. rewrite Hlw.
    destruct (removeFirst_listed ch _ Hl) as [rest ->]. cbn [snd].
    rewrite trySend_closed.
    + eexists _, _. split; [reflexivity|]. cbn. exact Ht.
    + cbn. apply elem_of_union_l, elem_of_singleton. reflexivity.
  - destruct (trySend msg a w) as [w2|] eqn:E; [|by eauto].
    destruct (trySend_frame _ _ _ _ E) as (Hs2 & Ht2 & _).
    apply IH; [|done|congruence|congruence].
    apply elem_of_cons in Hin as [->|Hin]; done.
Qed.

Section RoutingOrder.
Variable parseFrame : RawMessage -> option parsedFrame.
Variable unmarshalMessage : RawMessage -> Result Bidi.Message.
Variable unmarshalErrorData : RawMessage -> Result Bidi.ErrorData.
Variable unmarshalString : RawMessage -> Result string.

#[local] Abbreviation routeOne := (routeMessage parseFrame).
#[local] Abbreviation routeAll := (routeBrowserToClient parseFrame).
#[local] Abbreviation close := (closeSession unmarshalMessage unmarshalErrorData unmarshalString).
#[local] Abbreviation closing :=
  (closesWhileReceiving unmarshalMessage unmarshalErrorData unmarshalString).

(** X5.  An event from the browser (a frame with a method and no id),
    dispatched while no other task of the session acts and while every
    channel listed for its method is open, is copied to every listener
    registered for the method that has room in its buffer, once; a full
    listener is skipped, the listeners of other methods and all other
    channels get nothing, and the event is sent on to the client all the
    same.  When a listed channel is closed the send on it panics and the
    event does not reach the client; the same happens when another task
    removes a listener between the copy of the list and the send on its
    channel. *)
Theorem event_reaches_every_listener msg parsed sendFailed w :
  parseFrame msg = Some parsed ->
  frameID parsed = None ->
  (frameMethod parsed =? "")%string = false ->
  NoDup (listenersOf (frameMethod parsed) w) ->
  let listed := listenersOf (frameMethod parsed) w in
  ((forall ch, ch ∈ listed -> ch ∉ chanClosed w) ->
   let r := routeOne msg sendFailed nobody w in
   r = (if sendFailed then Return (routeWorld r) else Continue (routeWorld r))
   /\ returnsToClient msg w r
   /\ session (routeWorld r) = session w
   /\ forall ch,
        bufOf ch (routeWorld r)
        = if bool_decide (ch ∈ listed) && hasRoom ch w
          then bufOf ch w ++ [msg] else bufOf ch w)
  /\ (forall ch, ch ∈ listed -> ch ∈ chanClosed w ->
      exists w', routeOne msg sendFailed nobody w = Panic "send on closed channel" w'
                 /\ trace w' = trace w)
  /\ (forall ch, ch ∈ listed ->
      exists w', routeOne msg sendFailed (removesBeforeSend (frameMethod parsed) ch) w
                 = Panic "send on closed channel" w'
                 /\ trace w' = trace w).
Proof.
  intros Hp Hid Hm Hnd. cbn zeta. unfold returnsToClient, routeMessage, internalChannel.
  rewrite Hp, Hid, Hm. split; [|split].
  - intros Hopen.
    pose proof (dispatchListeners_frame msg (listenersOf (frameMethod parsed) w) w) as Hf.
    destruct (dispatchListeners_buf msg _ w Hnd Hopen) as (w1 & Hd & Hb).
    rewrite Hd in *. destruct Hf as (Hs & Ht & _).
    unfold forwardToClient. destruct sendFailed; cbn [routeWorld emit trace session];
      rewrite Ht, Hs; (split; [done|]); (split; [done|]); (split; [done|]);
      intros ch; apply Hb.
  - intros ch Hin Hcl.
    pose proof (dispatchListeners_frame msg (listenersOf (frameMethod parsed) w) w) as Hf.
    destruct (dispatchListeners_closed msg _ w ch Hin Hcl) as (c & w' & Hd).
    rewrite Hd in *. exists w'. split; [done|]. by destruct Hf as (_ & -> & _).
  - intros ch Hin.
    destruct (dispatchListeners_race msg (frameMethod parsed) ch _ w w Hin Hin eq_refl eq_refl)
      as (c & w' & -> & Ht).
    by exists w'.
Qed.

Lemma captured_session w w' msg :
  session w' = session w -> captured parseFrame w' msg = captured parseFrame w msg.
Proof. intros H. unfold captured, internalChannel. by rewrite H. Qed.

Lemma routeMessage_step msg w :
  match routeOne msg false nobody w with
  | Continue w' =>
      session w' = session w /\ chanClosed w' = chanClosed w
      /\ trace w' = trace w ++ (if captured parseFrame w msg then [] else [ClientSend msg])
  | Blocked ch w' =>
      w' = w /\ captured parseFrame w msg = true /\ hasRoom ch w = false
  | Return _ => False
  | Panic _ w' =>
      session w' = session w /\ trace w' = trace w
      /\ exists parsed ch,
           parseFrame msg = Some parsed /\ frameID parsed = None
           /\ ch ∈ listenersOf (frameMethod parsed) w /\ ch ∈ chanClosed w
  end.
Proof.
  unfold routeMessage, captured, forwardToClient.
  destruct (parseFrame msg) as [parsed|]; [|cbn; by rewrite ?app_nil_r].
  destruct (internalChannel parsed w) as [ch|].
  - destruct (hasRoom ch w) eqn:Hr; [|done]. cbn. by rewrite app_nil_r.
  - destruct (frameID parsed) eqn:Hid; [done|].
    destruct (frameMethod parsed =? "")%string; [done|].
    pose proof (dispatchListeners_frame msg (listenersOf (frameMethod parsed) w) w) as Hf.
    destruct (dispatchListeners _ _ _ _) as [w1|c w1] eqn:Hd.
    + destruct Hf as (Hs & Ht & _ & Hc & _). cbn. by rewrite Hs, Ht, Hc.
    + destruct Hf as (Hs & Ht & _). apply dispatchListeners_panic in Hd as [Hin Hcl].
      split; [done|]. split; [done|]. by exists parsed, c.
Qed.

Lemma routeAll_order frames w0 w :
  session w = session w0 -> chanClosed w = chanClosed w0 ->
  stopChan (session w0) = false ->
  let r := routeAll (receivedOk frames) w in
  session (routeWorld r) = session w0
  /\ exists done,
       done `prefix_of` frames
       /\ trace (routeWorld r)
          = trace w ++ (ClientSend <$> filter (fun msg => captured parseFrame w0 msg = false) done)
       /\ match r with
          | Continue _ => done = frames
          | Blocked ch w' =>
              exists msg, (done ++ [msg]) `prefix_of` frames
                          /\ captured parseFrame w0 msg = true
                          /\ hasRoom ch w' = false
          | Return _ => False
          | Panic _ _ =>
              exists msg parsed ch,
                (done ++ [msg]) `prefix_of` frames
                /\ parseFrame msg = Some parsed /\ frameID parsed = None
                /\ ch ∈ listenersOf (frameMethod parsed) w0 /\ ch ∈ chanClosed w0
          end.
Proof.
  intros Hs Hc Hstop. cbn zeta. revert w Hs Hc.
  induction frames as [|msg frames IH]; intros w Hs Hc.
  - cbn. split; [done|]. exists []. rewrite app_nil_r. done.
  - cbn [receivedOk fmap list_fmap routeBrowserToClient]. unfold routeIteration.
    rewrite Hs, Hstop. cbn [nobody whileReceiving].
    pose proof (routeMessage_step msg w) as Hstep.
    rewrite (captured_session w0 w msg Hs) in Hstep.
    destruct (routeOne msg false nobody w) as [w'|ch w'|w'|reason w']; [| |done|].
    + destruct Hstep as (Hs' & Hc' & Ht').
      destruct (IH w') as (Hsr & done & Hpre & Htr & Hres); [congruence|congruence|].
      fold (receivedOk frames).
      split; [exact Hsr|]. exists (msg :: done). split; [by apply prefix_cons|].
      split.
      * rewrite Htr, Ht', filter_cons.
        destruct (captured parseFrame w0 msg) eqn:Hcap.
        -- rewrite decide_False by done. by rewrite app_nil_r.
        -- rewrite decide_True by done. by rewrite fmap_cons, <- app_assoc.
      * destruct (routeAll (receivedOk frames) w') as [w2|ch w2|w2|reason w2];
          [by subst| |done|].
        -- destruct Hres as (m & Hm & Hcap & Hr). exists m. split; [|done].
           cbn. by apply prefix_cons.
        -- destruct Hres as (m & parsed & ch & Hm & Hrest). exists m, parsed, ch.
           split; [|done]. cbn. by apply prefix_cons.
    + destruct Hstep as (-> & Hcap & Hr). cbn [routeWorld]. split; [done|].
      exists []. split; [apply prefix_nil|]. split; [by rewrite app_nil_r|].
      exists msg. split; [|done]. cbn. apply prefix_cons, prefix_nil.
    + destruct Hstep as (Hs' & Ht' & parsed & ch & Hp & Hid & Hin & Hcl).
      cbn [routeWorld]. split; [congruence|].
      exists []. split; [apply prefix_nil|]. split; [by rewrite app_nil_r|].
      exists msg, parsed, ch. split; [cbn; apply prefix_cons, prefix_nil|].
      split; [done|]. split; [done|]. split; [|by rewrite <- Hc].
      unfold listenersOf in *. by rewrite <- Hs.
Qed.

(** X6.  While the stop signal is open, sending to the client works
    and no other task of the session acts, the routing loop sends the
    client the browser's frames in the order received and unchanged,
    leaving out exactly those it hands to a pending internal command; it
    leaves the session alone, never ends by itself, and stops early only
    at a response whose reply channel is full or, with a panic, at an
    event one of whose listeners has a closed channel. *)
Theorem frames_are_forwarded_in_order frames w :
  stopChan (session w) = false ->
  let r := routeAll (receivedOk frames) w in
  session (routeWorld r) = session w
  /\ exists done,
       done `prefix_of` frames
       /\ trace (routeWorld r)
          = trace w ++ (ClientSend <$> filter (fun msg => captured parseFrame w msg = false) done)
       /\ match r with
          | Continue _ => done = frames
          | Blocked ch w' =>
              exists msg, (done ++ [msg]) `prefix_of` frames
                          /\ captured parseFrame w msg = true
                          /\ hasRoom ch w' = false
          | Return _ => False
          | Panic _ _ =>
              exists msg parsed ch,
                (done ++ [msg]) `prefix_of` frames
                /\ parseFrame msg = Some parsed /\ frameID parsed = None
                /\ ch ∈ listenersOf (frameMethod parsed) w /\ ch ∈ chanClosed w
          end.
Proof. intros Hstop. by apply routeAll_order. Qed.

Lemma routeMessage_beforeSend msg sendFailed others w :
  (forall ch w0, beforeSend others ch w0 = w0) ->
  routeOne msg sendFailed others w = routeOne msg sendFailed nobody w.
Proof.
  intros Hb. unfold routeMessage.
  assert (forall ls w0, dispatchListeners msg ls others w0
                        = dispatchListeners msg ls nobody w0) as Hd.
  { induction ls as [|a ls IH]; intros w0; [done|].
    cbn [dispatchListeners nobody beforeSend]. rewrite Hb.
    destruct (trySend msg a w0); [apply IH | done]. }
  destruct (parseFrame msg) as [parsed|]; [|done]. by rewrite Hd.
Qed.

Lemma routeMessage_stopChan msg sendFailed w :
  stopChan (session (routeWorld (routeOne msg sendFailed nobody w))) = stopChan (session w).
Proof.
  unfold routeMessage, forwardToClient.
  destruct (parseFrame msg) as [parsed|]; [|by destruct sendFailed].
  destruct (internalChannel parsed w) as [ch|]; [by destruct (hasRoom ch w)|].
  destruct (frameID parsed); [by destruct sendFailed|].
  destruct (frameMethod parsed =? "")%string; [by destruct sendFailed|].
  pose proof (dispatchListeners_frame msg (listenersOf (frameMethod parsed) w) w) as Hd.
  destruct (dispatchListeners _ _ _ _) as [w1|ch w1]; destruct Hd as (Hs & _);
    [destruct sendFailed|]; cbn [routeWorld session emit]; by rewrite Hs.
Qed.

(** X26.  The routing task and the end of the session.  When
    [Receive] fails the task ends: it closes the client if the session is
    still open then, and leaves the client alone if the closed flag was set
    meanwhile.  An iteration that starts when the stop signal is closed
    ends the task before another frame is read, so the task ends after a
    teardown that has returned; but the stop signal is tested without
    blocking and [Receive] blocks, so a frame received while the teardown
    ran is still routed, after which the task ends.  While the teardown
    waits for the response to its unsubscribe, the stop signal stays open
    and the task keeps routing. *)
Theorem routing_ends_with_the_session received frames e msg sendFailed others
    counter sendErr inbox w :
  stopChan (session w) = false ->
  closed (session w) = false ->
  let t := (close counter sendErr inbox w).1 in
  let w' := tornWorld t in
  routeAll ((Err e, sendFailed, others) :: frames) w
  = Return (if closed (session (whileReceiving others w)) then whileReceiving others w
            else emit ClientClose (whileReceiving others w))
  /\ routeAll ((Err e, sendFailed, closing counter sendErr inbox) :: frames) w = Return w'
  /\ (forall stopped, stopChan (session stopped) = true ->
        routeAll (received :: frames) stopped = Return stopped)
  /\ (returned t = true ->
        stopChan (session w') = true
        /\ routeAll (received :: frames) w' = Return w'
        /\ routeAll ((Ok msg, sendFailed, closing counter sendErr inbox) :: received :: frames) w
           = match routeOne msg sendFailed nobody w' with
             | Continue w2 => Return w2
             | r => r
             end)
  /\ (returned t = false ->
        stopChan (session w') = false
        /\ routeAll ((Ok msg, sendFailed, nobody) :: frames) w'
           = match routeOne msg sendFailed nobody w' with
             | Continue w2 => routeAll frames w2
             | r => r
             end).
Proof.
  intros Hstop Hopen. cbn zeta.
  pose proof (closeSession_open unmarshalMessage unmarshalErrorData unmarshalString
                counter sendErr inbox w Hopen) as Hclose.
  cbn zeta in Hclose. destruct Hclose as (Hcl & _ & Hcase).
  assert (forall stopped, stopChan (session stopped) = true ->
            routeAll (received :: frames) stopped = Return stopped) as Hret.
  { intros stopped Hs. destruct received as [ [r sf] o].
    cbn [routeBrowserToClient]. unfold routeIteration. by rewrite Hs. }
  split; [|split; [|split; [|split]]].
  - cbn [routeBrowserToClient]. unfold routeIteration. rewrite Hstop.
    by destruct (closed (session (whileReceiving others w))).
  - cbn [routeBrowserToClient]. unfold routeIteration. rewrite Hstop.
    cbn [closesWhileReceiving whileReceiving]. by rewrite Hcl.
  - exact Hret.
  - intros Hr.
    destruct (unsubscribes (session w) && negb (bool_decide (is_Some _))).
    { destruct Hcase as (Ht & _). rewrite Ht in Hr. discriminate. }
    destruct Hcase as (_ & _ & Hs). split; [exact Hs|]. split; [by apply Hret|].
    cbn [routeBrowserToClient]. unfold routeIteration at 1. rewrite Hstop.
    cbn [closesWhileReceiving whileReceiving].
    rewrite routeMessage_beforeSend by done.
    pose proof (routeMessage_stopChan msg sendFailed
                  (tornWorld (close counter sendErr inbox w).1)) as Hkeep.
    destruct (routeOne msg sendFailed nobody _) as [w2| | |]; [|done..].
    cbn [routeWorld] in Hkeep. apply Hret. by rewrite Hkeep.
  - intros Hr.
    destruct (unsubscribes (session w) && negb (bool_decide (is_Some _))).
    2:{ destruct Hcase as (Ht & _). rewrite Ht in Hr. discriminate. }
    destruct Hcase as (_ & _ & Hs). rewrite Hs, Hstop. split; [done|].
    cbn [routeBrowserToClient]. unfold routeIteration. by rewrite Hs, Hstop.
Qed.

End RoutingOrder.

(* ===================================================================== *)
(** ** The listener registry holds open channels only                    *)
(* ===================================================================== *)

Lemma removeFirst_None ch (l : list Chan) : removeFirst ch l = None <-> ch ∉ l.
Proof.
  induction l as [|x l IH]; cbn [removeFirst].
  - split; [intros _; apply not_elem_of_nil | done].
  - rewrite not_elem_of_cons. destruct (decide (x = ch)) as [->|Hne].
    + split; [done | by intros [? _] ].
    + destruct (removeFirst ch l) as [rest|]; cbn.
      * split; [done|]. intros [_ H]. by apply IH in H.
      * split; [|done]. intros _. split; [congruence | by apply IH].
Qed.

Lemma removeFirst_Some ch (l rest : list Chan) :
  removeFirst ch l = Some rest ->
  ch ∈ l /\ (forall x, x ∈ rest -> x ∈ l) /\ (NoDup l -> NoDup rest /\ ch ∉ rest).
Proof.
  revert rest. induction l as [|x l IH]; intros rest; cbn [removeFirst]; [done|].
  destruct (decide (x = ch)) as [->|Hne].
  - intros [= <-]. split; [left|]. split; [by right|].
    intros Hnd. apply NoDup_cons in Hnd as [? ?]. done.
  - destruct (removeFirst ch l) as [rest'|] eqn:E; cbn; [|done]. intros [= <-].
    destruct (IH rest' eq_refl) as (Hin & Hsub & Hnd).
    split; [by right|]. split.
    + intros y [->|Hy]%elem_of_cons; [left | right; by apply Hsub].
    + intros [Hx Hl]%NoDup_cons. destruct (Hnd Hl) as [Hnd' Hnin]. split.
      * apply NoDup_cons. split; [|done]. intros Hx'. by apply Hx, Hsub.
      * apply not_elem_of_cons. split; [congruence | done].
Qed.

#[local] Instance keeps_preorder (I : World -> Prop) : PreOrder (keeps I).
Proof.
  split; [intros w H; exact H | intros w1 w2 w3 H12 H23 H; by apply H23, H12].
Qed.

Lemma registryOk_frame w w' :
  eventListeners (session w') = eventListeners (session w) ->
  chanClosed w' = chanClosed w ->
  (nextChan w <= nextChan w')%nat ->
  keeps registryOk w w'.
Proof.
  intros Hl Hc Hn (H1 & H2 & H3 & H4). unfold registryOk, listenersOf in *.
  rewrite Hl, Hc. split; [|split; [|split] ].
  - intros ch Hch. specialize (H1 ch Hch). lia.
  - intros m ch Hch. destruct (H2 m ch Hch). split; [lia|done].
  - exact H3.
  - exact H4.
Qed.

Lemma registryOk_new subscription start : registryOk (newWorld subscription start).
Proof.
  unfold registryOk, listenersOf. cbn. split; [|split; [|split] ].
  - intros ch Hch. by apply not_elem_of_empty in Hch.
  - intros m ch. rewrite lookup_empty. cbn. intros Hch. by apply not_elem_of_nil in Hch.
  - intros m. rewrite lookup_empty. constructor.
  - intros m1 m2 ch. rewrite lookup_empty. cbn. intros Hch. by apply not_elem_of_nil in Hch.
Qed.

Lemma chanClosed_sendInternalCommand env method params w :
  chanClosed (sendInternalCommand env method params w).2 = chanClosed w.
Proof.
  unfold sendInternalCommand, registerInternal, unregisterInternal. run.
  destruct (sendFails env (nextInternalID (session w))) as [e|]; run; [done|].
  unfold awaitInternal. destruct (selectCase _ _ _) as [t [resp| |] ]; cbn; try done.
  unfold takeFrom. by destruct (bufOf _ _).
Qed.

Lemma registryOk_sendInternalCommand env method params :
  preserves (keeps registryOk) (sendInternalCommand env method params).
Proof.
  intros w. destruct (quiet_sendInternalCommand env method params w).
  apply registryOk_frame; [done | apply chanClosed_sendInternalCommand | done].
Qed.

Lemma registryOk_takeFrom w ch : keeps registryOk w (takeFrom ch w).
Proof. unfold takeFrom. destruct (bufOf ch w); [done|]. by apply registryOk_frame. Qed.

Lemma listenersOf_addEventListener method m w :
  listenersOf m (addEventListener method w).2
  = if decide (method = m) then listenersOf method w ++ [nextChan w] else listenersOf m w.
Proof.
  destruct (addEventListener_run method w) as (_ & HE & _).
  unfold listenersOf. rewrite HE. apply look_addL.
Qed.

Lemma registryOk_addEventListener method :
  preserves (keeps registryOk) (addEventListener method).
Proof.
  intros w (H1 & H2 & H3 & H4).
  pose proof (listenersOf_addEventListener method) as HL.
  destruct (addEventListener_run method w) as (_ & _ & Hn & _).
  assert (chanClosed (addEventListener method w).2 = chanClosed w) as Hc
    by (unfold addEventListener; run; done).
  assert (forall m, nextChan w ∉ listenersOf m w) as Hfresh.
  { intros m Hin. destruct (H2 m _ Hin). lia. }
  unfold registryOk. rewrite Hn, Hc. split; [|split; [|split] ].
  - intros ch Hch. specialize (H1 ch Hch). lia.
  - intros m ch. rewrite HL. case_decide as Hm.
    + intros [Hch| ->%list_elem_of_singleton]%elem_of_app.
      * destruct (H2 _ _ Hch). split; [lia|done].
      * split; [lia|]. intros Hcl. specialize (H1 _ Hcl). lia.
    + intros Hch. destruct (H2 _ _ Hch). split; [lia|done].
  - intros m. rewrite HL. case_decide; [|done].
    apply NoDup_app. split; [done|]. split; [|apply NoDup_singleton].
    intros x Hx ->%list_elem_of_singleton. by apply (Hfresh method).
  - intros m1 m2 ch. rewrite !HL.
    repeat case_decide; subst; try done.
    + intros [Hch| ->%list_elem_of_singleton]%elem_of_app Hch2.
      * by apply (H4 _ _ ch).
      * by apply Hfresh in Hch2.
    + intros Hch1 [Hch| ->%list_elem_of_singleton]%elem_of_app.
      * by apply (H4 _ _ ch).
      * by apply Hfresh in Hch1.
    + apply H4.
Qed.

Lemma registryOk_removeEventListener method ch :
  preserves (keeps registryOk) (removeEventListener method ch).
Proof.
  intros w (H1 & H2 & H3 & H4). unfold removeEventListener.
  destruct (removeFirst ch (listenersOf method w)) as [rest|] eqn:E; [|done].
  destruct (removeFirst_Some _ _ _ E) as (Hin & Hsub & Hnd).
  destruct (Hnd (H3 method)) as [Hnd' Hnin].
  assert (forall m, listenersOf m
             (closeChan ch (setSession (setListeners (<[method := rest]>
                (eventListeners (session w))) (session w)) w))
           = if decide (method = m) then rest else listenersOf m w) as HL.
  { intros m. unfold listenersOf. cbn. case_decide as Hm.
    - subst. by rewrite lookup_insert_eq.
    - by rewrite lookup_insert_ne. }
  unfold registryOk. cbn [snd]. split; [|split; [|split] ].
  - cbn. intros c [->%elem_of_singleton|Hc]%elem_of_union.
    + by destruct (H2 _ _ Hin).
    + by apply H1.
  - intros m c. rewrite HL. cbn [closeChan chanClosed nextChan setSession].
    assert (forall m', c ∈ listenersOf m' w -> (m' = method -> c ∈ rest) ->
                       (c < nextChan w)%nat /\ c ∉ {[ch]} ∪ chanClosed w) as Hgo.
    { intros m' Hc Hrest. destruct (H2 _ _ Hc) as [Hlt Hopen]. split; [done|].
      intros [->%elem_of_singleton|Hcl]%elem_of_union; [|done].
      assert (m' = method) as -> by (by apply (H4 _ _ ch)).
      by apply Hnin, Hrest. }
    case_decide as Hm.
    + subst m. intros Hc. apply (Hgo method); [by apply Hsub | done].
    + intros Hc. apply (Hgo m); [done | congruence].
  - intros m. rewrite HL. by case_decide.
  - intros m1 m2 c. rewrite !HL. repeat case_decide; subst; try done.
    + intros Hc1 Hc2. apply (H4 _ _ c); [by apply Hsub | done].
    + intros Hc1 Hc2. apply (H4 _ _ c); [done | by apply Hsub].
    + apply H4.
Qed.

Section RegistryFacts.
Variable parseFrame : RawMessage -> option parsedFrame.
Variable parseCommand : RawMessage -> option bidiCommand.
Variable parseGetTree : RawMessage -> Result (list string).
Variable parseCallResult : RawMessage -> option (string * string).
Variable parseElementInfo : string -> option elementInfo.
Variable env : Env.
Variable unmarshalMessage : RawMessage -> Result Bidi.Message.
Variable unmarshalErrorData : RawMessage -> Result Bidi.ErrorData.
Variable unmarshalString : RawMessage -> Result string.

#[local] Abbreviation onMsg :=
  (OnClientMessage parseCommand parseGetTree parseCallResult parseElementInfo env).

Lemma registryOk_handlers cmd w :
  keeps registryOk w (handleVibiumClick parseGetTree parseCallResult parseElementInfo env cmd w).2
  /\ keeps registryOk w (handleVibiumType parseGetTree parseCallResult parseElementInfo env cmd w).2
  /\ keeps registryOk w (handleVibiumFind parseGetTree parseCallResult parseElementInfo env cmd w).2.
Proof.
  split; [|split];
    [apply lift_click | apply lift_type | apply lift_find];
    try apply _;
    try apply registryOk_sendInternalCommand;
    try apply registryOk_addEventListener;
    try apply registryOk_removeEventListener;
    try apply registryOk_takeFrom;
    intros; by apply registryOk_frame.
Qed.

(** X7.  The registry of event listeners holds only channels that the
    session made, that are open, and that are registered once, under one
    method.  Whole steps keep it so: a client message handled to its end
    (the extension commands with all their registering and cleaning up),
    a browser frame routed while no other task acts, and a teardown,
    whether it has returned or waits for its response.  A frame routed
    from such a state while no other task acts is therefore never sent on
    a closed channel: the routing step does not panic. *)
Theorem listeners_stay_open msg frame sendFailed counter sendErr inbox w :
  registryOk w ->
  registryOk (onMsg msg w).2
  /\ registryOk (routeWorld (routeMessage parseFrame frame sendFailed nobody w))
  /\ (forall reason w', routeMessage parseFrame frame sendFailed nobody w <> Panic reason w')
  /\ registryOk (tornWorld (closeSession unmarshalMessage unmarshalErrorData unmarshalString
                              counter sendErr inbox w).1).
Proof.
  intros Hok. split; [|split; [|split]].
  - unfold OnClientMessage. destruct (closed (session w)); [done|].
    destruct (parseCommand msg) as [cmd|]; [|by apply (registryOk_frame w)].
    destruct (registryOk_handlers cmd w) as (Hclick & Htype & Hfind).
    destruct (cmdMethod cmd =? "vibium:click")%string; [by apply Hclick|].
    destruct (cmdMethod cmd =? "vibium:type")%string; [by apply Htype|].
    destruct (cmdMethod cmd =? "vibium:find")%string; [by apply Hfind|].
    by apply (registryOk_frame w).
  - unfold routeMessage, forwardToClient.
    assert (forall b, registryOk (routeWorld
              (if b : bool then Return (emit (ClientSend frame) w)
               else Continue (emit (ClientSend frame) w)))) as He.
    { intros b. destruct b; cbn [routeWorld]; by apply (registryOk_frame w). }
    destruct (parseFrame frame) as [parsed|]; [|apply He].
    destruct (internalChannel parsed w) as [ch|].
    + destruct (hasRoom ch w); cbn [routeWorld]; [|done]. by apply (registryOk_frame w).
    + destruct (frameID parsed); [apply He|].
      destruct (frameMethod parsed =? "")%string; [apply He|].
      pose proof (dispatchListeners_frame frame (listenersOf (frameMethod parsed) w) w) as Hf.
      destruct (dispatchListeners _ _ _ _) as [w1|ch w1];
        destruct Hf as (Hs & _ & _ & Hc & Hn & _);
        [destruct sendFailed|]; cbn [routeWorld]; apply (registryOk_frame w); cbn;
        rewrite ?Hs, ?Hc, ?Hn; done.
  - intros reason w'. unfold routeMessage, forwardToClient.
    destruct (parseFrame frame) as [parsed|]; [|by destruct sendFailed].
    destruct (internalChannel parsed w) as [ch|]; [by destruct (hasRoom ch w)|].
    destruct (frameID parsed); [by destruct sendFailed|].
    destruct (frameMethod parsed =? "")%string; [by destruct sendFailed|].
    destruct (dispatchListeners _ _ _ _) as [w1|ch w1] eqn:Hd; [by destruct sendFailed|].
    apply dispatchListeners_panic in Hd as [Hin Hcl].
    destruct Hok as (_ & H2 & _). by destruct (H2 _ _ Hin).
  - destruct (closeSession_frame unmarshalMessage unmarshalErrorData unmarshalString
                counter sendErr inbox w) as (Hl & _ & _ & _ & _ & Hc & Hn & _).
    apply (registryOk_frame w); [done | done | lia | done].
Qed.

End RegistryFacts.

(* ===================================================================== *)
(** ** Listener channels do not leak                                      *)
(* ===================================================================== *)

#[local] Instance tidy_preorder : PreOrder tidy.
Proof.
  split.
  - intros w. split; try done; [by left|]. intros ch [ [? ?] _]. lia.
  - intros w1 w2 w3 [N12 C12 D12 L12 M12] [N23 C23 D23 L23 M23]. split.
    + lia.
    + intros ch Hch. rewrite C23 by lia. by apply C12.
    + intros ch Hch. by apply D23, D12.
    + intros method ch Hch. destruct (L12 _ _ Hch) as [H|H]; [by apply L23|].
      right. by apply D23.
    + intros ch [ [Hlo Hhi] Hcap].
      destruct (decide (ch < nextChan w2)%nat) as [Hlt|Hge].
      * destruct (M12 ch) as [H|(method & H)].
        { split; [lia|]. by rewrite <- (C23 ch Hlt). }
        { left. by apply D23. }
        { destruct (L23 _ _ H) as [H'|H']; [right; by exists method | by left]. }
      * apply M23. split; [lia | done].
Qed.

Lemma tidy_frame w w' :
  eventListeners (session w') = eventListeners (session w) ->
  chanClosed w' = chanClosed w ->
  chanCap w' = chanCap w ->
  nextChan w' = nextChan w ->
  tidy w w'.
Proof.
  intros Hl Hc Hcap Hn. split; unfold listenerMade, listenersOf, capOf; rewrite ?Hl, ?Hc, ?Hcap, ?Hn;
    try done; [by left | lia].
Qed.

Lemma tidy_makeChan w w' n :
  eventListeners (session w') = eventListeners (session w) ->
  chanClosed w' = chanClosed w ->
  chanCap w' = <[nextChan w := n]> (chanCap w) ->
  nextChan w' = S (nextChan w) ->
  n <> 10%nat ->
  tidy w w'.
Proof.
  intros Hl Hc Hcap Hn Hne.
  split; unfold listenerMade, listenersOf, capOf; rewrite ?Hl, ?Hc, ?Hcap, ?Hn; try done.
  - lia.
  - intros ch Hch. rewrite lookup_insert_ne; [done | lia].
  - by left.
  - intros ch [ [Hlo Hhi] Hten]. assert (ch = nextChan w) as -> by lia.
    rewrite lookup_insert_eq in Hten. cbn in Hten. done.
Qed.

Lemma chanCap_sendInternalCommand env method params w :
  chanCap (sendInternalCommand env method params w).2 = <[nextChan w := 1%nat]> (chanCap w).
Proof.
  unfold sendInternalCommand, registerInternal, unregisterInternal. run.
  destruct (sendFails env (nextInternalID (session w))) as [e|]; run; [done|].
  unfold awaitInternal. destruct (selectCase _ _ _) as [t [resp| |] ]; cbn; try done.
  unfold takeFrom. by destruct (bufOf _ _).
Qed.

Lemma tidy_sendInternalCommand env method params :
  preserves tidy (sendInternalCommand env method params).
Proof.
  intros w. destruct (sendInternalCommand_world env method params w) as (Hs & _ & Hn & _).
  apply (tidy_makeChan _ _ 1%nat); [by rewrite Hs | apply chanClosed_sendInternalCommand
    | apply chanCap_sendInternalCommand | done | done].
Qed.

Lemma tidy_takeFrom w ch : tidy w (takeFrom ch w).
Proof. unfold takeFrom. destruct (bufOf ch w); by apply tidy_frame. Qed.

Lemma tidy_addEventListener method : preserves tidy (addEventListener method).
Proof.
  intros w. pose proof (listenersOf_addEventListener method) as HL.
  split; unfold listenerMade, capOf.
  - unfold addEventListener. run. lia.
  - intros ch Hch. unfold addEventListener. run. cbn. rewrite lookup_insert_ne; [done | lia].
  - intros ch Hch. unfold addEventListener. run. done.
  - intros m ch Hch. left. rewrite HL. case_decide; [subst; apply elem_of_app; by left | done].
  - intros ch [ [Hlo Hhi] _]. right. exists method. rewrite HL, decide_True by done.
    assert (nextChan (addEventListener method w).2 = S (nextChan w)) as Hn
      by (unfold addEventListener; run; done).
    rewrite Hn in Hhi. assert (ch = nextChan w) as -> by lia.
    apply elem_of_app. right. by apply list_elem_of_singleton.
Qed.

Lemma removeFirst_elem ch (l rest : list Chan) x :
  removeFirst ch l = Some rest -> x ∈ l -> x ∈ rest \/ x = ch.
Proof.
  revert rest. induction l as [|y l IH]; intros rest; cbn [removeFirst]; [done|].
  destruct (decide (y = ch)) as [->|Hne].
  - intros [= <-] [->|Hx]%elem_of_cons; [by right | by left].
  - destruct (removeFirst ch l) as [rest'|]; cbn; [|done]. intros [= <-].
    intros [->|Hx]%elem_of_cons; [left; left|].
    destruct (IH rest' eq_refl Hx) as [H|H]; [left; by right | by right].
Qed.

Lemma tidy_removeEventListener method ch :
  preserves tidy (removeEventListener method ch).
Proof.
  intros w. unfold removeEventListener.
  destruct (removeFirst ch (listenersOf method w)) as [rest|] eqn:E; [|reflexivity].
  assert (forall m x, x ∈ listenersOf m w ->
            x ∈ listenersOf m (closeChan ch (setSession (setListeners (<[method := rest]>
                (eventListeners (session w))) (session w)) w))
            \/ x ∈ {[ch]} ∪ chanClosed w) as Hlisted.
  { intros m x Hx.
    assert (listenersOf m (closeChan ch (setSession (setListeners (<[method := rest]>
                (eventListeners (session w))) (session w)) w))
            = if decide (method = m) then rest else listenersOf m w) as ->.
    { unfold listenersOf. cbn. case_decide as Hm.
      - subst. by rewrite lookup_insert_eq.
      - by rewrite lookup_insert_ne. }
    case_decide as Hm; [subst m|by left].
    destruct (removeFirst_elem _ _ _ x E Hx) as [H| ->]; [by left|].
    right. apply elem_of_union_l. by apply elem_of_singleton. }
  split; unfold listenerMade; cbn [snd closeChan setSession nextChan chanClosed].
  - lia.
  - done.
  - intros x Hx. by apply elem_of_union_r.
  - exact Hlisted.
  - intros x [ [? ?] _]. lia.
Qed.

Section TidyFacts.
Variable parseGetTree : RawMessage -> Result (list string).
Variable parseCallResult : RawMessage -> option (string * string).
Variable parseElementInfo : string -> option elementInfo.
Variable env : Env.

#[local] Abbreviation click4 := (handleVibiumClick parseGetTree parseCallResult parseElementInfo env).
#[local] Abbreviation type4 := (handleVibiumType parseGetTree parseCallResult parseElementInfo env).
#[local] Abbreviation find4 := (handleVibiumFind parseGetTree parseCallResult parseElementInfo env).

Lemma tidy_handlers cmd w :
  tidy w (find4 cmd w).2 /\ tidy w (click4 cmd w).2 /\ tidy w (type4 cmd w).2.
Proof.
  split; [|split];
    [apply lift_find | apply lift_click | apply lift_type];
    try apply _;
    try apply tidy_sendInternalCommand;
    try apply tidy_addEventListener;
    try apply tidy_removeEventListener;
    try apply tidy_takeFrom;
    intros; by apply tidy_frame.
Qed.

(** X27.  No listener channel leaks: when [vibium:find],
    [vibium:click] or [vibium:type] returns, on whichever path, every
    listener channel made during the command has been closed, and every
    channel that was closed before is still closed. *)
Theorem listener_channels_are_closed (cmd : bidiCommand) (w : World) :
  registryFresh w ->
  noLeak w (find4 cmd w).2 /\ noLeak w (click4 cmd w).2 /\ noLeak w (type4 cmd w).2.
Proof.
  intros Hfresh.
  assert (forall w', tidy w w' -> restores w w' -> noLeak w w') as Hgo.
  { intros w' T R. destruct (restores_noListenerLeft w w' Hfresh R) as [_ Hnone].
    split; [|apply (tidy_closed _ _ T)].
    intros ch Hmade. destruct (tidy_made _ _ T ch Hmade) as [H|(method & H)]; [done|].
    destruct Hmade as [ [Hlo _] _]. by apply Hnone in H. }
  destruct (tidy_handlers cmd w) as (Tf & Tc & Tt).
  split; [|split]; apply Hgo; try done;
    [apply find_restores | apply click_restores | apply type_restores].
Qed.

End TidyFacts.

(* ===================================================================== *)
(** ** Removing listeners, command ids, clicks without navigation        *)
(* ===================================================================== *)

(** X8.  Removing a channel that is not registered for the method
    changes nothing, so the channel is not closed; when a method lists its
    channels once, a removed channel is no longer listed, and removing it
    again changes nothing: it is closed once. *)
Theorem listener_is_removed_once method ch w :
  NoDup (listenersOf method w) ->
  (ch ∉ listenersOf method w -> removeEventListener method ch w = (tt, w))
  /\ (ch ∉ listenersOf method (removeEventListener method ch w).2)
  /\ removeEventListener method ch (removeEventListener method ch w).2
     = (tt, (removeEventListener method ch w).2).
Proof.
  intros Hnd.
  assert (forall w', ch ∉ listenersOf method w' ->
                     removeEventListener method ch w' = (tt, w')) as Habsent.
  { intros w' Hnin. unfold removeEventListener.
    by rewrite (proj2 (removeFirst_None ch _) Hnin). }
  assert (ch ∉ listenersOf method (removeEventListener method ch w).2) as Hgone.
  { unfold removeEventListener.
    destruct (removeFirst ch (listenersOf method w)) as [rest|] eqn:E.
    - destruct (removeFirst_Some _ _ _ E) as (_ & _ & Hr). destruct (Hr Hnd) as [_ Hnin].
      unfold listenersOf. cbn. by rewrite lookup_insert_eq.
    - by apply removeFirst_None. }
  split; [apply Habsent|]. split; [exact Hgone | by apply Habsent].
Qed.

Lemma wrap64_add_l a b : wrap64 (wrap64 a + b) = wrap64 (a + b).
Proof.
  unfold wrap64. f_equal.
  replace ((a + 2 ^ 63) mod 2 ^ 64 - 2 ^ 63 + b + 2 ^ 63)
    with ((a + 2 ^ 63) mod 2 ^ 64 + b) by lia.
  rewrite Zplus_mod_idemp_l. f_equal. lia.
Qed.

Lemma commandIDs_app l1 l2 : commandIDs (l1 ++ l2) = commandIDs l1 ++ commandIDs l2.
Proof. unfold commandIDs. apply omap_app. Qed.

Lemma counts_refl w : inInt64 (nextInternalID (session w)) -> counts w w.
Proof.
  intros Hin. exists [], 0%nat. rewrite app_nil_r, Z.add_0_r, wrap64_id by done. done.
Qed.

Lemma counts_trans w1 w2 w3 : counts w1 w2 -> counts w2 w3 -> counts w1 w3.
Proof.
  intros (l1 & n1 & Ht1 & Hi1 & Hn1) (l2 & n2 & Ht2 & Hi2 & Hn2).
  exists (l1 ++ l2), (n1 + n2)%nat. split; [by rewrite Ht2, Ht1, app_assoc|]. split.
  - rewrite commandIDs_app, Hi1, Hi2, seq_app, fmap_app. f_equal.
    rewrite Hn1.
    assert (seq (0 + n1) n2 = Nat.add n1 <$> seq 0 n2) as ->
      by (rewrite fmap_add_seq; f_equal; lia).
    rewrite <- list_fmap_compose.
    apply list_fmap_ext. intros _ k _. cbn. rewrite wrap64_add_l. f_equal. lia.
  - rewrite Hn2, Hn1, wrap64_add_l. f_equal. lia.
Qed.

Lemma counts_same w w' :
  nextInternalID (session w') = nextInternalID (session w) ->
  (exists l, trace w' = trace w ++ l /\ commandIDs l = []) ->
  inInt64 (nextInternalID (session w)) -> counts w w'.
Proof.
  intros Hn (l & Ht & Hl) Hin. exists l, 0%nat.
  rewrite Z.add_0_r, wrap64_id by done. done.
Qed.

Lemma wrap64_range z : inInt64 (wrap64 z).
Proof.
  unfold inInt64, wrap64, minInt64, maxInt64.
  pose proof (Z.mod_pos_bound (z + 2 ^ 63) (2 ^ 64) ltac:(lia)). lia.
Qed.

#[local] Instance countsInRange_preorder : PreOrder countsInRange.
Proof.
  split.
  - intros w Hin. split; [done | by apply counts_refl].
  - intros w1 w2 w3 H12 H23 Hin. destruct (H12 Hin) as [Hin2 C12].
    destruct (H23 Hin2) as [Hin3 C23]. split; [done | by eapply counts_trans].
Qed.

Lemma countsInRange_same w w' :
  nextInternalID (session w') = nextInternalID (session w) ->
  (exists l, trace w' = trace w ++ l /\ commandIDs l = []) ->
  countsInRange w w'.
Proof. intros Hn Hl Hin. split; [by rewrite Hn | by apply counts_same]. Qed.

Lemma countsInRange_sendInternalCommand env method params :
  preserves countsInRange (sendInternalCommand env method params).
Proof.
  intros w Hin. destruct (sendInternalCommand_world env method params w) as (Hs & Ht & _).
  rewrite Hs. cbn [nextInternalID setInternal]. split; [apply wrap64_range|].
  exists [BidiSendCommand (nextInternalID (session w)) method params], 1%nat.
  split; [done|]. rewrite Hs. cbn. rewrite Z.add_0_r, wrap64_id by done. done.
Qed.

Lemma bufOf_sendInternalCommand env method params ch w :
  ch <> nextChan w ->
  bufOf ch (sendInternalCommand env method params w).2 = bufOf ch w.
Proof.
  intros Hne. unfold sendInternalCommand, registerInternal, unregisterInternal. run.
  assert (forall w0, chanBuf w0 = <[nextChan w := []]> (chanBuf w) -> bufOf ch w0 = bufOf ch w)
    as Hframe.
  { intros w0 H0. unfold bufOf. by rewrite H0, lookup_insert_ne. }
  destruct (sendFails env (nextInternalID (session w))) as [e|]; run; [by apply Hframe|].
  unfold awaitInternal. destruct (selectCase _ _ _) as [t [resp| |] ]; cbn [fst snd];
    try (unfold bufOf; cbn; by rewrite lookup_insert_ne).
  unfold takeFrom. destruct (bufOf (nextChan w) _) as [|x rest].
  - unfold bufOf. cbn. by rewrite lookup_insert_ne.
  - unfold bufOf. cbn. by rewrite !lookup_insert_ne.
Qed.

Lemma bufOf_addEventListener method ch w :
  bufOf ch (addEventListener method w).2 = if decide (ch = nextChan w) then [] else bufOf ch w.
Proof.
  unfold addEventListener, bufOf. run. cbn. case_decide as H.
  - subst. by rewrite lookup_insert_eq.
  - by rewrite lookup_insert_ne.
Qed.

Lemma countsInRange_takeFrom w ch : countsInRange w (takeFrom ch w).
Proof.
  unfold takeFrom. destruct (bufOf ch w); apply countsInRange_same; try done;
    exists []; by rewrite app_nil_r.
Qed.

Lemma countsInRange_addEventListener method :
  preserves countsInRange (addEventListener method).
Proof.
  intros w. destruct (addEventListener_run method w) as (_ & _ & _ & Ht).
  apply countsInRange_same; [by unfold addEventListener; run|].
  exists []. by rewrite app_nil_r.
Qed.

Lemma countsInRange_removeEventListener method ch :
  preserves countsInRange (removeEventListener method ch).
Proof.
  intros w. destruct (removeEventListener_run method ch w) as (_ & _ & Ht).
  apply countsInRange_same; [|exists []; by rewrite app_nil_r].
  unfold removeEventListener. by destruct (removeFirst _ _).
Qed.

Section CommandMore.
Variable parseGetTree : RawMessage -> Result (list string).
Variable parseCallResult : RawMessage -> option (string * string).
Variable parseElementInfo : string -> option elementInfo.
Variable env : Env.

#[local] Abbreviation click' := (handleVibiumClick parseGetTree parseCallResult parseElementInfo env).
#[local] Abbreviation type' := (handleVibiumType parseGetTree parseCallResult parseElementInfo env).
#[local] Abbreviation find' := (handleVibiumFind parseGetTree parseCallResult parseElementInfo env).

(** X9.  The commands an extension command sends to the browser take
    their ids from the session counter, one after the other and starting
    at its value: no two of them share an id (up to the wrap-around of a
    64-bit [int]), and the counter ends just past the last one. *)
Theorem internal_ids_are_consecutive (cmd : bidiCommand) (w : World) :
  inInt64 (nextInternalID (session w)) ->
  counts w (find' cmd w).2 /\ counts w (click' cmd w).2 /\ counts w (type' cmd w).2.
Proof.
  intros Hin.
  assert (forall h, h = find' cmd \/ h = click' cmd \/ h = type' cmd ->
                    countsInRange w (h w).2) as Hall.
  { intros h [-> | [-> | ->] ];
      [apply lift_find | apply lift_click | apply lift_type];
      try apply _;
      try apply countsInRange_sendInternalCommand;
      try apply countsInRange_addEventListener;
      try apply countsInRange_removeEventListener;
      try apply countsInRange_takeFrom;
      intros; apply countsInRange_same; try done;
      first [ by exists []; rewrite app_nil_r | by eexists [_] ]. }
  repeat split; apply Hall; auto.
Qed.

End CommandMore.

(* ===================================================================== *)
(** ** Waiting for a navigation that does not come                       *)
(* ===================================================================== *)

Lemma refused_after id w w1 w2 :
  extends isBidiCommand w w1 -> refused id w1 w2 -> refused id w w2.
Proof.
  intros (l1 & H1 & F1) (l2 & message & H2 & F2).
  exists (l1 ++ l2), message. rewrite H2, H1, <- !app_assoc.
  split; [done | by apply Forall_app].
Qed.

Lemma refused_bind {A} id (m : M A) (f : A -> M unit) (P : A -> World -> Prop) w :
  extends isBidiCommand w (m w).2 ->
  P (m w).1 (m w).2 ->
  (forall a w1, P a w1 -> refused id w1 (f a w1).2) ->
  refused id w ((m ≫= f) w).2.
Proof.
  intros Hm HP Hf. rewrite bind_run. eapply refused_after; [apply Hm | by apply Hf].
Qed.

Lemma silent_at {A} (m : M A) w :
  preserves quiet m -> extends isBidiCommand w (m w).2.
Proof. intros Q. exact (quiet_trace _ _ (Q w)). Qed.

Lemma refused_sendError id err w : refused id w (sendError id err w).2.
Proof. rewrite sendError_run. exists [], err. split; [done | constructor]. Qed.

Lemma refused_cleanup id err chs w :
  refused id w ((cleanupListeners chs;; sendError id err) w).2.
Proof.
  apply (refused_bind id _ _ (fun _ _ => True)); [|done|].
  - exists []. destruct (cleanupListeners_run chs w) as (_ & _ & ->). by rewrite app_nil_r.
  - intros _ w1 _. apply refused_sendError.
Qed.

Lemma refused_cleanup_run id err chs w :
  refused id w (sendError id err (cleanupListeners chs w).2).2.
Proof.
  pose proof (refused_cleanup id err chs w) as H. by rewrite bind_run in H.
Qed.

Lemma registerListeners_first waitBehavior w :
  (waitBehavior =? "none")%string = false ->
  let r := registerListeners waitBehavior w in
  r.1.1.1 = Some (nextChan w)
  /\ bufOf (nextChan w) r.2 = []
  /\ (nextChan w < nextChan r.2)%nat.
Proof.
  intros Hwb. cbn zeta. unfold registerListeners, listenIf. rewrite Hwb. cbn [negb]. run.
  set (w1 := (addEventListener navigationStarted w).2).
  assert ((addEventListener navigationStarted w).1 = nextChan w) as -> by done.
  assert (bufOf (nextChan w) w1 = []) as Hb1.
  { subst w1. rewrite bufOf_addEventListener. by rewrite decide_True. }
  assert (nextChan w1 = S (nextChan w)) as Hn1 by done.
  assert (forall b method w2,
             bufOf (nextChan w) w2 = [] -> (nextChan w < nextChan w2)%nat ->
             let w3 := ((if b : bool then ch ← addEventListener method; mret (Some ch)
                         else mret None) w2).2 in
             bufOf (nextChan w) w3 = [] /\ (nextChan w < nextChan w3)%nat) as Hstep.
  { intros b method w2 Hb Hlt. cbn zeta. destruct b; run; [|done].
    rewrite bufOf_addEventListener. split.
    - case_decide; done.
    - destruct (addEventListener_run method w2) as (_ & _ & -> & _). lia. }
  destruct (Hstep (waitBehavior =? "waitForDomContentLoaded")%string domContentLoaded w1)
    as [Hb2 Hn2]; [done | lia |].
  destruct (Hstep (waitBehavior =? "waitForLoad")%string load
              ((if (waitBehavior =? "waitForDomContentLoaded")%string
                then ch ← addEventListener domContentLoaded; mret (Some ch)
                else mret None) w1).2) as [Hb3 Hn3]; [done | done |].
  done.
Qed.

Section NavigationFacts.
Variable parseGetTree : RawMessage -> Result (list string).
Variable parseCallResult : RawMessage -> option (string * string).
Variable parseElementInfo : string -> option elementInfo.
Variable env : Env.

#[local] Abbreviation click2 := (handleVibiumClick parseGetTree parseCallResult parseElementInfo env).
#[local] Abbreviation type2 := (handleVibiumType parseGetTree parseCallResult parseElementInfo env).

Hypothesis no_navigation : eventAt env navigationStarted = None.

Lemma refused_performAndWait id waitBehavior timeout deadline params result chs c w :
  (waitBehavior =? "none")%string = false ->
  chs.1.1 = Some c -> bufOf c w = [] -> (c < nextChan w)%nat ->
  refused id w (performAndWait env id waitBehavior timeout deadline params result chs w).2.
Proof.
  intros Hwb Hc Hbuf Hlt. unfold performAndWait.
  apply (refused_bind id _ _ (fun _ w1 => bufOf c w1 = [])).
  - apply silent_at, quiet_sendInternalCommand.
  - rewrite bufOf_sendInternalCommand; [done | lia].
  - intros [resp|e] w1 Hb1; [|apply refused_cleanup].
    unfold waitNavigation. rewrite Hwb. cbn [negb]. rewrite Hc.
    rewrite bind_run, bind_run, (awaitEvent_no_event env _ _ _ _ Hb1 no_navigation).
    cbn [fst snd negb]. run.
    eapply refused_after; [|apply refused_cleanup_run].
    exists []. by rewrite app_nil_r.
Qed.

Lemma refused_registered id waitBehavior timeout deadline params result w :
  (waitBehavior =? "none")%string = false ->
  refused id w
    ((chs ← registerListeners waitBehavior;
      performAndWait env id waitBehavior timeout deadline params result chs) w).2.
Proof.
  intros Hwb. destruct (registerListeners_first waitBehavior w Hwb) as (Hc & Hb & Hn).
  apply (refused_bind id _ _
           (fun chs w1 => chs.1.1 = Some (nextChan w) /\ bufOf (nextChan w) w1 = []
                          /\ (nextChan w < nextChan w1)%nat)); [|done|].
  - exists []. destruct (registerListeners_run waitBehavior w) as (_ & _ & _ & ->).
    by rewrite app_nil_r.
  - intros chs w1 (Hc1 & Hb1 & Hn1). by eapply refused_performAndWait.
Qed.

(** X10.  While the browser reports no navigation, a [vibium:click]
    whose wait behavior is not "none" is never answered with a success:
    whatever the element and whatever the click did, the one response is
    an error frame.  Since [vibium:click] waits for the load by default, a
    click that starts no navigation is reported as an error; the same holds
    for a [vibium:type] that asks for a wait. *)
Theorem click_without_navigation_is_refused (cmd : bidiCommand) (w : World) :
  ((orDefault (paramString (cmdParams cmd) "waitBehavior") "waitForLoad" =? "none")%string
   = false -> refused (cmdID cmd) w (click2 cmd w).2)
  /\ ((orDefault (paramString (cmdParams cmd) "waitBehavior") "none" =? "none")%string
      = false -> refused (cmdID cmd) w (type2 cmd w).2).
Proof.
  split; intros Hwb.
  - unfold handleVibiumClick.
    apply (refused_bind _ _ _ (fun _ _ => True)); [apply silent_at, quiet_timeNow | done |].
    intros t w0 _.
    apply (refused_bind _ _ _ (fun _ _ => True));
      [apply silent_at, quiet_resolveContext | done |].
    intros [context|e] w1 _; [|apply refused_sendError].
    apply (refused_bind _ _ _ (fun _ _ => True));
      [apply silent_at, quiet_remainingTime | done |].
    intros remaining w1' _.
    apply (refused_bind _ _ _ (fun _ _ => True));
      [apply silent_at, quiet_waitForElement | done |].
    intros [info|e] w2 _; [|apply refused_sendError].
    by apply refused_registered.
  - unfold handleVibiumType.
    apply (refused_bind _ _ _ (fun _ _ => True)); [apply silent_at, quiet_timeNow | done |].
    intros t w0 _.
    apply (refused_bind _ _ _ (fun _ _ => True));
      [apply silent_at, quiet_resolveContext | done |].
    intros [context|e] w1 _; [|apply refused_sendError].
    apply (refused_bind _ _ _ (fun _ _ => True));
      [apply silent_at, quiet_remainingTime | done |].
    intros remaining w1' _.
    apply (refused_bind _ _ _ (fun _ _ => True));
      [apply silent_at, quiet_waitForElement | done |].
    intros [info|e] w2 _; [|apply refused_sendError].
    apply (refused_bind _ _ _ (fun _ _ => True));
      [apply silent_at, quiet_sendInternalCommand | done |].
    intros [focused|e] w3 _; [|apply refused_sendError].
    by apply refused_registered.
Qed.

End NavigationFacts.

(* ===================================================================== *)
(** ** An element that is there                                           *)
(* ===================================================================== *)

Section FoundFacts.
Variable parseGetTree : RawMessage -> Result (list string).
Variable parseCallResult : RawMessage -> option (string * string).
Variable parseElementInfo : string -> option elementInfo.
Variable env : Env.

#[local] Abbreviation find3 := (handleVibiumFind parseGetTree parseCallResult parseElementInfo env).

Lemma callSelect_replied w d resp :
  replyOf env (nextInternalID (session w)) = Some (d, resp) ->
  d < 60 * Second ->
  stopChan (session w) = false ->
  stopAt env = None ->
  callSelect env w = (now w + Z.max 0 d, CaseReply resp).
Proof.
  intros Hreply Hd Hstop Hnever.
  pose proof (callSelect_cases env w) as Hcases. cbn zeta in Hcases.
  assert ((callSelect env w).1 <= now w + Z.max 0 d) as Hle.
  { unfold callSelect, internalSelect.
    apply (selectCase_le _ _ _ (now w + Z.max 0 d, CaseReply resp)).
    right. unfold internalCases. apply elem_of_app. left.
    unfold registerInternal, recvReady, bufOf.
    cbn [makeChan setSession fst snd session now chanBuf setInternal].
    rewrite lookup_insert_eq, Hreply. cbn.
    replace (now w `max` (now w + 0 `max` d)) with (now w + 0 `max` d) by lia.
    left. }
  destruct (callSelect env w) as [t [resp'| |] ]; cbn [fst snd] in *.
  - destruct Hcases as (d' & Hr & ->). rewrite Hreply in Hr. by injection Hr as <- <-.
  - unfold Second, Millisecond, Microsecond, Nanosecond in *. lia.
  - destruct Hcases as [ [Hs _] | (t' & Hs & _) ]; congruence.
Qed.

Lemma sendInternalCommand_replied method params w d resp :
  sendFails env (nextInternalID (session w)) = None ->
  replyOf env (nextInternalID (session w)) = Some (d, resp) ->
  d < 60 * Second ->
  stopChan (session w) = false ->
  stopAt env = None ->
  (sendInternalCommand env method params w).1 = Ok resp
  /\ now (sendInternalCommand env method params w).2 = now w + Z.max 0 d
  /\ trace (sendInternalCommand env method params w).2
     = trace w ++ [BidiSendCommand (nextInternalID (session w)) method params].
Proof.
  intros Hsend Hreply Hd Hstop Hnever.
  rewrite sendInternalCommand_result, sendInternalCommand_now, Hsend.
  rewrite (callSelect_replied w d resp) by done.
  destruct (sendInternalCommand_world env method params w) as (_ & Ht & _). done.
Qed.

(** X25.  When the browser answers the first poll within 60 seconds
    with an element, [vibium:find] (given a context) reports that element
    at once: it has sent one [script.callFunction] command with the
    selector, answers with a success carrying tag, text and box as the
    page reported them, and returns when the answer arrived, without
    waiting for the timeout. *)
Theorem find_reports_the_element (cmd : bidiCommand) (w : World) d resp info :
  let id := nextInternalID (session w) in
  let context := paramString (cmdParams cmd) "context" in
  let selector := paramString (cmdParams cmd) "selector" in
  (context =? "")%string = false ->
  sendFails env id = None ->
  replyOf env id = Some (d, resp) ->
  d < 60 * Second ->
  stopChan (session w) = false ->
  stopAt env = None ->
  pollResult parseCallResult parseElementInfo (Ok resp) = Some info ->
  trace (find3 cmd w).2
  = trace w
    ++ [BidiSendCommand id "script.callFunction" (findParams context selector);
        ClientSendResponse
          {| respID := cmdID cmd; respType := "success";
             respResult :=
               Some (JObj [("tag", JStr (infoTag info));
                           ("text", JStr (infoText info));
                           ("box", JObj [("x", JNum (boxX (infoBox info)));
                                         ("y", JNum (boxY (infoBox info)));
                                         ("width", JNum (boxWidth (infoBox info)));
                                         ("height", JNum (boxHeight (infoBox info)))])]);
             respError := None |}]
  /\ now (find3 cmd w).2 = now w + Z.max 0 d.
Proof.
  cbn zeta. intros Hctx Hsend Hreply Hd Hstop Hnever Hpoll.
  unfold handleVibiumFind, resolveContext. rewrite Hctx. run.
  unfold waitForElement. run. unfold pollFuel.
  rewrite Nat.add_succ_r. cbn [waitForElementLoop]. run.
  destruct (sendInternalCommand_replied "script.callFunction"
              (findParams (paramString (cmdParams cmd) "context")
                          (paramString (cmdParams cmd) "selector")) w d resp)
    as (Hr & Hn & Ht); try done.
  destruct (sendInternalCommand env _ _ w) as [r w1]. cbn [fst snd] in *. subst r.
  rewrite Hpoll. run. unfold default. cbn [from_option id].
  unfold sendSuccess, act, modify. cbn [snd emit trace now].
  rewrite Ht, <- app_assoc. done.
Qed.

End FoundFacts.

(* ===================================================================== *)
(** ** The keys of [vibium:type]                                          *)
(* ===================================================================== *)





(* ===================================================================== *)
(** ** The BiDi client                                                    *)
(* ===================================================================== *)

Section BidiFacts.
Import Bidi BidiSpec.
Variable unmarshalMessage : RawMessage -> Result Message.
Variable unmarshalErrorData : RawMessage -> Result ErrorData.
Variable unmarshalString : RawMessage -> Result string.

#[local] Abbreviation check := (checkResponse unmarshalErrorData unmarshalString).
#[local] Abbreviation await := (awaitResponse unmarshalMessage unmarshalErrorData unmarshalString).
#[local] Abbreviation send :=
  (SendCommand unmarshalMessage unmarshalErrorData unmarshalString).
#[local] Abbreviation step := (eventLoopStep unmarshalMessage).
#[local] Abbreviation loop := (eventLoop unmarshalMessage).

Lemma awaitResponse_skip id frames rest :
  Forall (skipped unmarshalMessage id) frames ->
  await id ((Ok <$> frames) ++ rest) = await id rest.
Proof.
  induction 1 as [|frame frames (m & Hm & Hid) _ IH]; [done|].
  cbn [fmap list_fmap app awaitResponse]. rewrite Hm.
  rewrite bool_decide_eq_false_2 by done. exact IH.
Qed.

(** X11.  Without the event loop, [SendCommand] reads the connection
    until the response with the id of its command arrives: every frame
    before it that parses, be it an event or the response to another
    command, is read and dropped, and the response itself decides the
    result. *)
Theorem sync_command_takes_its_response method params frames resp msg rest w :
  Forall (skipped unmarshalMessage (NextID (commandID w))) frames ->
  unmarshalMessage resp = Ok msg ->
  msgID msg = Some (NextID (commandID w)) ->
  inbox w = (Ok <$> frames) ++ Ok resp :: rest ->
  send method params None w
  = (Some (check msg),
     {| commandID := NextID (commandID w); inbox := rest;
        outbox := outbox w ++ [BidiSendCommand (NextID (commandID w)) method params] |}).
Proof.
  intros Hskip Hresp Hid Hin. unfold SendCommand. rewrite Hin, awaitResponse_skip by done.
  cbn [awaitResponse]. rewrite Hresp, bool_decide_eq_true_2 by done. reflexivity.
Qed.

(** X12.  The synchronous [SendCommand] gives up at the first frame it
    cannot use: an error of [Receive] or a frame that does not parse ends
    the call with an error, whether or not the response would still come;
    and while only other frames arrive the call goes on waiting. *)
Theorem sync_command_fails_on_bad_frame method params frames rest w :
  Forall (skipped unmarshalMessage (NextID (commandID w))) frames ->
  let run received :=
    send method params None
         {| commandID := commandID w; inbox := received; outbox := outbox w |} in
  let after :=
    {| commandID := NextID (commandID w); inbox := rest;
       outbox := outbox w ++ [BidiSendCommand (NextID (commandID w)) method params] |} in
  (run (Ok <$> frames)).1 = None
  /\ (forall e,
        run ((Ok <$> frames) ++ Err e :: rest)
        = (Some (Err ("failed to receive response: " +:+ e)), after))
  /\ (forall bad e,
        unmarshalMessage bad = Err e ->
        run ((Ok <$> frames) ++ Ok bad :: rest)
        = (Some (Err ("failed to parse response: " +:+ e)), after)).
Proof.
  intros Hskip. cbn zeta. unfold SendCommand. cbn [commandID inbox outbox].
  split; [|split].
  - rewrite <- (app_nil_r (Ok <$> frames)), awaitResponse_skip by done. reflexivity.
  - intros e. rewrite awaitResponse_skip by done. reflexivity.
  - intros bad e Hbad. rewrite awaitResponse_skip by done. cbn [awaitResponse].
    by rewrite Hbad.
Qed.

Lemma awaitResponse_Ok id frames msg rest :
  await id frames = (Some (Ok msg), rest) ->
  msgID msg = Some id /\ msgError msg = ""
  /\ exists before resp,
       frames = before ++ Ok resp :: rest /\ unmarshalMessage resp = Ok msg.
Proof.
  induction frames as [|[resp|e] frames IH]; cbn [awaitResponse]; [done| |done].
  destruct (unmarshalMessage resp) as [m|e] eqn:Hm; [|done].
  case_bool_decide as Hid.
  - unfold checkResponse, IsError. destruct (msgError m) as [|a s] eqn:He; cbn.
    + intros [= <- <-]. repeat split; [done..|]. by exists [], resp.
    + destruct (GetError _ _ _) as [ [d|] | ]; done.
  - intros H. destruct (IH H) as (Hid' & He & before & resp' & -> & Hr).
    repeat split; [done..|]. by exists (Ok resp :: before), resp'.
Qed.

(** X13.  [SendCommand] returns a message only if sending worked and
    the connection delivered a frame that parses to that message, carries
    the id the command was given (the counter after the increment) and has
    no error field; what was received before that frame is gone, what came
    after it is left on the connection. *)
Theorem sync_command_success method params sendErr w msg w' :
  send method params sendErr w = (Some (Ok msg), w') ->
  sendErr = None
  /\ msgID msg = Some (NextID (commandID w))
  /\ msgError msg = ""
  /\ commandID w' = NextID (commandID w)
  /\ outbox w' = outbox w ++ [BidiSendCommand (NextID (commandID w)) method params]
  /\ exists before resp,
       inbox w = before ++ Ok resp :: inbox w' /\ unmarshalMessage resp = Ok msg.
Proof.
  unfold SendCommand. destruct sendErr as [e|]; [done|].
  destruct (await (NextID (commandID w)) (inbox w)) as [r rest] eqn:E. cbn [fst snd].
  intros [= -> <-]. cbn [commandID outbox inbox].
  destruct (awaitResponse_Ok _ _ _ _ E) as (Hid & He & Hframes). done.
Qed.

(** X14.  A response with an error field never reaches the caller as a
    message.  An error object becomes "BiDi error: <error> - <message>", a
    plain string is used for both parts, and an error field that is
    neither is quoted as it is. *)
Theorem error_responses_become_errors (msg : Message) :
  (forall m, check msg = Ok m <-> m = msg /\ msgError msg = "")
  /\ (msgError msg <> "" ->
      check msg
      = Err (match unmarshalErrorData (msgError msg), unmarshalString (msgError msg) with
             | Ok d, _ => "BiDi error: " +:+ edError d +:+ " - " +:+ edMessage d
             | Err _, Ok s => "BiDi error: " +:+ s +:+ " - " +:+ s
             | Err _, Err _ => "BiDi error: " +:+ msgError msg
             end)).
Proof.
  unfold checkResponse, IsError, GetError. destruct (msgError msg) as [|a s] eqn:He.
  - cbn. split; [|done]. intros m. split; [by intros [= ->] | by intros [-> _] ].
  - cbn. split.
    + intros m. split; [|by intros [_ ?] ].
      destruct (unmarshalErrorData (String a s)) as [d|e]; [done|].
      by destruct (unmarshalString (String a s)) as [t|e'].
    + intros _. destruct (unmarshalErrorData (String a s)) as [d|e]; [done|].
      by destruct (unmarshalString (String a s)) as [t|e'].
Qed.

(** *** The event loop *)

Lemma step_open frame c :
  eventsClosed c = false ->
  exists c', (step frame c = LoopContinue c' \/ step frame c = LoopEnded c')
             /\ (step frame c = LoopContinue c' -> eventsClosed c' = false
                                                    /\ eventLoopRunning c' = eventLoopRunning c)
             /\ (step frame c = LoopEnded c' -> eventsClosed c' = true
                                                 /\ eventLoopRunning c' = false)
             /\ events c `prefix_of` events c'
             /\ ((length (events c) <= 100)%nat -> (length (events c') <= 100)%nat).
Proof.
  intros Hopen. unfold eventLoopStep. destruct frame as [resp|e].
  - destruct (unmarshalMessage resp) as [msg|e].
    + destruct (msgID msg) as [id|].
      * case_bool_decide; eexists; (split; [by left|]); cbn; repeat split; done.
      * destruct (IsEvent msg); [|eexists; (split; [by left|]); repeat split; done].
        rewrite Hopen. destruct (length (events c) <? 100)%nat eqn:Hlen.
        -- eexists; (split; [by left|]); cbn. repeat split; try done.
           ++ by apply prefix_app_r.
           ++ intros _. apply Nat.ltb_lt in Hlen. rewrite length_app. cbn. lia.
        -- eexists; (split; [by left|]); repeat split; done.
    + eexists; (split; [by left|]); repeat split; done.
  - rewrite Hopen. eexists; (split; [by right|]); cbn; repeat split; done.
Qed.

Lemma loop_open frames c :
  eventsClosed c = false ->
  exists c', loopClient (loop frames c) = Some c'
             /\ eventsClosed c' = loopEnded (loop frames c)
             /\ (loopEnded (loop frames c) = true -> eventLoopRunning c' = false)
             /\ events c `prefix_of` events c'
             /\ ((length (events c) <= 100)%nat -> (length (events c') <= 100)%nat).
Proof.
  revert c. induction frames as [|frame frames IH]; intros c Hopen.
  - exists c. cbn. by rewrite Hopen.
  - cbn [eventLoop].
    destruct (step_open frame c Hopen) as (c1 & [E|E] & Hcont & Hend & Hpre & Hlen);
      rewrite E.
    + destruct (Hcont E) as [Hopen1 _].
      destruct (IH c1 Hopen1) as (c' & Hc & Hcl & Hrun & Hpre' & Hlen').
      exists c'. repeat split; try done; [by etrans | auto].
    + destruct (Hend E) as [Hcl Hrun]. exists c1. cbn. done.
Qed.

(** X15.  An event loop started on an open events channel does not
    panic.  It appends the events it accepts to the channel in the order
    they arrive and never holds more than the 100 the channel has room
    for (further events are dropped); it closes the channel exactly when
    it ends, which is when [Receive] fails, and then clears the running
    flag. *)
Theorem event_loop_keeps_the_channel_bounded frames c :
  eventsClosed c = false ->
  (length (events c) <= 100)%nat ->
  exists c',
    loopClient (loop frames c) = Some c'
    /\ events c `prefix_of` events c'
    /\ (length (events c') <= 100)%nat
    /\ eventsClosed c' = loopEnded (loop frames c)
    /\ (loopEnded (loop frames c) = true -> eventLoopRunning c' = false).
Proof.
  intros Hopen Hlen.
  destruct (loop_open frames c Hopen) as (c' & Hc & Hcl & Hrun & Hpre & Hlen').
  exists c'. auto 10.
Qed.

Lemma step_answered frame id msg c :
  id ∉ pendingCommands c -> responses c !! id = Some msg ->
  match step frame c with
  | LoopContinue c' | LoopEnded c' =>
      (id ∉ pendingCommands c') /\ responses c' !! id = Some msg
  | LoopPanic _ => True
  end.
Proof.
  intros Hid Hr. unfold eventLoopStep. destruct frame as [resp|e].
  - destruct (unmarshalMessage resp) as [m|e]; [|done].
    destruct (msgID m) as [id'|].
    + case_bool_decide as Hp; [|done]. cbn.
      split; [rewrite not_elem_of_difference; by left|].
      rewrite lookup_insert_ne; [done | congruence].
    + destruct (IsEvent m); [|done]. destruct (eventsClosed c); [done|].
      by destruct (_ <? _)%nat.
  - by destruct (eventsClosed c).
Qed.

Lemma loop_answered frames id msg c :
  id ∉ pendingCommands c -> responses c !! id = Some msg ->
  forall c', loopClient (loop frames c) = Some c' ->
             (id ∉ pendingCommands c') /\ responses c' !! id = Some msg.
Proof.
  revert c. induction frames as [|frame frames IH]; intros c Hid Hr c'.
  - cbn. by intros [= <-].
  - cbn [eventLoop]. pose proof (step_answered frame id msg c Hid Hr) as Hs.
    destruct (step frame c) as [c1|c1|reason]; [|by intros [= <-]|done].
    destruct Hs. by apply IH.
Qed.

Lemma step_not_for frame id c :
  notFor unmarshalMessage id frame -> eventsClosed c = false ->
  exists c', step (Ok frame) c = LoopContinue c'
             /\ eventsClosed c' = false
             /\ (id ∈ pendingCommands c <-> id ∈ pendingCommands c')
             /\ responses c' !! id = responses c !! id.
Proof.
  intros Hnot Hopen. unfold eventLoopStep.
  destruct (unmarshalMessage frame) as [m|e] eqn:Hm; [|by exists c].
  specialize (Hnot m Hm).
  destruct (msgID m) as [id'|].
  - case_bool_decide; [|by exists c]. eexists. split; [done|]. cbn.
    split; [done|]. split.
    + rewrite elem_of_difference, elem_of_singleton. intuition congruence.
    + rewrite lookup_insert_ne; [done | congruence].
  - destruct (IsEvent m); [|by exists c]. rewrite Hopen.
    destruct (_ <? _)%nat; [|by exists c]. eexists. split; [done|]. done.
Qed.

Lemma loop_not_for frames rest id c :
  Forall (notFor unmarshalMessage id) frames -> eventsClosed c = false ->
  exists c', loop ((Ok <$> frames) ++ rest) c = loop rest c'
             /\ eventsClosed c' = false
             /\ (id ∈ pendingCommands c <-> id ∈ pendingCommands c')
             /\ responses c' !! id = responses c !! id.
Proof.
  intros Hall. revert c. induction Hall as [|frame frames Hnot _ IH]; intros c Hopen.
  - by exists c.
  - cbn [fmap list_fmap app eventLoop].
    destruct (step_not_for frame id c Hnot Hopen) as (c1 & -> & Hopen1 & Hp & Hr).
    destruct (IH c1 Hopen1) as (c' & -> & Hopen' & Hp' & Hr').
    exists c'. split; [done|]. split; [done|]. split; [by etrans | congruence].
Qed.

(** X16.  With the event loop running, a command that was registered
    and sent gets the first response that carries its id: frames for
    others pass by, the response is put into the command's channel and the
    registration is removed, and whatever follows (a second response with
    the same id, the end of the connection) does not change what the
    command receives. *)
Theorem response_wakes_its_command frames resp msg rest id c :
  eventsClosed c = false ->
  Forall (notFor unmarshalMessage id) frames ->
  unmarshalMessage resp = Ok msg ->
  msgID msg = Some id ->
  let registered := (registerCommand id None c).2 in
  exists c',
    loopClient (loop ((Ok <$> frames) ++ Ok resp :: rest) registered) = Some c'
    /\ takeResponse unmarshalErrorData unmarshalString id c' = Some (check msg)
    /\ id ∉ pendingCommands c'.
Proof.
  intros Hopen Hframes Hresp Hid. cbn zeta.
  set (c0 := (registerCommand id None c).2).
  assert (eventsClosed c0 = false) as Hopen0 by done.
  assert (id ∈ pendingCommands c0) as Hp0 by (cbn; apply elem_of_union_l; by apply elem_of_singleton).
  destruct (loop_not_for frames (Ok resp :: rest) id c0 Hframes Hopen0)
    as (c1 & -> & Hopen1 & Hp1 & _).
  cbn [eventLoop]. unfold eventLoopStep at 1. rewrite Hresp, Hid.
  rewrite bool_decide_eq_true_2 by (by apply Hp1).
  match goal with |- context [loop rest ?c2] => set (c2' := c2) end.
  assert (eventsClosed c2' = false) as Hopen2 by done.
  destruct (loop_open rest c2' Hopen2) as (c' & Hc & _).
  exists c'. split; [done|].
  destruct (loop_answered rest id msg c2') with (c' := c') as [Hgone Hr]; try done.
  - cbn. rewrite not_elem_of_difference, elem_of_singleton. by right.
  - cbn. by rewrite lookup_insert_eq.
  - split; [|done]. unfold takeResponse. by rewrite Hr.
Qed.

(** X17.  When [Receive] fails, the event loop ends without telling the
    commands that still wait: a command whose response has not come stays
    registered with an empty channel, so its [SendCommand] is never woken;
    the events channel is closed and the running flag cleared. *)
Theorem pending_command_outlives_the_loop frames e rest id c :
  eventsClosed c = false ->
  id ∈ pendingCommands c ->
  responses c !! id = None ->
  Forall (notFor unmarshalMessage id) frames ->
  exists c',
    loop ((Ok <$> frames) ++ Err e :: rest) c = LoopEnded c'
    /\ id ∈ pendingCommands c'
    /\ takeResponse unmarshalErrorData unmarshalString id c' = None
    /\ eventsClosed c' = true
    /\ eventLoopRunning c' = false.
Proof.
  intros Hopen Hp Hr Hframes.
  destruct (loop_not_for frames (Err e :: rest) id c Hframes Hopen)
    as (c1 & -> & Hopen1 & Hp1 & Hr1).
  cbn [eventLoop eventLoopStep]. rewrite Hopen1. eexists. split; [done|]. cbn.
  split; [by apply Hp1|]. split; [|done]. unfold takeResponse. cbn. by rewrite Hr1, Hr.
Qed.

(** X18.  An event loop that has ended can be started again, since the
    running flag is cleared, but the events channel stays closed: the
    restarted loop panics as soon as [Receive] fails again or the first
    event arrives. *)
Theorem restarted_loop_panics frames c c' :
  eventsClosed c = false ->
  loop frames c = LoopEnded c' ->
  let restarted := StartEventLoop c' in
  restarted.1 = true
  /\ (forall e rest, loop (Err e :: rest) restarted.2 = LoopPanic "close of closed channel")
  /\ (forall frame msg rest,
        unmarshalMessage frame = Ok msg -> IsEvent msg = true ->
        loop (Ok frame :: rest) restarted.2 = LoopPanic "send on closed channel").
Proof.
  intros Hopen Hend. cbn zeta.
  destruct (loop_open frames c Hopen) as (c1 & Hc & Hcl & Hrun & _).
  rewrite Hend in Hc, Hcl, Hrun. cbn in Hc, Hcl, Hrun. injection Hc as <-.
  specialize (Hrun eq_refl). unfold StartEventLoop. rewrite Hrun. cbn [fst snd].
  split; [done|]. split.
  - intros e rest. cbn [eventLoop eventLoopStep eventsClosed]. by rewrite Hcl.
  - intros frame msg rest Hm Hev. cbn [eventLoop eventLoopStep]. rewrite Hm.
    unfold IsEvent, IsResponse in Hev. destruct (msgID msg) as [id|] eqn:Hid.
    + by rewrite andb_false_r in Hev.
    + unfold IsEvent, IsResponse. rewrite Hid. rewrite Hev. cbn [eventsClosed].
      by rewrite Hcl.
Qed.

End BidiFacts.

(* ===================================================================== *)
(** ** The router: connecting, disconnecting, closing all                *)
(* ===================================================================== *)

Lemma OnClientMessage_closed parseCommand parseGetTree parseCallResult parseElementInfo
    env msg w :
  closed (session w) = true ->
  OnClientMessage parseCommand parseGetTree parseCallResult parseElementInfo env msg w
  = (tt, w).
Proof. intros H. unfold OnClientMessage. by rewrite H. Qed.

Section ProxyFacts.
Import Proxy.
Variable parseCommand : RawMessage -> option bidiCommand.
Variable parseGetTree : RawMessage -> Result (list string).
Variable parseCallResult : RawMessage -> option (string * string).
Variable parseElementInfo : string -> option elementInfo.
Variable unmarshalMessage : RawMessage -> Result Bidi.Message.
Variable unmarshalErrorData : RawMessage -> Result Bidi.ErrorData.
Variable unmarshalString : RawMessage -> Result string.
Variable unmarshalSubscription : RawMessage -> Result string.

#[local] Abbreviation onConnect :=
  (OnClientConnect unmarshalMessage unmarshalErrorData unmarshalString unmarshalSubscription).
#[local] Abbreviation onMessage' :=
  (Proxy.OnClientMessage parseCommand parseGetTree parseCallResult parseElementInfo).
#[local] Abbreviation close := (closeSession unmarshalMessage unmarshalErrorData unmarshalString).
#[local] Abbreviation closeAll :=
  (Proxy.CloseAll unmarshalMessage unmarshalErrorData unmarshalString).
#[local] Abbreviation unsubscribe :=
  (Bidi.SessionUnsubscribeByID unmarshalMessage unmarshalErrorData unmarshalString).
#[local] Abbreviation subscribe :=
  (Bidi.SessionSubscribe unmarshalMessage unmarshalErrorData unmarshalString
     unmarshalSubscription navigationEvents [] []).

Lemma awaitResponse_suffix id frames :
  (Bidi.awaitResponse unmarshalMessage unmarshalErrorData unmarshalString id frames).2
    `suffix_of` frames.
Proof.
  induction frames as [|[resp|e] frames IH]; cbn [Bidi.awaitResponse]; [done| |].
  - destruct (unmarshalMessage resp) as [m|e]; [|by apply suffix_cons_r].
    case_bool_decide; by apply suffix_cons_r.
  - by apply suffix_cons_r.
Qed.

Lemma subscribe_wire sendErr w :
  Bidi.commandID (subscribe sendErr w).2 = Bidi.NextID (Bidi.commandID w)
  /\ Bidi.outbox (subscribe sendErr w).2
     = Bidi.outbox w ++ [BidiSendCommand (Bidi.NextID (Bidi.commandID w)) "session.subscribe"
                           (Bidi.subscribeParams navigationEvents [] [])]
  /\ Bidi.inbox (subscribe sendErr w).2 `suffix_of` Bidi.inbox w.
Proof.
  unfold Bidi.SessionSubscribe, Bidi.SendCommand. destruct sendErr as [e|]; cbn; [done|].
  repeat split. apply awaitResponse_suffix.
Qed.

(** X19.  A client gets a session only when the browser was launched,
    the BiDi connection made and the subscription answered.  If launching
    or connecting fails the client is sent one failure frame and closed
    (after closing the browser that was launched), and the router is as
    before.  While the response to [session.subscribe] is outstanding no
    session is stored.  A stored session is a fresh one whose only action
    so far is the subscribe command, which took the next BiDi id; the
    routing task gets the rest of what the connection delivers: what the
    subscription has read is not forwarded to the client. *)
Theorem connect_outcomes client d r :
  let id := Bidi.NextID (commandID r) in
  match (onConnect client d r).1 with
  | Refused toClient =>
      (onConnect client d r).2 = r
      /\ ((exists e, launch d = Err e
                     /\ toClient = [ClientSend (failureFrame "Failed to launch browser" e);
                                    ClientClose])
          \/ (exists e, launch d = Ok tt /\ connect d = Err e
                        /\ toClient = [LaunchResultClose;
                                       ClientSend (failureFrame "Failed to connect to browser" e);
                                       ClientClose]))
  | Subscribing =>
      sessions (onConnect client d r).2 = sessions r
      /\ commandID (onConnect client d r).2 = id
  | Serving rest =>
      launch d = Ok tt /\ connect d = Ok tt
      /\ rest `suffix_of` received d
      /\ commandID (onConnect client d r).2 = id
      /\ exists w,
           sessions (onConnect client d r).2 = <[client := w]> (sessions r)
           /\ (exists subscription, session w = newSession subscription)
           /\ trace w = [BidiSendCommand id "session.subscribe"
                           (Bidi.subscribeParams navigationEvents [] [])]
           /\ chanBuf w = ∅ /\ chanClosed w = ∅
  end.
Proof.
  cbn zeta. unfold OnClientConnect.
  destruct (launch d) as [ [] |e] eqn:Hl; [|cbn; split; [done|]; left; by exists e].
  destruct (connect d) as [ [] |e] eqn:Hc; [|cbn; split; [done|]; right; by exists e].
  match goal with |- context [subscribe ?e ?w] =>
    destruct (subscribe_wire e w) as (Hid & Hout & Hin);
    destruct (subscribe e w) as [ [res|] wire] end; cbn [fst snd] in *.
  - cbn. repeat split; try done. eexists. split; [done|]. cbn. rewrite Hout.
    repeat split; try done. by eexists.
  - cbn. done.
Qed.

Lemma closeSession_trace counter sendErr received w :
  let t := (close counter sendErr received w).1 in
  closed (session (tornWorld t)) = true
  /\ trace (tornWorld t)
     = trace w ++ (if closed (session w) then []
                   else if returned t
                        then teardownActions (Bidi.NextID counter) (session w)
                        else [unsubscribeCommand (Bidi.NextID counter) (session w)]).
Proof.
  cbn zeta. split; [apply closeSession_sets_closed|].
  destruct (closed (session w)) eqn:Hcl.
  - by rewrite closeSession_closed, app_nil_r.
  - pose proof (closeSession_open unmarshalMessage unmarshalErrorData unmarshalString
                  counter sendErr received w Hcl) as H.
    cbn zeta in H. destruct H as (_ & _ & H).
    destruct (unsubscribes (session w) && negb (bool_decide (is_Some _)));
      destruct H as (Ht & Htr & _); rewrite Htr; by rewrite Ht.
Qed.

(** X20.  The subscription made when the client connected is undone,
    or being undone, when it disconnects.  For a client that connected,
    disconnecting takes its session out of the map and sets its closed
    flag.  If no handle was stored (subscribing failed or the browser
    returned an empty one) nothing is unsubscribed and the teardown
    returns.  Otherwise [session.unsubscribe] is sent for the handle with
    the next BiDi id, which the counter keeps; when the response (or a
    failure of the connection) reaches the call, the teardown goes on and
    returns; when it does not, the call waits: the stop signal stays open
    and neither the connection nor the browser is closed.  If nothing
    else happened in between, this is all the session ever did. *)
Theorem subscription_is_undone_at_disconnect client d r rest sendErr inbox :
  (onConnect client d r).1 = Serving rest ->
  let r1 := (onConnect client d r).2 in
  let subscribeID := Bidi.NextID (commandID r) in
  let unsubscribeID := Bidi.NextID subscribeID in
  let subscribed :=
    BidiSendCommand subscribeID "session.subscribe"
      (Bidi.subscribeParams navigationEvents [] []) in
  let left := Proxy.OnClientDisconnect unmarshalMessage unmarshalErrorData unmarshalString
                client sendErr inbox r1 in
  exists t subscription,
    left.1 = Some t
    /\ sessions left.2 = delete client (sessions r)
    /\ closed (session (tornWorld t)) = true
    /\ match (subscribe (subscribeSendErr d)
                {| Bidi.commandID := commandID r; Bidi.inbox := received d;
                   Bidi.outbox := [] |}).1 with
       | Some (Ok handle) => subscription = handle
       | _ => subscription = ""
       end
    /\ let unsubscribed :=
         BidiSendCommand unsubscribeID "session.unsubscribe"
           (Bidi.unsubscribeByIDParams [subscription]) in
       let answer :=
         (unsubscribe [subscription] sendErr
            {| Bidi.commandID := subscribeID; Bidi.inbox := inbox;
               Bidi.outbox := [subscribed] |}).1 in
       if (subscription =? "")%string
       then t = TornDown (tornWorld t)
            /\ commandID left.2 = subscribeID
            /\ trace (tornWorld t)
               = [subscribed; CloseStopChan; BidiConnClose; LaunchResultClose]
       else commandID left.2 = unsubscribeID
            /\ match answer with
               | Some _ =>
                   t = TornDown (tornWorld t)
                   /\ trace (tornWorld t)
                      = [subscribed; unsubscribed; CloseStopChan; BidiConnClose;
                         LaunchResultClose]
               | None =>
                   t = Unsubscribing (tornWorld t)
                   /\ trace (tornWorld t) = [subscribed; unsubscribed]
                   /\ stopChan (session (tornWorld t)) = false
               end.
Proof.
  cbn zeta. unfold OnClientConnect.
  destruct (launch d) as [ [] |e]; [|done]. destruct (connect d) as [ [] |e]; [|done].
  match goal with |- context [subscribe ?e ?w] =>
    destruct (subscribe_wire e w) as (Hid & Hout & Hin);
    destruct (subscribe e w) as [ [res|] wire] end; cbn [fst snd] in *; [|done].
  intros _. unfold OnClientDisconnect. cbn [sessions setSessions commandID].
  rewrite lookup_insert_eq. cbn [fst snd sessions commandID]. rewrite delete_insert_eq.
  set (sub := match res with Ok s => s | Err _ => "" end).
  match goal with |- context [close ?c ?e ?i ?w] => set (w0 := w) end.
  assert (closed (session w0) = false) as Hopen by reflexivity.
  pose proof (closeSession_open unmarshalMessage unmarshalErrorData unmarshalString
                (Bidi.commandID wire) sendErr inbox w0 Hopen) as H.
  cbn zeta in H. destruct H as (Hcl & Hcount & Hcase).
  assert (unsubscribes (session w0) = negb (sub =? "")%string) as Hu
    by (unfold unsubscribes; cbn; apply andb_true_r).
  assert (trace w0 = Bidi.outbox wire) as Htr by reflexivity.
  assert (navigationSubscriptionID (session w0) = sub) as Hsub by reflexivity.
  rewrite Hu, Hsub, Htr, Hout in Hcase. rewrite Hu in Hcount. rewrite Hid in *.
  cbn [Bidi.commandID Bidi.outbox app] in *.
  eexists _, sub. split; [reflexivity|]. split; [reflexivity|].
  split; [exact Hcl|]. split; [subst sub; by destruct res|].
  unfold teardownActions, unsubscribeCommand in Hcase. rewrite Hu, Hsub in Hcase.
  destruct (sub =? "")%string; cbn [negb andb app] in *.
  - destruct Hcase as (Ht & Htrace & _). cbn in Htrace. done.
  - split; [exact Hcount|].
    match goal with |- context [unsubscribe ?l ?e ?wire] =>
      destruct (unsubscribe l e wire).1 as [answer|] end.
    + rewrite bool_decide_eq_true_2 in Hcase by (by eexists).
      destruct Hcase as (Ht & Htrace & _). cbn in Htrace. done.
    + rewrite bool_decide_eq_false_2 in Hcase by (by intros [? ?]).
      destruct Hcase as (Ht & Htrace & Hstop). done.
Qed.

(** X21.  Disconnecting is final and local.  The disconnect takes the
    session out of the map before it tears it down; from then on, whether
    the teardown has returned or waits for the response to its
    unsubscribe, a second disconnect finds no session and does nothing,
    the client's messages are dropped without any effect, and the sessions
    of all other clients are as they were.  What is torn down is the
    session the map held, by [closeSession]. *)
Theorem disconnect_is_final client sendErr inbox r :
  let left := Proxy.OnClientDisconnect unmarshalMessage unmarshalErrorData unmarshalString
                client sendErr inbox r in
  let r' := left.2 in
  sessions r' !! client = None
  /\ (forall sendErr' inbox',
        Proxy.OnClientDisconnect unmarshalMessage unmarshalErrorData unmarshalString
          client sendErr' inbox' r' = (None, r'))
  /\ (forall env msg, onMessage' env client msg r' = r')
  /\ (forall other, other <> client -> sessions r' !! other = sessions r !! other)
  /\ left.1 = (fun w => (close (commandID r) sendErr inbox w).1) <$> sessions r !! client
  /\ commandID r' = match sessions r !! client with
                    | Some w => (close (commandID r) sendErr inbox w).2
                    | None => commandID r
                    end.
Proof.
  cbn zeta. unfold OnClientDisconnect, Proxy.OnClientMessage.
  destruct (sessions r !! client) as [w|] eqn:Hw; cbn [fst snd sessions commandID].
  - rewrite lookup_delete_eq. repeat split; try done.
    intros other Hne. by rewrite lookup_delete_ne.
  - rewrite Hw. done.
Qed.

Lemma CloseAll_absent order conn r :
  (forall client, client ∈ order -> sessions r !! client = None) ->
  closeAll order conn r = (∅, r).
Proof.
  induction order as [|c order IH]; intros H; [done|].
  cbn [CloseAll]. rewrite (H c) by left. apply IH. intros client Hin. apply H. by right.
Qed.

(** What [CloseAll] leaves, by induction on the order of the visit. *)
Lemma CloseAll_visit order conn r :
  NoDup order ->
  let result := closeAll order conn r in
  (forall client t,
      result.1 !! client = Some t ->
      client ∈ order
      /\ sessions result.2 !! client = (if returned t then None else Some (tornWorld t))
      /\ exists w counter,
           sessions r !! client = Some w
           /\ t = (close counter (conn client).1 (conn client).2 w).1)
  /\ (forall client, result.1 !! client = None ->
                     sessions result.2 !! client = sessions r !! client)
  /\ ((forall client t, result.1 !! client = Some t -> returned t = true) ->
      forall client, client ∈ order -> is_Some (sessions r !! client) ->
                     is_Some (result.1 !! client))
  /\ (forall before client after w',
        order = before ++ client :: after ->
        result.1 !! client = Some (Unsubscribing w') ->
        forall later, later ∈ after ->
                      result.1 !! later = None
                      /\ sessions result.2 !! later = sessions r !! later).
Proof.
  cbn zeta. revert r. induction order as [|c order IH]; intros r Hnd.
  { cbn [CloseAll fst snd]. split; [|split; [|split] ].
    - intros client t H. by rewrite lookup_empty in H.
    - done.
    - intros _ client Hin. by apply elem_of_nil in Hin.
    - intros before client after w' H. by destruct before. }
  apply NoDup_cons in Hnd as [Hc Hnd]. cbn [CloseAll].
  destruct (sessions r !! c) as [w|] eqn:Hw.
  2:{ destruct (IH r Hnd) as (H1 & H2 & H3 & H4). split; [|split; [|split] ].
      - intros client t Ht. destruct (H1 client t Ht) as (Hin & Hrest).
        split; [by right | exact Hrest].
      - exact H2.
      - intros Hall client Hin Hsome. apply elem_of_cons in Hin as [->|Hin].
        + rewrite Hw in Hsome. by destruct Hsome.
        + by apply H3.
      - intros before client after w' Ho Ht. destruct before as [|b before].
        + cbn in Ho. injection Ho as <- <-.
          destruct (H1 _ _ Ht) as (_ & _ & w0 & counter & Hs & _). congruence.
        + cbn in Ho. injection Ho as <- ->. by apply (H4 before client after w'). }
  destruct (close (commandID r) (conn c).1 (conn c).2 w) as [t counter'] eqn:Ht.
  cbn [fst snd]. destruct t as [w'|w']; cbn [fst snd].
  - match goal with |- context [closeAll order conn ?r2] =>
      destruct (IH r2 Hnd) as (H1 & H2 & H3 & H4); set (next := closeAll order conn r2) in *
    end.
    cbn [sessions] in *.
    assert (next.1 !! c = None) as Hfresh.
    { destruct (next.1 !! c) as [t|] eqn:E; [|done]. by destruct (H1 c t E). }
    split; [|split; [|split] ].
    + intros client t. destruct (decide (client = c)) as [->|Hne].
      * rewrite lookup_insert_eq. intros [= <-]. split; [left|]. split.
        -- cbn [returned]. rewrite (H2 c Hfresh). apply lookup_delete_eq.
        -- exists w, (commandID r). split; [done|]. by rewrite Ht.
      * rewrite lookup_insert_ne by done. intros Hcl.
        destruct (H1 client t Hcl) as (Hin & Hs & w0 & counter & Hw0 & Hclose).
        split; [by right|]. split; [exact Hs|]. exists w0, counter.
        split; [|exact Hclose]. by rewrite lookup_delete_ne in Hw0.
    + intros client. destruct (decide (client = c)) as [->|Hne];
        [by rewrite lookup_insert_eq|].
      rewrite lookup_insert_ne by done. intros Hn.
      rewrite (H2 client Hn). by rewrite lookup_delete_ne.
    + intros Hall client Hin Hsome. destruct (decide (client = c)) as [->|Hne];
        [by rewrite lookup_insert_eq|].
      rewrite lookup_insert_ne by done.
      apply elem_of_cons in Hin as [->|Hin]; [done|]. apply H3; [|done|].
      * intros c' t' Ht'. apply (Hall c'). rewrite lookup_insert_ne; [done|].
        intros <-. by rewrite Hfresh in Ht'.
      * by rewrite lookup_delete_ne.
    + intros before client after w'' Ho Hcl. destruct before as [|b before].
      * cbn in Ho. injection Ho as <- <-. by rewrite lookup_insert_eq in Hcl.
      * cbn in Ho. injection Ho as <- ->.
        assert (client <> c) as Hne.
        { intros ->. apply Hc. apply elem_of_app. right. left. }
        rewrite lookup_insert_ne in Hcl by done.
        intros later Hin.
        assert (later <> c) as Hne'.
        { intros ->. apply Hc. apply elem_of_app. right. by right. }
        destruct (H4 before client after w'' eq_refl Hcl later Hin) as [Hl Hs].
        rewrite lookup_insert_ne by done. split; [done|].
        rewrite Hs. by rewrite lookup_delete_ne.
  - cbn [sessions]. split; [|split; [|split] ].
    + intros client t. destruct (decide (client = c)) as [->|Hne].
      * rewrite lookup_singleton_eq. intros [= <-]. split; [left|]. split.
        -- cbn [returned tornWorld]. apply lookup_insert_eq.
        -- exists w, (commandID r). split; [done|]. by rewrite Ht.
      * by rewrite lookup_singleton_ne.
    + intros client. destruct (decide (client = c)) as [->|Hne];
        [by rewrite lookup_singleton_eq|].
      intros _. by rewrite lookup_insert_ne.
    + intros Hall. specialize (Hall c (Unsubscribing w')).
      rewrite lookup_singleton_eq in Hall. by specialize (Hall eq_refl).
    + intros before client after w'' Ho Hcl.
      destruct (decide (client = c)) as [->|Hne]; [|by rewrite lookup_singleton_ne in Hcl].
      destruct before as [|b before].
      * cbn in Ho. injection Ho as <-. intros later Hin.
        assert (later <> c) as Hne by (by intros ->).
        rewrite lookup_singleton_ne by done. by rewrite lookup_insert_ne.
      * cbn in Ho. injection Ho as <- ->. exfalso. apply Hc.
        apply elem_of_app. right. left.
Qed.

(** X22.  [CloseAll] tears the sessions down one after the other, in
    the order in which the map is ranged over, and forgets each once its
    teardown has returned.  Every session it has come to has its closed
    flag set and has performed, if it was open, its teardown actions when
    the teardown returned and the unsubscribe alone when it waits.  When
    every teardown returns, every client of the range is without a
    session afterwards, and if the range covered the map the router has
    no session left, so that later messages are dropped and closing again
    does nothing.  But a teardown that waits for the response to its
    unsubscribe stops the range: its session stays in the map, and the
    sessions that were to come are neither torn down nor removed. *)
Theorem close_all_closes_every_session order conn r :
  NoDup order ->
  let result := Proxy.CloseAll unmarshalMessage unmarshalErrorData unmarshalString
                  order conn r in
  let r' := result.2 in
  (forall client t,
      result.1 !! client = Some t ->
      client ∈ order
      /\ sessions r' !! client = (if returned t then None else Some (tornWorld t))
      /\ closed (session (tornWorld t)) = true
      /\ exists w counter,
           sessions r !! client = Some w
           /\ t = (close counter (conn client).1 (conn client).2 w).1
           /\ trace (tornWorld t)
              = trace w ++ (if closed (session w) then []
                            else if returned t
                                 then teardownActions (Bidi.NextID counter) (session w)
                                 else [unsubscribeCommand (Bidi.NextID counter) (session w)]))
  /\ (forall client, result.1 !! client = None -> sessions r' !! client = sessions r !! client)
  /\ ((forall client t, result.1 !! client = Some t -> returned t = true) ->
      (forall client, client ∈ order -> sessions r' !! client = None)
      /\ (forall client, client ∈ order -> is_Some (sessions r !! client) ->
                         is_Some (result.1 !! client))
      /\ ((forall client, is_Some (sessions r !! client) -> client ∈ order) ->
          sessions r' = ∅
          /\ (forall order' conn', closeAll order' conn' r' = (∅, r'))
          /\ (forall env client msg, onMessage' env client msg r' = r')))
  /\ (forall before client after w',
        order = before ++ client :: after ->
        result.1 !! client = Some (Unsubscribing w') ->
        sessions r' !! client = Some w'
        /\ forall later, later ∈ after ->
                         result.1 !! later = None
                         /\ sessions r' !! later = sessions r !! later).
Proof.
  intros Hnd. cbn zeta.
  destruct (CloseAll_visit order conn r Hnd) as (H1 & H2 & H3 & H4). cbn zeta in *.
  split; [|split; [|split] ].
  - intros client t Ht. destruct (H1 client t Ht) as (Hin & Hs & w & counter & Hw & Hcl).
    split; [exact Hin|]. split; [exact Hs|].
    destruct (closeSession_trace counter (conn client).1 (conn client).2 w) as [Hclosed Htr].
    rewrite <- Hcl in Hclosed, Htr. split; [exact Hclosed|]. by exists w, counter.
  - exact H2.
  - intros Hall.
    assert (forall client, client ∈ order ->
              sessions (closeAll order conn r).2 !! client = None) as Hgone.
    { intros client Hin. destruct ((closeAll order conn r).1 !! client) as [t|] eqn:E.
      - destruct (H1 client t E) as (_ & Hs & _). by rewrite Hs, (Hall client t E).
      - rewrite (H2 client E).
        destruct (sessions r !! client) as [w|] eqn:Hw; [|done].
        destruct (H3 Hall client Hin) as [t Ht]; [by eexists | congruence]. }
    split; [exact Hgone|]. split; [by apply H3|].
    intros Hcover.
    assert (sessions (closeAll order conn r).2 = ∅) as Hempty.
    { apply map_empty. intros client.
      destruct ((closeAll order conn r).1 !! client) as [t|] eqn:E.
      - destruct (H1 client t E) as (Hin & _). by apply Hgone.
      - rewrite (H2 client E).
        destruct (sessions r !! client) as [w|] eqn:Hw; [|done].
        assert (is_Some (sessions r !! client)) as Hsome by (by eexists).
        destruct (H3 Hall client (Hcover client Hsome) Hsome) as [t Ht]. congruence. }
    split; [exact Hempty|]. split.
    + intros order' conn'. apply CloseAll_absent. intros client _.
      by rewrite Hempty, lookup_empty.
    + intros env client msg. unfold Proxy.OnClientMessage.
      by rewrite Hempty, lookup_empty.
  - intros before client after w' Ho Ht. split.
    + by destruct (H1 _ _ Ht) as (_ & -> & _).
    + by apply (H4 before client after w').
Qed.

(** X23.  A client message concerns the session of its sender only: a
    message from a client without a session is dropped, no message creates
    or removes a session, the sessions of the other clients and the BiDi
    id counter are untouched, and a message to a session that is closed
    changes nothing at all. *)
Theorem messages_touch_one_session env client msg r :
  let r' := Proxy.OnClientMessage parseCommand parseGetTree parseCallResult
              parseElementInfo env client msg r in
  (sessions r !! client = None -> r' = r)
  /\ (forall other, is_Some (sessions r' !! other) <-> is_Some (sessions r !! other))
  /\ (forall other, other <> client -> sessions r' !! other = sessions r !! other)
  /\ commandID r' = commandID r
  /\ (forall w, sessions r !! client = Some w -> closed (session w) = true ->
                sessions r' = sessions r).
Proof.
  cbn zeta. unfold Proxy.OnClientMessage.
  destruct (sessions r !! client) as [w|] eqn:Hw; [|done].
  cbn [sessions setSessions commandID]. split; [done|]. split; [|split; [|split] ].
  - intros other. destruct (decide (other = client)) as [->|Hne].
    + rewrite lookup_insert_eq, Hw. split; by eexists.
    + by rewrite lookup_insert_ne.
  - intros other Hne. by rewrite lookup_insert_ne.
  - done.
  - intros w0 [= <-] Hcl. rewrite OnClientMessage_closed by done. cbn.
    by apply insert_id.
Qed.

End ProxyFacts.

(* ===================================================================== *)
(** ** The further theorems at work                                       *)
(* ===================================================================== *)

Lemma event_reaches_every_listener_witness :
  let r := routeMessage Fixture.parseFrame Scenario.loadEvent false nobody
             Scenario.listening in
  NoDup (listenersOf load Scenario.listening)
  /\ (r = Continue (routeWorld r)
      /\ returnsToClient Scenario.loadEvent Scenario.listening r
      /\ session (routeWorld r) = session Scenario.listening
      /\ forall ch,
           bufOf ch (routeWorld r)
           = if bool_decide (ch ∈ listenersOf load Scenario.listening)
                && hasRoom ch Scenario.listening
             then bufOf ch Scenario.listening ++ [Scenario.loadEvent]
             else bufOf ch Scenario.listening)
  /\ exists w',
       routeMessage Fixture.parseFrame Scenario.loadEvent false
         (removesBeforeSend load 1%nat) Scenario.listening
       = Panic "send on closed channel" w'
       /\ trace w' = trace Scenario.listening.
Proof.
  assert (NoDup (listenersOf load Scenario.listening)) as Hnd
    by (apply (bool_decide_unpack _); vm_compute; exact I).
  destruct (event_reaches_every_listener Fixture.parseFrame Scenario.loadEvent
              {| frameID := None; frameMethod := load |} false Scenario.listening
              eq_refl eq_refl eq_refl Hnd) as (Hopen & _ & Hrace).
  split; [exact Hnd|]. split.
  - apply Hopen. intros ch _. apply not_elem_of_empty.
  - apply (Hrace 1%nat). apply (bool_decide_unpack _). vm_compute. exact I.
Defined.

Lemma frames_are_forwarded_in_order_witness :
  let frames := [Scenario.loadEvent; Fixture.getTreeReply 5] in
  let r := routeBrowserToClient Fixture.parseFrame (receivedOk frames) Fixture.connected in
  session (routeWorld r) = session Fixture.connected
  /\ exists done,
       done `prefix_of` frames
       /\ trace (routeWorld r)
          = trace Fixture.connected
            ++ (ClientSend <$> filter (fun msg => captured Fixture.parseFrame
                                                    Fixture.connected msg = false) done)
       /\ match r with
          | Continue _ => done = frames
          | Blocked ch w' =>
              exists msg, (done ++ [msg]) `prefix_of` frames
                          /\ captured Fixture.parseFrame Fixture.connected msg = true
                          /\ hasRoom ch w' = false
          | Return _ => False
          | Panic _ _ =>
              exists msg parsed ch,
                (done ++ [msg]) `prefix_of` frames
                /\ Fixture.parseFrame msg = Some parsed /\ frameID parsed = None
                /\ ch ∈ listenersOf (frameMethod parsed) Fixture.connected
                /\ ch ∈ chanClosed Fixture.connected
          end.
Proof.
  apply (frames_are_forwarded_in_order Fixture.parseFrame
           [Scenario.loadEvent; Fixture.getTreeReply 5] Fixture.connected).
  reflexivity.
Defined.

Lemma routing_ends_with_the_session_witness :
  let route := routeBrowserToClient Fixture.parseFrame in
  let answered :=
    closesWhileReceiving Fixture.unmarshalMessage Fixture.unmarshalErrorData
      Fixture.unmarshalString 1 None [Ok (Fixture.doneReply 2)] in
  let next := (Ok Scenario.loadEvent, false, nobody) in
  route [(Err "EOF", false, nobody)] Fixture.connected
  = Return (emit ClientClose Fixture.connected)
  /\ route [(Err "EOF", false, answered)] Fixture.connected = Return Fixture.stopped
  /\ route [next] Fixture.stopped = Return Fixture.stopped
  /\ route [(Ok Scenario.loadEvent, false, answered); next] Fixture.connected
     = Return (emit (ClientSend Scenario.loadEvent) Fixture.stopped)
  /\ stopChan (session (tornWorld Fixture.unanswered)) = false
  /\ route [next] (tornWorld Fixture.unanswered)
     = Continue (emit (ClientSend Scenario.loadEvent) (tornWorld Fixture.unanswered)).
Proof.
  assert (stopChan (session Fixture.connected) = false) as Hstop by reflexivity.
  assert (closed (session Fixture.connected) = false) as Hopen by reflexivity.
  destruct (routing_ends_with_the_session Fixture.parseFrame Fixture.unmarshalMessage
              Fixture.unmarshalErrorData Fixture.unmarshalString
              (Ok Scenario.loadEvent, false, nobody) [] "EOF" Scenario.loadEvent false
              nobody 1 None [Ok (Fixture.doneReply 2)] Fixture.connected Hstop Hopen)
    as (Herr & Hclosing & _ & Hreturned & _).
  destruct (Hreturned eq_refl) as (_ & Hnext & Hduring).
  destruct (routing_ends_with_the_session Fixture.parseFrame Fixture.unmarshalMessage
              Fixture.unmarshalErrorData Fixture.unmarshalString
              (Ok Scenario.loadEvent, false, nobody) [] "EOF" Scenario.loadEvent false
              nobody 1 None [Ok (Fixture.eventFrame load)] Fixture.connected Hstop Hopen)
    as (_ & _ & _ & _ & Hwaiting).
  destruct (Hwaiting eq_refl) as (Hstill & Hroutes).
  cbn zeta. split; [exact Herr|]. split; [exact Hclosing|]. split; [exact Hnext|].
  split; [exact Hduring|]. split; [exact Hstill | exact Hroutes].
Defined.

Lemma listeners_stay_open_witness :
  registryOk Fixture.connected
  /\ registryOk
       (OnClientMessage Fixture.parseCommand Fixture.parseGetTree Fixture.parseCallResult
          Fixture.parseElementInfo Scenario.stillEnv Fixture.clientGetTree
          Fixture.connected).2
  /\ registryOk (routeWorld (routeMessage Fixture.parseFrame Scenario.loadEvent false nobody
                               Fixture.connected))
  /\ (forall reason w',
        routeMessage Fixture.parseFrame Scenario.loadEvent false nobody Fixture.connected
        <> Panic reason w')
  /\ registryOk Fixture.stopped.
Proof.
  split; [apply registryOk_new|].
  apply (listeners_stay_open Fixture.parseFrame Fixture.parseCommand Fixture.parseGetTree
           Fixture.parseCallResult Fixture.parseElementInfo Scenario.stillEnv
           Fixture.unmarshalMessage Fixture.unmarshalErrorData Fixture.unmarshalString
           Fixture.clientGetTree Scenario.loadEvent false 1 None
           [Ok (Fixture.doneReply 2)] Fixture.connected).
  apply registryOk_new.
Defined.

Lemma listener_is_removed_once_witness :
  (0%nat ∉ listenersOf load Scenario.listening ->
   removeEventListener load 0%nat Scenario.listening = (tt, Scenario.listening))
  /\ (0%nat ∉ listenersOf load (removeEventListener load 0%nat Scenario.listening).2)
  /\ removeEventListener load 0%nat (removeEventListener load 0%nat Scenario.listening).2
     = (tt, (removeEventListener load 0%nat Scenario.listening).2).
Proof.
  apply (listener_is_removed_once load 0%nat Scenario.listening).
  apply (bool_decide_unpack _). vm_compute. exact I.
Defined.

Lemma internal_ids_are_consecutive_witness :
  counts Fixture.connected
    (handleVibiumFind Fixture.parseGetTree Fixture.parseCallResult Fixture.parseElementInfo
       Fixture.absentEnv Fixture.findNope Fixture.connected).2
  /\ counts Fixture.connected
       (handleVibiumClick Fixture.parseGetTree Fixture.parseCallResult
          Fixture.parseElementInfo Fixture.absentEnv Fixture.findNope Fixture.connected).2
  /\ counts Fixture.connected
       (handleVibiumType Fixture.parseGetTree Fixture.parseCallResult
          Fixture.parseElementInfo Fixture.absentEnv Fixture.findNope Fixture.connected).2.
Proof.
  apply (internal_ids_are_consecutive Fixture.parseGetTree Fixture.parseCallResult
           Fixture.parseElementInfo Fixture.absentEnv Fixture.findNope Fixture.connected).
  split; vm_compute; intros H; inversion H.
Defined.

Lemma click_without_navigation_is_refused_witness :
  let cmd := Fixture.clickBack "waitForLoad" in
  ((orDefault (paramString (cmdParams cmd) "waitBehavior") "waitForLoad" =? "none")%string
   = false ->
   refused (cmdID cmd) Fixture.connected
     (handleVibiumClick Fixture.parseGetTree Fixture.parseCallResult Fixture.parseElementInfo
        Scenario.stillEnv cmd Fixture.connected).2)
  /\ ((orDefault (paramString (cmdParams cmd) "waitBehavior") "none" =? "none")%string
      = false ->
      refused (cmdID cmd) Fixture.connected
        (handleVibiumType Fixture.parseGetTree Fixture.parseCallResult
           Fixture.parseElementInfo Scenario.stillEnv cmd Fixture.connected).2).
Proof.
  apply (click_without_navigation_is_refused Fixture.parseGetTree Fixture.parseCallResult
           Fixture.parseElementInfo Scenario.stillEnv eq_refl
           (Fixture.clickBack "waitForLoad") Fixture.connected).
Defined.

Lemma find_reports_the_element_witness :
  trace (handleVibiumFind Fixture.parseGetTree Fixture.parseCallResult
           Fixture.parseElementInfo Scenario.hereEnv Scenario.findHere Fixture.connected).2
  = trace Fixture.connected
    ++ [BidiSendCommand 1000000 "script.callFunction" (findParams "ctx-1" "#go");
        ClientSendResponse
          {| respID := 3; respType := "success";
             respResult :=
               Some (JObj [("tag", JStr "button");
                           ("text", JStr "Submit");
                           ("box", JObj [("x", JNum 100%float);
                                         ("y", JNum 200.5%float);
                                         ("width", JNum 81%float);
                                         ("height", JNum 30%float)])]);
             respError := None |}]
  /\ now (handleVibiumFind Fixture.parseGetTree Fixture.parseCallResult
            Fixture.parseElementInfo Scenario.hereEnv Scenario.findHere Fixture.connected).2
     = now Fixture.connected + Z.max 0 (5 * Millisecond).
Proof.
  apply (find_reports_the_element Fixture.parseGetTree Fixture.parseCallResult
           Fixture.parseElementInfo Scenario.hereEnv Scenario.findHere Fixture.connected
           (5 * Millisecond) (Fixture.foundReply 1000000 "submit") Fixture.submitButton);
    vm_compute; reflexivity.
Defined.


Lemma sync_command_takes_its_response_witness :
  Bidi.SendCommand Fixture.unmarshalMessage Fixture.unmarshalErrorData
    Fixture.unmarshalString "session.status" (JObj []) None Scenario.wire
  = (Some (Bidi.checkResponse Fixture.unmarshalErrorData Fixture.unmarshalString
             Scenario.replyMessage),
     {| Bidi.commandID := Bidi.NextID (Bidi.commandID Scenario.wire);
        Bidi.inbox := [Ok (Fixture.eventFrame navigationStarted)];
        Bidi.outbox := Bidi.outbox Scenario.wire
                       ++ [BidiSendCommand (Bidi.NextID (Bidi.commandID Scenario.wire))
                             "session.status" (JObj [])] |}).
Proof.
  apply (sync_command_takes_its_response Fixture.unmarshalMessage
           Fixture.unmarshalErrorData Fixture.unmarshalString "session.status" (JObj [])
           [Scenario.loadEvent] (Scenario.subscribeReply 1) Scenario.replyMessage
           [Ok (Fixture.eventFrame navigationStarted)] Scenario.wire).
  - constructor; [|constructor]. eexists. split; [reflexivity|]. by vm_compute.
  - reflexivity.
  - reflexivity.
  - reflexivity.
Defined.

Lemma sync_command_fails_on_bad_frame_witness :
  let run received :=
    Bidi.SendCommand Fixture.unmarshalMessage Fixture.unmarshalErrorData
      Fixture.unmarshalString "session.status" (JObj []) None
      {| Bidi.commandID := Bidi.commandID Scenario.wire; Bidi.inbox := received;
         Bidi.outbox := Bidi.outbox Scenario.wire |} in
  let after :=
    {| Bidi.commandID := Bidi.NextID (Bidi.commandID Scenario.wire); Bidi.inbox := [];
       Bidi.outbox := Bidi.outbox Scenario.wire
                      ++ [BidiSendCommand (Bidi.NextID (Bidi.commandID Scenario.wire))
                            "session.status" (JObj [])] |} in
  (run (Ok <$> [Scenario.loadEvent])).1 = None
  /\ (forall e,
        run ((Ok <$> [Scenario.loadEvent]) ++ Err e :: [])
        = (Some (Err ("failed to receive response: " +:+ e)), after))
  /\ (forall bad e,
        Fixture.unmarshalMessage bad = Err e ->
        run ((Ok <$> [Scenario.loadEvent]) ++ Ok bad :: [])
        = (Some (Err ("failed to parse response: " +:+ e)), after)).
Proof.
  apply (sync_command_fails_on_bad_frame Fixture.unmarshalMessage
           Fixture.unmarshalErrorData Fixture.unmarshalString "session.status" (JObj [])
           [Scenario.loadEvent] [] Scenario.wire).
  constructor; [|constructor]. eexists. split; [reflexivity|]. by vm_compute.
Defined.

Lemma sync_command_success_witness :
  (None : option string) = None
  /\ Bidi.msgID Scenario.replyMessage = Some (Bidi.NextID (Bidi.commandID Scenario.wire))
  /\ Bidi.msgError Scenario.replyMessage = ""
  /\ Bidi.commandID Scenario.subscribed = Bidi.NextID (Bidi.commandID Scenario.wire)
  /\ Bidi.outbox Scenario.subscribed
     = Bidi.outbox Scenario.wire
       ++ [BidiSendCommand (Bidi.NextID (Bidi.commandID Scenario.wire))
             "session.status" (JObj [])]
  /\ exists before resp,
       Bidi.inbox Scenario.wire = before ++ Ok resp :: Bidi.inbox Scenario.subscribed
       /\ Fixture.unmarshalMessage resp = Ok Scenario.replyMessage.
Proof.
  apply (sync_command_success Fixture.unmarshalMessage Fixture.unmarshalErrorData
           Fixture.unmarshalString "session.status" (JObj []) None Scenario.wire
           Scenario.replyMessage Scenario.subscribed).
  reflexivity.
Defined.

Lemma event_loop_keeps_the_channel_bounded_witness :
  let frames := [Ok Scenario.loadEvent; Err "EOF"] in
  exists c',
    BidiSpec.loopClient (Bidi.eventLoop Fixture.unmarshalMessage frames Bidi.NewClient)
    = Some c'
    /\ Bidi.events Bidi.NewClient `prefix_of` Bidi.events c'
    /\ (length (Bidi.events c') <= 100)%nat
    /\ Bidi.eventsClosed c'
       = BidiSpec.loopEnded (Bidi.eventLoop Fixture.unmarshalMessage frames Bidi.NewClient)
    /\ (BidiSpec.loopEnded (Bidi.eventLoop Fixture.unmarshalMessage frames Bidi.NewClient)
        = true -> Bidi.eventLoopRunning c' = false).
Proof.
  apply (event_loop_keeps_the_channel_bounded Fixture.unmarshalMessage
           [Ok Scenario.loadEvent; Err "EOF"] Bidi.NewClient).
  - reflexivity.
  - cbn. lia.
Defined.

Lemma response_wakes_its_command_witness :
  exists c',
    BidiSpec.loopClient
      (Bidi.eventLoop Fixture.unmarshalMessage
         ((Ok <$> [Scenario.loadEvent])
            ++ Ok (Scenario.subscribeReply 1) :: [Ok (Scenario.subscribeReply 1); Err "EOF"])
         (Bidi.registerCommand 1 None Bidi.NewClient).2) = Some c'
    /\ Bidi.takeResponse Fixture.unmarshalErrorData Fixture.unmarshalString 1 c'
       = Some (Bidi.checkResponse Fixture.unmarshalErrorData Fixture.unmarshalString
                 Scenario.replyMessage)
    /\ 1 ∉ Bidi.pendingCommands c'.
Proof.
  apply (response_wakes_its_command Fixture.unmarshalMessage Fixture.unmarshalErrorData
           Fixture.unmarshalString [Scenario.loadEvent] (Scenario.subscribeReply 1)
           Scenario.replyMessage [Ok (Scenario.subscribeReply 1); Err "EOF"] 1
           Bidi.NewClient).
  - reflexivity.
  - constructor; [|constructor]. intros m. vm_compute. intros H. inversion H. done.
  - reflexivity.
  - reflexivity.
Defined.

Lemma pending_command_outlives_the_loop_witness :
  exists c',
    Bidi.eventLoop Fixture.unmarshalMessage
      ((Ok <$> [Scenario.loadEvent]) ++ Err "EOF" :: []) Scenario.waiting
    = Bidi.LoopEnded c'
    /\ 1 ∈ Bidi.pendingCommands c'
    /\ Bidi.takeResponse Fixture.unmarshalErrorData Fixture.unmarshalString 1 c' = None
    /\ Bidi.eventsClosed c' = true
    /\ Bidi.eventLoopRunning c' = false.
Proof.
  apply (pending_command_outlives_the_loop Fixture.unmarshalMessage
           Fixture.unmarshalErrorData Fixture.unmarshalString [Scenario.loadEvent]
           "EOF" [] 1 Scenario.waiting).
  - reflexivity.
  - apply (bool_decide_unpack _). vm_compute. exact I.
  - reflexivity.
  - constructor; [|constructor]. intros m. vm_compute. intros H. inversion H. done.
Defined.

Lemma restarted_loop_panics_witness :
  let restarted := Bidi.StartEventLoop Scenario.ended in
  restarted.1 = true
  /\ (forall e rest,
        Bidi.eventLoop Fixture.unmarshalMessage (Err e :: rest) restarted.2
        = Bidi.LoopPanic "close of closed channel")
  /\ (forall frame msg rest,
        Fixture.unmarshalMessage frame = Ok msg -> Bidi.IsEvent msg = true ->
        Bidi.eventLoop Fixture.unmarshalMessage (Ok frame :: rest) restarted.2
        = Bidi.LoopPanic "send on closed channel").
Proof.
  apply (restarted_loop_panics Fixture.unmarshalMessage [Err "EOF"] Bidi.NewClient
           Scenario.ended).
  - reflexivity.
  - reflexivity.
Defined.

Lemma subscription_is_undone_at_disconnect_witness :
  let connect :=
    Proxy.OnClientConnect Fixture.unmarshalMessage Fixture.unmarshalErrorData
      Fixture.unmarshalString Fixture.unmarshalSubscription 1 Scenario.dial
      (Proxy.NewRouter true 0) in
  let disconnect inbox :=
    Proxy.OnClientDisconnect Fixture.unmarshalMessage Fixture.unmarshalErrorData
      Fixture.unmarshalString 1 None inbox connect.2 in
  let subscribed :=
    BidiSendCommand 1 "session.subscribe"
      (Bidi.subscribeParams Proxy.navigationEvents [] []) in
  let unsubscribed :=
    BidiSendCommand 2 "session.unsubscribe" (Bidi.unsubscribeByIDParams ["sub-1"]) in
  connect.1 = Proxy.Serving [Ok (Fixture.eventFrame navigationStarted)]
  /\ (exists w, (disconnect [Ok (Fixture.doneReply 2)]).1 = Some (TornDown w)
                /\ trace w = [subscribed; unsubscribed; CloseStopChan; BidiConnClose;
                              LaunchResultClose])
  /\ Proxy.commandID (disconnect [Ok (Fixture.doneReply 2)]).2 = 2
  /\ Proxy.sessions (disconnect [Ok (Fixture.doneReply 2)]).2 = ∅
  /\ (exists w, (disconnect [Ok Scenario.loadEvent]).1 = Some (Unsubscribing w)
                /\ trace w = [subscribed; unsubscribed]
                /\ stopChan (session w) = false).
Proof.
  assert ((Proxy.OnClientConnect Fixture.unmarshalMessage Fixture.unmarshalErrorData
             Fixture.unmarshalString Fixture.unmarshalSubscription 1 Scenario.dial
             (Proxy.NewRouter true 0)).1
          = Proxy.Serving [Ok (Fixture.eventFrame navigationStarted)]) as Hserving
    by reflexivity.
  destruct (subscription_is_undone_at_disconnect Fixture.unmarshalMessage
              Fixture.unmarshalErrorData Fixture.unmarshalString
              Fixture.unmarshalSubscription 1 Scenario.dial (Proxy.NewRouter true 0)
              [Ok (Fixture.eventFrame navigationStarted)] None
              [Ok (Fixture.doneReply 2)] Hserving)
    as (t & subscription & Ht & Hs & _ & Hsub & Hcase).
  cbn zeta. split; [exact Hserving|].
  assert (subscription = "sub-1") as -> by (vm_compute in Hsub; exact Hsub).
  vm_compute in Hcase. destruct Hcase as (Hcount & Hreturned & Htrace).
  split; [|split; [|split] ].
  - exists (tornWorld t). by rewrite Ht, Hreturned at 1.
  - reflexivity.
  - rewrite Hs. reflexivity.
  - eexists. split; [reflexivity|]. split; reflexivity.
Defined.

Lemma listener_channels_are_closed_witness :
  let cmd := Fixture.clickBack "waitForLoad" in
  noLeak Fixture.connected
    (handleVibiumFind Fixture.parseGetTree Fixture.parseCallResult Fixture.parseElementInfo
       Fixture.offscreenEnv cmd Fixture.connected).2
  /\ noLeak Fixture.connected
       (handleVibiumClick Fixture.parseGetTree Fixture.parseCallResult
          Fixture.parseElementInfo Fixture.offscreenEnv cmd Fixture.connected).2
  /\ noLeak Fixture.connected
       (handleVibiumType Fixture.parseGetTree Fixture.parseCallResult
          Fixture.parseElementInfo Fixture.offscreenEnv cmd Fixture.connected).2.
Proof.
  apply (listener_channels_are_closed Fixture.parseGetTree Fixture.parseCallResult
           Fixture.parseElementInfo Fixture.offscreenEnv (Fixture.clickBack "waitForLoad")
           Fixture.connected).
  apply registryFresh_new.
Defined.

Lemma close_all_closes_every_session_witness :
  let result :=
    Proxy.CloseAll Fixture.unmarshalMessage Fixture.unmarshalErrorData
      Fixture.unmarshalString [1; 2] Scenario.silentFirst Scenario.twoClients in
  NoDup [1; 2]
  /\ result.1 !! 1 = Some Fixture.unanswered
  /\ Proxy.sessions result.2 !! 1 = Some (tornWorld Fixture.unanswered)
  /\ forall later,
       later ∈ [2] ->
       result.1 !! later = None
       /\ Proxy.sessions result.2 !! later = Proxy.sessions Scenario.twoClients !! later.
Proof.
  assert (NoDup [1; 2]) as Hnd by (apply (bool_decide_unpack _); vm_compute; exact I).
  destruct (close_all_closes_every_session Fixture.parseCommand Fixture.parseGetTree
              Fixture.parseCallResult Fixture.parseElementInfo Fixture.unmarshalMessage
              Fixture.unmarshalErrorData Fixture.unmarshalString [1; 2]
              Scenario.silentFirst Scenario.twoClients Hnd) as (_ & _ & _ & Hwaits).
  assert ((Proxy.CloseAll Fixture.unmarshalMessage Fixture.unmarshalErrorData
             Fixture.unmarshalString [1; 2] Scenario.silentFirst Scenario.twoClients).1
            !! 1 = Some (Unsubscribing (tornWorld Fixture.unanswered))) as Hfirst
    by (vm_compute; reflexivity).
  destruct (Hwaits [] 1 [2] _ eq_refl Hfirst) as (Hkept & Hrest).
  cbn zeta. split; [exact Hnd|]. split; [exact Hfirst|]. split; [exact Hkept | exact Hrest].
Defined.
